(** * ai-chat-widget: a shallow embedding of the session runtime

    The development follows the TypeScript sources file by file:
    [types.ts], [core/MemoryWindow.ts], [core/PromptEngine.ts],
    [core/StreamingEngine.ts], [core/ConversationOrchestrator.ts],
    [providers/ClaudeProvider.ts], [providers/OpenAIProvider.ts],
    [providers/MoonshotProvider.ts], [providers/LocalProvider.ts],
    [providers/ProviderHub.ts] and [plugins/PluginManager.ts].  Definitions
    come first, one module per source file; the theorems about them follow
    in the second half.

    Conventions.  A JavaScript string is a [string] (its [length] is the
    number of code units), a [number] that holds a count or a budget is a
    [Z], an optional field is an [option], and an array is a [list]. *)

From Stdlib Require Import ZArith String Ascii List Lia Bool.
From stdpp Require Import base list strings gmap pretty.

Local Open Scope string_scope.
Local Open Scope list_scope.
Local Open Scope Z_scope.

(* ===================================================================== *)
(** * JavaScript primitives used by the sources                           *)
(* ===================================================================== *)

Module Js.

(** The line feed and the double line feed written ['\n'] and ['\n\n']. *)
Definition LF : ascii := "010"%char.
Definition nl : string := String LF EmptyString.
Definition nl2 : string := String LF (String LF EmptyString).

(** Truthiness of a string: only the empty string is falsy. *)
Definition truthy_string (s : string) : bool :=
  if decide (s = "") then false else true.

(** Truthiness of an optional string field: [undefined] and [''] are
    falsy. *)
Definition truthy_opt_string (o : option string) : bool :=
  match o with
  | Some s => truthy_string s
  | None => false
  end.

(** [arr.slice(start)] for an integer [start]: a negative [start] counts
    from the end and is clamped at the first element, a non-negative one
    is clamped at the length. *)
Definition slice_from {A : Type} (start : Z) (arr : list A) : list A :=
  let len := Z.of_nat (length arr) in
  let k := if start <? 0 then Z.max (len + start) 0 else Z.min start len in
  drop (Z.to_nat k) arr.

(** [s.slice(n)] for [n >= 0]. *)
Fixpoint string_slice (n : nat) (s : string) : string :=
  match n, s with
  | O, _ => s
  | S n', String _ rest => string_slice n' rest
  | S _, EmptyString => EmptyString
  end.

(** Put [c] in front of the first piece of [pieces]. *)
Definition extend_first (c : ascii) (pieces : list string) : list string :=
  match pieces with
  | piece :: rest => String c piece :: rest
  | [] => [String c EmptyString]
  end.

(** [s.split('\n')]: the pieces between line feeds; there is always at
    least one piece, and the last one is the text after the last line
    feed. *)
Fixpoint split_lf (s : string) : list string :=
  match s with
  | EmptyString => [EmptyString]
  | String c rest =>
      if decide (c = LF) then EmptyString :: split_lf rest
      else extend_first c (split_lf rest)
  end.

(** [lines.pop() || ''] *)
Definition pop_or_empty (lines : list string) : string :=
  match last lines with
  | Some piece => piece
  | None => EmptyString
  end.

(** [Math.ceil(n / d)] for a natural [n] and a positive [d]. *)
Definition ceil_div (n d : Z) : Z := (n + d - 1) / d.

(** [parts.join(sep)] *)
Fixpoint join (sep : string) (parts : list string) : string :=
  match parts with
  | [] => EmptyString
  | [part] => part
  | part :: rest => part +:+ sep +:+ join sep rest
  end.

End Js.

(* ===================================================================== *)
(** * types.ts                                                            *)
(* ===================================================================== *)

Module Types.

Inductive MessageRole : Type :=
| system
| user
| assistant
| tool.

Global Instance MessageRole_eq_dec : EqDecision MessageRole.
Proof. solve_decision. Defined.

Record ToolCallFunction : Type := mkToolCallFunction {
  fn_name : string;
  fn_arguments : string
}.

(** The [type] field of a tool call is the constant ['function']. *)
Record ToolCall : Type := mkToolCall {
  tc_id : string;
  tc_function : ToolCallFunction
}.

Record Message : Type := mkMessage {
  id : string;
  role : MessageRole;
  content : string;
  name : option string;
  tool_calls : option (list ToolCall);
  tool_call_id : option string;
  timestamp : option Z
}.

(** [{ ...msg, content: c }] *)
Definition with_content (c : string) (msg : Message) : Message :=
  {| id := id msg; role := role msg; content := c; name := name msg;
     tool_calls := tool_calls msg; tool_call_id := tool_call_id msg;
     timestamp := timestamp msg |}.

(** [msg.tool_calls = tcs] *)
Definition with_tool_calls (tcs : list ToolCall) (msg : Message) : Message :=
  {| id := id msg; role := role msg; content := content msg;
     name := name msg; tool_calls := Some tcs;
     tool_call_id := tool_call_id msg; timestamp := timestamp msg |}.

Inductive FinishReason : Type :=
| fr_stop
| fr_length
| fr_tool_calls
| fr_error.

Record Usage : Type := mkUsage {
  promptTokens : Z;
  completionTokens : Z;
  totalTokens : Z
}.

Record StreamChunk : Type := mkStreamChunk {
  chunk_content : option string;
  chunk_toolCalls : option (list ToolCall);
  chunk_usage : option Usage;
  chunk_finishReason : option FinishReason;
  chunk_done : option bool
}.

(** The caller-side [MemoryConfig]: every field is optional. *)
Record MemoryConfig : Type := mkMemoryConfig {
  cfg_maxMessages : option Z;
  cfg_maxTokens : option Z;
  cfg_enableSummarization : option bool;
  cfg_systemPromptLocked : option bool
}.

(** [Required<MemoryConfig>] *)
Record RequiredMemoryConfig : Type := mkRequiredMemoryConfig {
  maxMessages : Z;
  maxTokens : Z;
  enableSummarization : bool;
  systemPromptLocked : bool
}.

End Types.

Import Types.

(* ===================================================================== *)
(** * core/MemoryWindow.ts                                                *)
(* ===================================================================== *)

Module MemoryWindow.

(** The private fields of the class. *)
Record t : Type := mk {
  config : RequiredMemoryConfig;
  messages : list Message;
  systemPrompt : option string;
  pinnedMessages : list Message
}.

(** The value returned by [getContext]. *)
Record Context : Type := mkContext {
  ctx_systemPrompt : option string;
  ctx_messages : list Message
}.

(** [constructor(config = {})]: the [??] defaults. *)
Definition new (cfg : MemoryConfig) : t :=
  {| config :=
       {| maxMessages := default 50 (cfg_maxMessages cfg);
          maxTokens := default 8000 (cfg_maxTokens cfg);
          enableSummarization := default false (cfg_enableSummarization cfg);
          systemPromptLocked := default true (cfg_systemPromptLocked cfg) |};
     messages := [];
     systemPrompt := None;
     pinnedMessages := [] |}.

(** [new MemoryWindow()] *)
Definition empty_config : MemoryConfig :=
  {| cfg_maxMessages := None; cfg_maxTokens := None;
     cfg_enableSummarization := None; cfg_systemPromptLocked := None |}.

Definition set_messages (ms : list Message) (w : t) : t :=
  {| config := config w; messages := ms;
     systemPrompt := systemPrompt w; pinnedMessages := pinnedMessages w |}.

Definition set_prompt (p : option string) (w : t) : t :=
  {| config := config w; messages := messages w;
     systemPrompt := p; pinnedMessages := pinnedMessages w |}.

(** [setSystemPrompt]: the write happens when the lock is off or when
    the stored prompt is falsy. *)
Definition setSystemPrompt (prompt : string) (w : t) : t :=
  if negb (systemPromptLocked (config w))
     || negb (Js.truthy_opt_string (systemPrompt w))
  then set_prompt (Some prompt) w
  else w.

(** [pinMessages] replaces the pinned list. *)
Definition pinMessages (ms : list Message) (w : t) : t :=
  {| config := config w; messages := messages w;
     systemPrompt := systemPrompt w; pinnedMessages := ms |}.

(** [trim]: keep the most recent [maxMessages] entries once the
    transcript is longer than that. *)
Definition trim (w : t) : t :=
  if maxMessages (config w) <? Z.of_nat (length (messages w))
  then set_messages (Js.slice_from (- maxMessages (config w)) (messages w)) w
  else w.

Definition addMessage (message : Message) (w : t) : t :=
  trim (set_messages (messages w ++ [message]) w).

Definition addMessages (ms : list Message) (w : t) : t :=
  trim (set_messages (messages w ++ ms) w).

Definition getAllMessages (w : t) : list Message := messages w.

Definition clear (w : t) : t := set_messages [] w.

(** [estimateTokens]: [Math.ceil(text.length / 4)]. *)
Definition estimateTokens (text : string) : Z :=
  Js.ceil_div (Z.of_nat (String.length text)) 4.

(** The [for] loop of [trimByTokens].  [newest_first] lists the messages
    not yet visited, from index [i] down to [0]; [result] grows at the
    front ([unshift]); the loop stops at the first message that does not
    fit (both branches of the inner [if] are [break]). *)
Fixpoint trim_walk (budget : Z) (newest_first : list Message)
         (totalTokens : Z) (result : list Message) : list Message :=
  match newest_first with
  | [] => result
  | msg :: older =>
      let msgTokens := estimateTokens (content msg) in
      if totalTokens + msgTokens <=? budget
      then trim_walk budget older (totalTokens + msgTokens) (msg :: result)
      else result
  end.

(** The running total starts from the prompt's estimate when a prompt
    is stored, and the loop visits [messages[length-1]] first. *)
Definition token_walk (w : t) (msgs : list Message) : list Message :=
  let totalTokens :=
    match systemPrompt w with
    | Some p => if Js.truthy_string p then estimateTokens p else 0
    | None => 0
    end in
  trim_walk (maxTokens (config w)) (rev msgs) totalTokens [].

Definition trimByTokens (w : t) (msgs : list Message) : list Message :=
  if maxTokens (config w) <=? 0 then msgs
  else
    let result := token_walk w msgs in
    if (0 <? length result)%nat then result else Js.slice_from (-1) msgs.

(** The [filter] with the [seen] set of [getContext]: the first message
    carrying an id is kept, later ones with the same id are dropped. *)
Fixpoint dedup (seen : gset string) (msgs : list Message) : list Message :=
  match msgs with
  | [] => []
  | msg :: rest =>
      if decide (id msg ∈ seen) then dedup seen rest
      else msg :: dedup ({[ id msg ]} ∪ seen) rest
  end.

(** The candidate list of [getContext]: pinned messages, then the most
    recent [maxMessages] transcript entries, filtered by [seen]. *)
Definition candidates (w : t) : list Message :=
  let recentMessages := Js.slice_from (- maxMessages (config w)) (messages w) in
  let result := pinnedMessages w ++ recentMessages in
  dedup ∅ result.

Definition getContext (w : t) : Context :=
  {| ctx_systemPrompt :=
       if Js.truthy_opt_string (systemPrompt w) then systemPrompt w else None;
     ctx_messages :=
       if 0 <? maxTokens (config w)
       then trimByTokens w (candidates w)
       else candidates w |}.

(** [updateConfig]: the fields present in [cfg] override the stored
    ones, then the ceiling is re-applied. *)
Definition updateConfig (cfg : MemoryConfig) (w : t) : t :=
  trim
    {| config :=
         {| maxMessages := default (maxMessages (config w)) (cfg_maxMessages cfg);
            maxTokens := default (maxTokens (config w)) (cfg_maxTokens cfg);
            enableSummarization :=
              default (enableSummarization (config w)) (cfg_enableSummarization cfg);
            systemPromptLocked :=
              default (systemPromptLocked (config w)) (cfg_systemPromptLocked cfg) |};
       messages := messages w;
       systemPrompt := systemPrompt w;
       pinnedMessages := pinnedMessages w |}.

(** A call made on a window by its owner. *)
Inductive Append : Type :=
| append (message : Message)
| appendMany (ms : list Message).

Definition apply_append (a : Append) (w : t) : t :=
  match a with
  | append m => addMessage m w
  | appendMany ms => addMessages ms w
  end.

(** Run a sequence of appends, first call first. *)
Definition run_appends (calls : list Append) (w : t) : t :=
  fold_left (fun acc a => apply_append a acc) calls w.

(** Every message handed to the window by a sequence of appends. *)
Definition appended (calls : list Append) : list Message :=
  concat (map (fun a => match a with
                        | append m => [m]
                        | appendMany ms => ms
                        end) calls).

(** The estimate that [trimByTokens] charges for the stored prompt before
    it visits any message. *)
Definition prompt_tokens (w : t) : Z :=
  match systemPrompt w with
  | Some p => if Js.truthy_string p then estimateTokens p else 0
  | None => 0
  end.

(** The sum of the estimates of a list of messages. *)
Definition estimated_total (msgs : list Message) : Z :=
  foldr (fun msg acc => estimateTokens (content msg) + acc) 0 msgs.

(** A series of [setSystemPrompt] calls, first call first. *)
Definition setSystemPrompts (prompts : list string) (w : t) : t :=
  fold_left (fun acc prompt => setSystemPrompt prompt acc) prompts w.

End MemoryWindow.

(* ===================================================================== *)
(** * core/PromptEngine.ts                                                *)
(* ===================================================================== *)

Module PromptEngine.

(** A value of an object type that, at run time, may also be [null] or
    [undefined]. *)
Inductive JsRef (A : Type) : Type :=
| nullish
| obj (a : A).
Arguments nullish {A}.
Arguments obj {A} a.

(** [a || b] on such values: an object is truthy, [null] and [undefined]
    are not. *)
Definition js_or {A : Type} (a b : JsRef A) : JsRef A :=
  match a with
  | nullish => b
  | obj _ => a
  end.

(** One entry of the [tools] list; the parameter schema is an opaque
    payload. *)
Record ToolDecl : Type := mkToolDecl {
  tool_name : string;
  tool_description : string;
  tool_parameters : string
}.

(** The [metadata] object built by [compose]. *)
Record Metadata : Type := mkMetadata {
  md_jsonSchema : option string;
  md_tools : option (list ToolDecl)
}.

Record PluginContext : Type := mkPluginContext {
  pc_messages : list Message;
  pc_systemPrompt : option string;
  pc_metadata : Metadata
}.

(** How a call (awaited) ends: with a value, or with an exception or a
    rejected promise. *)
Inductive Completion (A : Type) : Type :=
| returned (v : JsRef A)
| thrown.
Arguments returned {A} v.
Arguments thrown {A}.

(** What one call of a [beforeSend] hook does: the hook receives the
    context object by reference, so it may have modified it in place
    ([arg_after] is the state in which it leaves its argument), and it
    completes with a value or an exception. *)
Record HookRun : Type := mkHookRun {
  arg_after : PluginContext;
  completion : Completion PluginContext
}.

Definition Hook : Type := PluginContext -> HookRun.

(** [ChatPlugin], with the hook that [compose] uses. *)
Record ChatPlugin : Type := mkChatPlugin {
  plugin_name : string;
  beforeSend : option Hook
}.

Record PromptEngineConfig : Type := mkPromptEngineConfig {
  systemPrompt : option string;
  messages : list Message;
  plugins : option (list ChatPlugin);
  jsonSchema : option string;
  tools : option (list ToolDecl)
}.

(** [applyPlugin]: [result || context] when the hook completes, [context]
    when it throws.  [context] is the object that was handed to the
    hook. *)
Definition applyPlugin (transform : Hook) (context : PluginContext)
  : JsRef PluginContext :=
  let run := transform context in
  match completion run with
  | returned result => js_or result (obj (arg_after run))
  | thrown => obj (arg_after run)
  end.

(** What [compose] resolves to.  [nullish_reached] records that a [null]
    or [undefined] context was about to be handed to the next hook or read
    for its [messages] (a [TypeError] in the latter case). *)
Inductive ComposeResult : Type :=
| resolved (msgs : list Message)
| nullish_reached.

(** The [for (const plugin of plugins)] loop followed by
    [return processedContext.messages]. *)
Fixpoint run_hooks (ps : list ChatPlugin) (processedContext : JsRef PluginContext)
  : ComposeResult :=
  match ps with
  | [] =>
      match processedContext with
      | obj c => resolved (pc_messages c)
      | nullish => nullish_reached
      end
  | plugin :: rest =>
      match beforeSend plugin with
      | Some hook =>
          match processedContext with
          | obj c => run_hooks rest (applyPlugin hook c)
          | nullish => nullish_reached
          end
      | None => run_hooks rest processedContext
      end
  end.

(** The synthesized system message; [t_id] and [t_stamp] are the two
    readings of [Date.now()]. *)
Definition system_message (t_id t_stamp : Z) (prompt : string) : Message :=
  {| id := "system-" +:+ pretty t_id; role := system; content := prompt;
     name := None; tool_calls := None; tool_call_id := None;
     timestamp := Some t_stamp |}.

Definition compose (t_id t_stamp : Z) (config : PromptEngineConfig)
  : ComposeResult :=
  let composed :=
    (match systemPrompt config with
     | Some p => if Js.truthy_string p then [system_message t_id t_stamp p] else []
     | None => []
     end) ++ messages config in
  match plugins config with
  | Some ps =>
      if (0 <? length ps)%nat
      then
        let pluginContext :=
          {| pc_messages := composed;
             pc_systemPrompt := systemPrompt config;
             pc_metadata := {| md_jsonSchema := jsonSchema config;
                               md_tools := tools config |} |} in
        run_hooks ps (obj pluginContext)
      else resolved composed
  | None => resolved composed
  end.

(** The loop of [formatForClaude], with its two variables. *)
Fixpoint claude_loop (msgs : list Message) (formatted : list Message)
         (systemContent : string) : list Message :=
  match msgs with
  | [] => formatted
  | msg :: rest =>
      if decide (role msg = system)
      then claude_loop rest formatted (systemContent +:+ (content msg +:+ Js.nl2))
      else if Js.truthy_string systemContent && (length formatted =? 0)%nat
      then claude_loop rest
             (formatted ++ [with_content (systemContent +:+ content msg) msg]) ""
      else claude_loop rest (formatted ++ [msg]) systemContent
  end.

(** The value of [systemContent] after the loop has visited the system
    messages [sys], starting from the empty string. *)
Fixpoint gathered (sys : list Message) : string :=
  match sys with
  | [] => ""
  | m :: rest => (content m +:+ Js.nl2) +:+ gathered rest
  end.

Definition formatForClaude (msgs : list Message) : list Message :=
  let formatted := claude_loop msgs [] "" in
  if (0 <? length formatted)%nat then formatted else msgs.

Definition formatForProvider (msgs : list Message) (provider : string)
  : list Message :=
  if decide (provider = "claude") then formatForClaude msgs else msgs.

(** The value of [processedContext] when the loop over the plugins ends. *)
Fixpoint hooks_context (ps : list ChatPlugin)
         (processedContext : JsRef PluginContext) : JsRef PluginContext :=
  match ps with
  | [] => processedContext
  | plugin :: rest =>
      match beforeSend plugin with
      | Some hook =>
          match processedContext with
          | obj c => hooks_context rest (applyPlugin hook c)
          | nullish => nullish
          end
      | None => hooks_context rest processedContext
      end
  end.

(** The [pluginContext] object that [compose] builds before the loop. *)
Definition pluginContext (t_id t_stamp : Z) (config : PromptEngineConfig)
  : PluginContext :=
  {| pc_messages :=
       (match systemPrompt config with
        | Some p => if Js.truthy_string p then [system_message t_id t_stamp p] else []
        | None => []
        end) ++ messages config;
     pc_systemPrompt := systemPrompt config;
     pc_metadata := {| md_jsonSchema := jsonSchema config;
                       md_tools := tools config |} |}.

(** The string a role is written as. *)
Definition role_name (r : MessageRole) : string :=
  match r with
  | system => "system"
  | user => "user"
  | assistant => "assistant"
  | tool => "tool"
  end.

(** The two tests that [validateMessages] makes on each message. *)
Definition well_formed (msg : Message) : bool :=
  if negb (Js.truthy_string (id msg))
     || negb (Js.truthy_string (role_name (role msg)))
     || negb (Js.truthy_string (content msg))
  then false
  else if negb (bool_decide
                  (role_name (role msg) ∈ ["system"; "user"; "assistant"; "tool"]))
  then false
  else true.

(** [validateMessages]: the argument is an array by its type; the loop
    returns [false] at the first message that fails a test. *)
Definition validateMessages (msgs : list Message) : bool :=
  if (length msgs =? 0)%nat then false else forallb well_formed msgs.

End PromptEngine.

(* ===================================================================== *)
(** * providers/ClaudeProvider.ts                                         *)
(* ===================================================================== *)

Module ClaudeProvider.

(** An entry of the array returned by [formatMessages]: the role is a
    plain string there. *)
Record WireMessage : Type := mkWireMessage {
  w_role : string;
  w_content : string
}.

(** The part of [ProviderConfig] that shapes the request body; the
    sampling parameters are floating-point numbers that are copied
    through and are left out. *)
Record ProviderConfig : Type := mkProviderConfig {
  model : string;
  cfg_maxTokens : option Z
}.

(** The request body.  [b_system] is the spread
    [...(systemMessage && { system: systemMessage.content })]. *)
Record Body : Type := mkBody {
  b_model : string;
  b_max_tokens : Z;
  b_messages : list WireMessage;
  b_system : option string;
  b_stream : bool
}.

(** White space removed by [String.prototype.trim], for code units
    below 256: tab, line feed, vertical tab, form feed, carriage return,
    space and no-break space. *)
Definition is_white_space (c : ascii) : bool :=
  let n := nat_of_ascii c in
  ((9 <=? n) && (n <=? 13) || (n =? 32) || (n =? 160))%nat.

(** [s.trim() === ''] *)
Fixpoint trims_to_empty (s : string) : bool :=
  match s with
  | EmptyString => true
  | String c rest => is_white_space c && trims_to_empty rest
  end.

(** The predicate of the [filter] in [formatMessages]. *)
Definition keep (msg : Message) : bool :=
  if bool_decide (role msg = assistant)
     && (negb (Js.truthy_string (content msg)) || trims_to_empty (content msg))
  then false
  else if negb (bool_decide (role msg = system))
  then Js.truthy_string (content msg)
  else true.

(** The function of the [map] in [formatMessages]. *)
Definition to_wire (msg : Message) : WireMessage :=
  if bool_decide (role msg = system)
  then {| w_role := "user"; w_content := content msg |}
  else {| w_role := if bool_decide (role msg = assistant)
                    then "assistant" else "user";
          w_content := content msg |}.

Definition formatMessages (msgs : list Message) : list WireMessage :=
  map to_wire (List.filter keep msgs).

(** The body built by [stream] ([streaming = true]) and by [chat]. *)
Definition request_body (streaming : bool) (msgs : list Message)
           (config : ProviderConfig) : Body :=
  let formattedMessages := formatMessages msgs in
  let systemMessage :=
    List.find (fun m => bool_decide (w_role m = "system")) formattedMessages in
  let conversationMessages :=
    List.filter (fun m => negb (bool_decide (w_role m = "system")))
                formattedMessages in
  {| b_model := model config;
     b_max_tokens := default 4096 (cfg_maxTokens config);
     b_messages := conversationMessages;
     b_system := option_map w_content systemMessage;
     b_stream := streaming |}.

End ClaudeProvider.

(* ===================================================================== *)
(** * core/StreamingEngine.ts                                             *)
(* ===================================================================== *)

Module StreamingEngine.

(** The callbacks a [StreamHandler] provides.  A callback that is present
    is taken to return normally. *)
Record StreamHandler : Type := mkStreamHandler {
  onChunk : bool;
  onComplete : bool;
  onError : bool
}.

(** A callback invocation, as seen by the caller. *)
Inductive Call : Type :=
| called_onChunk (chunk : StreamChunk)
| called_onComplete (message : Message)
| called_onError.

(** The private fields.  [abortController] is [None] when the field is
    [undefined] and [Some aborted] otherwise. *)
Record t : Type := mk {
  abortController : option bool;
  currentMessage : option Message;
  accumulatedContent : string
}.

Definition initial : t :=
  {| abortController := None; currentMessage := None;
     accumulatedContent := "" |}.

(** [cancel()] *)
Definition cancel (e : t) : t :=
  match abortController e with
  | Some _ => {| abortController := Some true;
                 currentMessage := currentMessage e;
                 accumulatedContent := accumulatedContent e |}
  | None => e
  end.

(** [this.abortController?.signal.aborted] *)
Definition aborted (e : t) : bool :=
  match abortController e with
  | Some b => b
  | None => false
  end.

(** [isStreaming()] *)
Definition isStreaming (e : t) : bool :=
  match abortController e with
  | Some b => negb b
  | None => false
  end.

(** What happens while [stream] is suspended in [for await]: the source
    yields its next chunk, the source throws, or the owner calls
    [cancel()].  The end of the list is the end of the source. *)
Inductive Event : Type :=
| yields (chunk : StreamChunk)
| source_throws
| cancel_called.

(** [chunk.done || chunk.finishReason] *)
Definition terminal (chunk : StreamChunk) : bool :=
  match chunk_done chunk with
  | Some true => true
  | _ => match chunk_finishReason chunk with
         | Some _ => true
         | None => false
         end
  end.

Definition set_content (e : t) : t :=
  {| abortController := abortController e;
     currentMessage := option_map (with_content (accumulatedContent e))
                                  (currentMessage e);
     accumulatedContent := accumulatedContent e |}.

(** The body of the loop up to the [done] test, for one chunk. *)
Definition apply_chunk (chunk : StreamChunk) (e : t) : t :=
  let e1 :=
    match chunk_content chunk with
    | Some text =>
        if Js.truthy_string text
        then set_content
               {| abortController := abortController e;
                  currentMessage := currentMessage e;
                  accumulatedContent := accumulatedContent e +:+ text |}
        else e
    | None => e
    end in
  match chunk_toolCalls chunk with
  | Some tcs =>
      {| abortController := abortController e1;
         currentMessage := option_map (with_tool_calls tcs) (currentMessage e1);
         accumulatedContent := accumulatedContent e1 |}
  | None => e1
  end.

(** How the [for await] loop is left. *)
Inductive LoopExit : Type :=
| fell_through
| raised.

(** The [for await] loop.  [calls] collects the callback invocations,
    latest last. *)
Fixpoint consume (handler : StreamHandler) (events : list Event) (e : t)
         (calls : list Call) : LoopExit * t * list Call :=
  match events with
  | [] => (fell_through, e, calls)
  | cancel_called :: rest => consume handler rest (cancel e) calls
  | source_throws :: _ => (raised, e, calls)
  | yields chunk :: rest =>
      if aborted e then (fell_through, e, calls)
      else
        let e1 := apply_chunk chunk e in
        let calls1 :=
          if onChunk handler then calls ++ [called_onChunk chunk] else calls in
        if terminal chunk then (fell_through, set_content e1, calls1)
        else consume handler rest e1 calls1
  end.

(** How the promise returned by [stream] settles. *)
Inductive Settled : Type :=
| resolves (message : option Message)
| rejects.

Record Run : Type := mkRun {
  settled : Settled;
  calls : list Call;
  final : t
}.

Definition clear_controller (e : t) : t :=
  {| abortController := None; currentMessage := currentMessage e;
     accumulatedContent := accumulatedContent e |}.

(** The state in which [stream] enters its loop: a fresh controller, an
    empty accumulator and the new assistant message. *)
Definition entry (msgId : string) (now : Z) : t :=
  {| abortController := Some false;
     currentMessage :=
       Some {| id := msgId; role := assistant; content := ""; name := None;
               tool_calls := None; tool_call_id := None;
               timestamp := Some now |};
     accumulatedContent := "" |}.

(** [stream(stream, handler, messageId)].  [msgId] is the id given by the
    caller or the generated one, [now] the reading of [Date.now()].  The
    promise resolves with [this.currentMessage] after the completion
    callback, or rejects after the error callback; [finally] resets the
    controller. *)
Definition stream (events : list Event) (handler : StreamHandler)
           (msgId : string) (now : Z) (e : t) : Run :=
  match consume handler events (entry msgId now) [] with
  | (fell_through, e1, calls1) =>
      {| settled := resolves (currentMessage e1);
         calls :=
           match currentMessage e1 with
           | Some m => if onComplete handler
                       then calls1 ++ [called_onComplete m] else calls1
           | None => calls1
           end;
         final := clear_controller e1 |}
  | (raised, e1, calls1) =>
      {| settled := rejects;
         calls := if onError handler then calls1 ++ [called_onError] else calls1;
         final := clear_controller e1 |}
  end.

(** The chunks that the loop applies when nothing interrupts it: those up
    to and including the first terminal one. *)
Fixpoint consumed (chunks : list StreamChunk) : list StreamChunk :=
  match chunks with
  | [] => []
  | chunk :: rest => if terminal chunk then [chunk] else chunk :: consumed rest
  end.

(** The text a chunk carries, empty when it has none. *)
Definition chunk_text (chunk : StreamChunk) : string :=
  default "" (chunk_content chunk).

(** The texts of a list of chunks, joined in order. *)
Fixpoint texts (chunks : list StreamChunk) : string :=
  match chunks with
  | [] => ""
  | chunk :: rest => chunk_text chunk +:+ texts rest
  end.

(** The tool-call list of the last chunk that carries one, [earlier]
    when none does. *)
Fixpoint latest_tool_calls (chunks : list StreamChunk)
         (earlier : option (list ToolCall)) : option (list ToolCall) :=
  match chunks with
  | [] => earlier
  | chunk :: rest =>
      latest_tool_calls rest
        (match chunk_toolCalls chunk with
         | Some tcs => Some tcs
         | None => earlier
         end)
  end.

(** The [onChunk] invocations for a list of chunks. *)
Definition onChunk_calls (handler : StreamHandler) (chunks : list StreamChunk)
  : list Call :=
  if onChunk handler then map called_onChunk chunks else [].

(** The engine while the loop runs on message [m], not cancelled. *)
Definition running (m : Message) : t :=
  {| abortController := Some false;
     currentMessage := Some m;
     accumulatedContent := content m |}.

(** The engine after a run that ended with message [m]. *)
Definition idle_with (m : Message) : t :=
  {| abortController := None;
     currentMessage := Some m;
     accumulatedContent := content m |}.

(** What one chunk does to the message under construction. *)
Definition absorb (chunk : StreamChunk) (m : Message) : Message :=
  {| id := id m; role := role m;
     content := content m +:+ chunk_text chunk;
     name := name m;
     tool_calls := match chunk_toolCalls chunk with
                   | Some tcs => Some tcs
                   | None => tool_calls m
                   end;
     tool_call_id := tool_call_id m; timestamp := timestamp m |}.

Definition absorb_all (chunks : list StreamChunk) (m : Message) : Message :=
  fold_left (fun acc chunk => absorb chunk acc) chunks m.

(** The assistant message that [stream] starts from. *)
Definition blank (msgId : string) (now : Z) : Message :=
  {| id := msgId; role := assistant; content := ""; name := None;
     tool_calls := None; tool_call_id := None; timestamp := Some now |}.

End StreamingEngine.

(* ===================================================================== *)
(** * JSON values and the accesses the adapters make on them              *)
(* ===================================================================== *)

Module Json.

(** A value produced by [JSON.parse].  Numbers are carried as integers:
    the adapters only test them for being zero. *)
#[warnings="-register-all"]
Inductive value : Type :=
| null
| bool (b : Datatypes.bool)
| number (n : Z)
| str (s : string)
| array (items : list value)
| object (members : list (string * value)).

(** The own property [key] of an object; as in [JSON.parse], the last
    member written under a key is the one that counts. *)
Fixpoint member (key : string) (members : list (string * value))
  : option value :=
  match members with
  | [] => None
  | (k, v) :: rest =>
      match member key rest with
      | Some later => Some later
      | None => if decide (k = key) then Some v else None
      end
  end.

(** [v.key] for a receiver that is neither [null] nor [undefined], and a
    key that is not a built-in property of arrays, strings, numbers or
    booleans (true of every key the adapters read).  [None] is
    [undefined]. *)
Definition get (key : string) (v : value) : option value :=
  match v with
  | object members => member key members
  | _ => None
  end.

(** [v[0]] for a receiver that is neither [null] nor [undefined]. *)
Definition first (v : value) : option value :=
  match v with
  | array (x :: _) => Some x
  | str (String c _) => Some (str (String c EmptyString))
  | object members => member "0" members
  | _ => None
  end.

(** [o?.key]: [undefined] when the receiver is [null] or [undefined]. *)
Definition opt_get (key : string) (o : option value) : option value :=
  match o with
  | None | Some null => None
  | Some v => get key v
  end.

(** [o?.[0]] *)
Definition opt_first (o : option value) : option value :=
  match o with
  | None | Some null => None
  | Some v => first v
  end.

(** Truthiness of a possibly undefined value. *)
Definition truthy (o : option value) : Datatypes.bool :=
  match o with
  | None | Some null => false
  | Some (bool b) => b
  | Some (number n) => negb (n =? 0)
  | Some (str s) => Js.truthy_string s
  | Some (array _) | Some (object _) => true
  end.

End Json.

(* ===================================================================== *)
(** * providers/OpenAIProvider.ts                                         *)
(* ===================================================================== *)

Module OpenAIProvider.

(** A chunk as the generator yields it.  The fields hold whatever JSON
    values the event carried; a field that is absent, or set from an
    undefined property, is [None]. *)
Record RawChunk : Type := mkRawChunk {
  content : option Json.value;
  toolCalls : option Json.value;
  usage : option Json.value;
  finishReason : option Json.value;
  done : option bool
}.

(** [{ content: c }] *)
Definition content_chunk (c : Json.value) : RawChunk :=
  {| content := Some c; toolCalls := None; usage := None;
     finishReason := None; done := None |}.

(** [{ toolCalls: tc }] *)
Definition toolCalls_chunk (tc : Json.value) : RawChunk :=
  {| content := None; toolCalls := Some tc; usage := None;
     finishReason := None; done := None |}.

(** [{ finishReason: fr, usage: u, done: true }] *)
Definition finish_chunk (fr : Json.value) (u : option Json.value) : RawChunk :=
  {| content := None; toolCalls := None; usage := u;
     finishReason := Some fr; done := Some true |}.

(** [{ done: true }] *)
Definition done_chunk : RawChunk :=
  {| content := None; toolCalls := None; usage := None;
     finishReason := None; done := Some true |}.

(** [parsed.choices?.[0]] for a [parsed] that is not [null]. *)
Definition choice_of (parsed : Json.value) : option Json.value :=
  Json.opt_first (Json.get "choices" parsed).

(** [choice?.delta?.content] *)
Definition delta_content (parsed : Json.value) : option Json.value :=
  Json.opt_get "content" (Json.opt_get "delta" (choice_of parsed)).

(** [choice?.delta?.tool_calls] *)
Definition delta_tool_calls (parsed : Json.value) : option Json.value :=
  Json.opt_get "tool_calls" (Json.opt_get "delta" (choice_of parsed)).

(** [choice?.finish_reason] *)
Definition finish_reason (parsed : Json.value) : option Json.value :=
  Json.opt_get "finish_reason" (choice_of parsed).

(** The three [if]s that follow [JSON.parse] inside the [try].  [None]
    is an exception: reading [choices] from [null] throws, before
    anything is yielded. *)
Definition chunks_of (parsed : Json.value) : option (list RawChunk) :=
  match parsed with
  | Json.null => None
  | _ =>
      Some
        ((match delta_content parsed with
          | Some c => if Json.truthy (Some c) then [content_chunk c] else []
          | None => []
          end)
         ++ (match delta_tool_calls parsed with
             | Some tc => if Json.truthy (Some tc) then [toolCalls_chunk tc] else []
             | None => []
             end)
         ++ (match finish_reason parsed with
             | Some fr =>
                 if Json.truthy (Some fr)
                 then [finish_chunk fr (Json.get "usage" parsed)] else []
             | None => []
             end))
  end.

(** What the body of [for (const line of lines)] does with one line. *)
Inductive LineResult : Type :=
| yielded (chunks : list RawChunk)
| yielded_and_returned (chunks : list RawChunk).

Section WithParser.

(** [JSON.parse]: [None] when it throws. *)
Variable JSON_parse : string -> option Json.value.

Definition on_line (line : string) : LineResult :=
  if String.prefix "data: " line
  then
    let data := Js.string_slice 6 line in
    if decide (data = "[DONE]")
    then yielded_and_returned [done_chunk]
    else
      match JSON_parse data with
      | Some parsed =>
          match chunks_of parsed with
          | Some chunks => yielded chunks
          | None => yielded []
          end
      | None => yielded []
      end
  else yielded [].

(** The [for] loop over the complete lines of one read; the flag tells
    whether the generator has returned. *)
Fixpoint on_lines (lines : list string) : list RawChunk * bool :=
  match lines with
  | [] => ([], false)
  | line :: rest =>
      match on_line line with
      | yielded chunks =>
          let '(out, returned) := on_lines rest in (chunks ++ out, returned)
      | yielded_and_returned chunks => (chunks, true)
      end
  end.

(** The [while (true)] loop.  [reads] holds the decoded text of each
    successful [reader.read()], in order; the end of the list is
    [done].  The text left in [buffer] at that point is dropped. *)
Fixpoint read_loop (reads : list string) (buffer : string) : list RawChunk :=
  match reads with
  | [] => []
  | value :: later =>
      let lines := Js.split_lf (buffer +:+ value) in
      let buffer' := Js.pop_or_empty lines in
      let '(out, returned) := on_lines (removelast lines) in
      if returned then out else out ++ read_loop later buffer'
  end.

(** The chunks yielded by [stream] once the response is [ok] and has a
    body: the loop starts with an empty buffer. *)
Definition stream (reads : list string) : list RawChunk :=
  read_loop reads "".



End WithParser.

(** The lines of [text] that end with a line feed. *)
Definition complete_lines (text : string) : list string :=
  removelast (Js.split_lf text).

(** The text received by the adapter, all reads joined. *)
Fixpoint joined (reads : list string) : string :=
  match reads with
  | [] => ""
  | value :: later => value +:+ joined later
  end.

(** An entry of the array returned by [formatMessages]: [name] and
    [tool_call_id] are set when the message has a non-empty one,
    [tool_calls] when the message has the field, empty or not. *)
Record WireMessage : Type := mkWireMessage {
  w_role : MessageRole;
  w_content : string;
  w_name : option string;
  w_tool_calls : option (list ToolCall);
  w_tool_call_id : option string
}.

(** [o] when it is a non-empty string, as in [if (msg.name)]. *)
Definition non_empty (o : option string) : option string :=
  if Js.truthy_opt_string o then o else None.

(** The predicate of the [filter] in [formatMessages]. *)
Definition keep (msg : Message) : bool :=
  if bool_decide (role msg = assistant)
     && (negb (Js.truthy_string (Types.content msg))
         || ClaudeProvider.trims_to_empty (Types.content msg))
  then
    match tool_calls msg with
    | Some tcs => (0 <? length tcs)%nat
    | None => false
    end
  else if negb (bool_decide (role msg = system))
  then Js.truthy_string (Types.content msg)
  else true.

(** The function of the [map] in [formatMessages]. *)
Definition to_wire (msg : Message) : WireMessage :=
  {| w_role := role msg;
     w_content := Types.content msg;
     w_name := non_empty (name msg);
     w_tool_calls := tool_calls msg;
     w_tool_call_id := non_empty (tool_call_id msg) |}.

Definition formatMessages (msgs : list Message) : list WireMessage :=
  map to_wire (List.filter keep msgs).

(** A chunk that is not a tool-call chunk. *)
Definition no_tool_calls (c : RawChunk) : bool :=
  match toolCalls c with
  | None => true
  | Some _ => false
  end.

End OpenAIProvider.

(* ===================================================================== *)
(** * The reading loop shared by the adapters                             *)
(* ===================================================================== *)

(** The OpenAI, Anthropic, Moonshot and local adapters each carry the same
    [while (true)] loop around [reader.read()]; they differ in what the
    body of the [try] does with one line.  The loop is written once here,
    over the handling of a line. *)
Module SseLoop.

Section WithLineHandler.

Variable on_line : string -> OpenAIProvider.LineResult.

(** The [for] loop over the complete lines of one read; the flag tells
    whether the generator has returned. *)
Fixpoint on_lines (lines : list string)
  : list OpenAIProvider.RawChunk * bool :=
  match lines with
  | [] => ([], false)
  | line :: rest =>
      match on_line line with
      | OpenAIProvider.yielded chunks =>
          let '(out, returned) := on_lines rest in (chunks ++ out, returned)
      | OpenAIProvider.yielded_and_returned chunks => (chunks, true)
      end
  end.

(** The [while (true)] loop: [reads] is the decoded text of each
    successful read, the end of the list is [done]. *)
Fixpoint read_loop (reads : list string) (buffer : string)
  : list OpenAIProvider.RawChunk :=
  match reads with
  | [] => []
  | value :: later =>
      let lines := Js.split_lf (buffer +:+ value) in
      let buffer' := Js.pop_or_empty lines in
      let '(out, returned) := on_lines (removelast lines) in
      if returned then out else out ++ read_loop later buffer'
  end.

Definition stream (reads : list string) : list OpenAIProvider.RawChunk :=
  read_loop reads "".

End WithLineHandler.

End SseLoop.

(* ===================================================================== *)
(** * providers/ClaudeProvider.ts: the streamed response                  *)
(* ===================================================================== *)

Module ClaudeStream.

(** [parsed.type === name], for a [parsed] that is not [null]. *)
Definition has_type (name : string) (parsed : Json.value) : bool :=
  match Json.get "type" parsed with
  | Some (Json.str t) => bool_decide (t = name)
  | _ => false
  end.

(** [parsed.delta?.text] *)
Definition delta_text (parsed : Json.value) : option Json.value :=
  Json.opt_get "text" (Json.get "delta" parsed).

(** The two [if]s that follow [JSON.parse] inside the [try]; [None] is
    the exception raised by reading [type] from [null]. *)
Definition chunks_of (parsed : Json.value)
  : option (list OpenAIProvider.RawChunk) :=
  match parsed with
  | Json.null => None
  | _ =>
      Some
        ((if has_type "content_block_delta" parsed
             && Json.truthy (delta_text parsed)
          then
            match delta_text parsed with
            | Some text => [OpenAIProvider.content_chunk text]
            | None => []
            end
          else [])
         ++ (if has_type "message_stop" parsed
             then [OpenAIProvider.finish_chunk (Json.str "stop")
                     (Json.get "usage" parsed)]
             else []))
  end.

Section WithParser.

Variable JSON_parse : string -> option Json.value.

Definition on_line (line : string) : OpenAIProvider.LineResult :=
  if String.prefix "data: " line
  then
    let data := Js.string_slice 6 line in
    if decide (data = "[DONE]")
    then OpenAIProvider.yielded_and_returned [OpenAIProvider.done_chunk]
    else
      match JSON_parse data with
      | Some parsed =>
          match chunks_of parsed with
          | Some chunks => OpenAIProvider.yielded chunks
          | None => OpenAIProvider.yielded []
          end
      | None => OpenAIProvider.yielded []
      end
  else OpenAIProvider.yielded [].

Definition stream (reads : list string) : list OpenAIProvider.RawChunk :=
  SseLoop.stream on_line reads.

End WithParser.

End ClaudeStream.

(* ===================================================================== *)
(** * providers/MoonshotProvider.ts                                       *)
(* ===================================================================== *)

Module MoonshotProvider.

Record WireMessage : Type := mkWireMessage {
  w_role : MessageRole;
  w_content : string;
  w_name : option string
}.

(** The predicate of the [filter] in [formatMessages]: here a system
    message needs content as well. *)
Definition keep (msg : Message) : bool :=
  if bool_decide (role msg = assistant)
     && (negb (Js.truthy_string (content msg))
         || ClaudeProvider.trims_to_empty (content msg))
  then false
  else Js.truthy_string (content msg).

Definition to_wire (msg : Message) : WireMessage :=
  {| w_role := role msg; w_content := content msg;
     w_name := OpenAIProvider.non_empty (name msg) |}.

Definition formatMessages (msgs : list Message) : list WireMessage :=
  map to_wire (List.filter keep msgs).

(** The two [if]s inside the [try]: content and finish, no tool calls. *)
Definition chunks_of (parsed : Json.value)
  : option (list OpenAIProvider.RawChunk) :=
  match parsed with
  | Json.null => None
  | _ =>
      Some
        ((match OpenAIProvider.delta_content parsed with
          | Some c =>
              if Json.truthy (Some c) then [OpenAIProvider.content_chunk c] else []
          | None => []
          end)
         ++ (match OpenAIProvider.finish_reason parsed with
             | Some fr =>
                 if Json.truthy (Some fr)
                 then [OpenAIProvider.finish_chunk fr (Json.get "usage" parsed)]
                 else []
             | None => []
             end))
  end.

Section WithParser.

Variable JSON_parse : string -> option Json.value.

Definition on_line (line : string) : OpenAIProvider.LineResult :=
  if String.prefix "data: " line
  then
    let data := Js.string_slice 6 line in
    if decide (data = "[DONE]")
    then OpenAIProvider.yielded_and_returned [OpenAIProvider.done_chunk]
    else
      match JSON_parse data with
      | Some parsed =>
          match chunks_of parsed with
          | Some chunks => OpenAIProvider.yielded chunks
          | None => OpenAIProvider.yielded []
          end
      | None => OpenAIProvider.yielded []
      end
  else OpenAIProvider.yielded [].

Definition stream (reads : list string) : list OpenAIProvider.RawChunk :=
  SseLoop.stream on_line reads.

End WithParser.

End MoonshotProvider.

(* ===================================================================== *)
(** * providers/LocalProvider.ts                                          *)
(* ===================================================================== *)

Module LocalProvider.

(** The predicate of the [filter] in [formatMessages]. *)
Definition keep (msg : Message) : bool :=
  if bool_decide (role msg = assistant)
     && (negb (Js.truthy_string (content msg))
         || ClaudeProvider.trims_to_empty (content msg))
  then false
  else if negb (bool_decide (role msg = system))
  then Js.truthy_string (content msg)
  else true.

(** The entries have the shape of the Moonshot ones. *)
Definition formatMessages (msgs : list Message)
  : list MoonshotProvider.WireMessage :=
  map MoonshotProvider.to_wire (List.filter keep msgs).

(** The two [if]s inside the [try]: content and finish. *)
Definition chunks_of (parsed : Json.value)
  : option (list OpenAIProvider.RawChunk) :=
  match parsed with
  | Json.null => None
  | _ =>
      Some
        ((match OpenAIProvider.delta_content parsed with
          | Some c =>
              if Json.truthy (Some c) then [OpenAIProvider.content_chunk c] else []
          | None => []
          end)
         ++ (match OpenAIProvider.finish_reason parsed with
             | Some fr =>
                 if Json.truthy (Some fr)
                 then [OpenAIProvider.finish_chunk fr (Json.get "usage" parsed)]
                 else []
             | None => []
             end))
  end.

Section WithParser.

Variable JSON_parse : string -> option Json.value.

Definition on_line (line : string) : OpenAIProvider.LineResult :=
  if String.prefix "data: " line
  then
    let data := Js.string_slice 6 line in
    if decide (data = "[DONE]")
    then OpenAIProvider.yielded_and_returned [OpenAIProvider.done_chunk]
    else
      match JSON_parse data with
      | Some parsed =>
          match chunks_of parsed with
          | Some chunks => OpenAIProvider.yielded chunks
          | None => OpenAIProvider.yielded []
          end
      | None => OpenAIProvider.yielded []
      end
  else OpenAIProvider.yielded [].

Definition stream (reads : list string) : list OpenAIProvider.RawChunk :=
  SseLoop.stream on_line reads.

End WithParser.

End LocalProvider.

(* ===================================================================== *)
(** * A JavaScript [Map] with string keys                                 *)
(* ===================================================================== *)

(** A [Map] iterates in insertion order, and [set] on a key that is
    present replaces the value where it stands; the entries are kept as a
    list in that order. *)
Module JsMap.

Section WithValue.

Context {V : Type}.

Definition t : Type := list (string * V).

Definition empty : t := [].

Fixpoint set (key : string) (v : V) (m : t) : t :=
  match m with
  | [] => [(key, v)]
  | (k, old) :: rest =>
      if decide (k = key) then (key, v) :: rest else (k, old) :: set key v rest
  end.

Fixpoint get (key : string) (m : t) : option V :=
  match m with
  | [] => None
  | (k, v) :: rest => if decide (k = key) then Some v else get key rest
  end.

Fixpoint delete (key : string) (m : t) : t :=
  match m with
  | [] => []
  | (k, v) :: rest =>
      if decide (k = key) then rest else (k, v) :: delete key rest
  end.

Definition keys (m : t) : list string := map fst m.

Definition values (m : t) : list V := map snd m.

End WithValue.

Arguments t V : clear implicits.

End JsMap.

(* ===================================================================== *)
(** * providers/ProviderHub.ts                                            *)
(* ===================================================================== *)

Module ProviderHub.

Section WithAdapter.

(** The adapters, with their [name] field. *)
Variable Adapter : Type.
Variable name : Adapter -> string.

Definition t : Type := JsMap.t Adapter.

(** [register] *)
Definition register (provider : Adapter) (hub : t) : t :=
  JsMap.set (name provider) provider hub.

(** The constructor registers the built-in adapters one after the other,
    starting from an empty map. *)
Definition new (defaults : list Adapter) : t :=
  fold_left (fun hub provider => register provider hub) defaults JsMap.empty.

(** [listProviders] *)
Definition listProviders (hub : t) : list string := JsMap.keys hub.

(** The message of the error thrown for an unknown name. *)
Definition not_found (n : string) (hub : t) : string :=
  "Provider " +:+ String "034" n +:+ String "034" " not found. Available: "
    +:+ Js.join ", " (JsMap.keys hub).

(** [getProvider]: the adapter, or the error that is thrown. *)
Definition getProvider (n : string) (hub : t) : Adapter + string :=
  match JsMap.get n hub with
  | Some provider => inl provider
  | None => inr (not_found n hub)
  end.

(** Every entry is filed under the name of its adapter, and no name
    occurs twice. *)
Definition well_keyed (hub : t) : Prop :=
  NoDup (JsMap.keys hub)
  /\ Forall (fun entry => name (snd entry) = fst entry) hub.

(** [getProviderFromConfig]; [provider] is [config.provider]. *)
Definition getProviderFromConfig (provider : string) (hub : t)
  : Adapter + string :=
  getProvider provider hub.

End WithAdapter.

End ProviderHub.

(* ===================================================================== *)
(** * plugins/PluginManager.ts                                            *)
(* ===================================================================== *)

Module PluginManager.

(** What one call of a [beforeSend] hook does here.  The manager hands
    the hook whatever the previous hook returned, so the argument may be
    [null] or [undefined]; [arg_after] is the state in which the hook
    leaves its argument. *)
Record HookRun : Type := mkHookRun {
  arg_after : PromptEngine.JsRef PromptEngine.PluginContext;
  completion : PromptEngine.Completion PromptEngine.PluginContext
}.

Definition Hook : Type :=
  PromptEngine.JsRef PromptEngine.PluginContext -> HookRun.

(** [ChatPlugin], with the hook that [executeBeforeSend] runs. *)
Record ChatPlugin : Type := mkChatPlugin {
  plugin_name : string;
  beforeSend : option Hook
}.

Definition t : Type := JsMap.t ChatPlugin.

Definition register (plugin : ChatPlugin) (pm : t) : t :=
  JsMap.set (plugin_name plugin) plugin pm.

Definition unregister (n : string) (pm : t) : t := JsMap.delete n pm.

Definition getAll (pm : t) : list ChatPlugin := JsMap.values pm.

Definition get (n : string) (pm : t) : option ChatPlugin := JsMap.get n pm.

(** The loop of [executeBeforeSend]: [result] becomes what the hook
    returns, whatever that is, and stays as it is when the hook throws. *)
Fixpoint run_beforeSend (plugins : list ChatPlugin)
         (result : PromptEngine.JsRef PromptEngine.PluginContext)
  : PromptEngine.JsRef PromptEngine.PluginContext :=
  match plugins with
  | [] => result
  | plugin :: rest =>
      match beforeSend plugin with
      | Some hook =>
          let run := hook result in
          match completion run with
          | PromptEngine.returned r => run_beforeSend rest r
          | PromptEngine.thrown => run_beforeSend rest (arg_after run)
          end
      | None => run_beforeSend rest result
      end
  end.

Definition executeBeforeSend (ctx : PromptEngine.PluginContext) (pm : t)
  : PromptEngine.JsRef PromptEngine.PluginContext :=
  run_beforeSend (JsMap.values pm) (PromptEngine.obj ctx).

End PluginManager.

(* ===================================================================== *)
(** * core/ConversationOrchestrator.ts                                    *)
(* ===================================================================== *)

Module ConversationOrchestrator.

(** [memory?: number | MemoryConfig] *)
Inductive MemoryOption : Type :=
| memory_count (n : Z)
| memory_config (c : MemoryConfig).

(** The configuration, for an orchestrator without persistence;
    [provider] is [config.provider.provider]. *)
Record OrchestratorConfig : Type := mkOrchestratorConfig {
  provider : string;
  memory : option MemoryOption;
  plugins : option (list PromptEngine.ChatPlugin);
  systemPrompt : option string
}.

Record t : Type := mk {
  memoryWindow : MemoryWindow.t;
  current_plugins : list PromptEngine.ChatPlugin;
  config : OrchestratorConfig
}.

(** The constructor. *)
Definition new (cfg : OrchestratorConfig) : t :=
  let memoryConfig :=
    match memory cfg with
    | Some (memory_count n) =>
        {| cfg_maxMessages := Some n; cfg_maxTokens := None;
           cfg_enableSummarization := None; cfg_systemPromptLocked := None |}
    | Some (memory_config c) => c
    | None => MemoryWindow.empty_config
    end in
  let window := MemoryWindow.new memoryConfig in
  {| memoryWindow :=
       match systemPrompt cfg with
       | Some p =>
           if Js.truthy_string p then MemoryWindow.setSystemPrompt p window
           else window
       | None => window
       end;
     current_plugins := default [] (plugins cfg);
     config := cfg |}.

Definition with_window (w : MemoryWindow.t) (o : t) : t :=
  {| memoryWindow := w; current_plugins := current_plugins o;
     config := config o |}.

(** Steps 1 to 5 of [sendMessage]: the user message is added to the
    window, the context is read, composed and shaped for the provider.
    [msgId] is the generated id and [now] the time stamp of the user
    message; [t_id] and [t_stamp] are the clock readings of [compose].
    The result is the orchestrator after step 2 and the messages that
    step 8 hands to the adapter. *)
Definition sendMessage_request (text : string) (msgId : string) (now : Z)
           (t_id t_stamp : Z) (o : t) : t * PromptEngine.ComposeResult :=
  let userMessage :=
    {| id := msgId; role := user; content := text; name := None;
       tool_calls := None; tool_call_id := None; timestamp := Some now |} in
  let window := MemoryWindow.addMessage userMessage (memoryWindow o) in
  let context := MemoryWindow.getContext window in
  let composedMessages :=
    PromptEngine.compose t_id t_stamp
      {| PromptEngine.systemPrompt := MemoryWindow.ctx_systemPrompt context;
         PromptEngine.messages := MemoryWindow.ctx_messages context;
         PromptEngine.plugins := Some (current_plugins o);
         PromptEngine.jsonSchema := None;
         PromptEngine.tools := None |} in
  (with_window window o,
   match composedMessages with
   | PromptEngine.resolved msgs =>
       PromptEngine.resolved
         (PromptEngine.formatForProvider msgs (provider (config o)))
   | PromptEngine.nullish_reached => PromptEngine.nullish_reached
   end).

Definition getHistory (o : t) : list Message :=
  MemoryWindow.getAllMessages (memoryWindow o).

Definition clear (o : t) : t :=
  with_window (MemoryWindow.clear (memoryWindow o)) o.

Definition updateSystemPrompt (prompt : string) (o : t) : t :=
  with_window (MemoryWindow.setSystemPrompt prompt (memoryWindow o)) o.

Definition pinMessages (msgs : list Message) (o : t) : t :=
  with_window (MemoryWindow.pinMessages msgs (memoryWindow o)) o.

Definition addPlugin (plugin : PromptEngine.ChatPlugin) (o : t) : t :=
  {| memoryWindow := memoryWindow o;
     current_plugins := current_plugins o ++ [plugin];
     config := config o |}.

Definition removePlugin (pluginName : string) (o : t) : t :=
  {| memoryWindow := memoryWindow o;
     current_plugins :=
       List.filter
         (fun p => negb (bool_decide (PromptEngine.plugin_name p = pluginName)))
         (current_plugins o);
     config := config o |}.

End ConversationOrchestrator.

(* ===================================================================== *)
(** * A reader for a fragment of JSON                                     *)
(* ===================================================================== *)

(** The adapters call the platform's [JSON.parse]; the theorems below hold
    for any parser.  This reader instantiates it in the examples.  It
    accepts objects, arrays, strings with the single-character escapes,
    integers and the three literals, and rejects everything else
    (fractions, exponents and [\u] escapes included). *)
Module JsonFragment.

Definition quote : ascii := "034"%char.
Definition backslash : ascii := "092"%char.

Definition is_ws (c : ascii) : bool :=
  let n := nat_of_ascii c in
  ((n =? 32) || (n =? 9) || (n =? 10) || (n =? 13))%nat.

Definition is_digit (c : ascii) : bool :=
  let n := nat_of_ascii c in ((48 <=? n) && (n <=? 57))%nat.

Definition digit_value (c : ascii) : Z := Z.of_nat (nat_of_ascii c) - 48.

Fixpoint skip_ws (s : string) : string :=
  match s with
  | String c rest => if is_ws c then skip_ws rest else s
  | EmptyString => EmptyString
  end.

Definition unescape (c : ascii) : option ascii :=
  if decide (c = quote) then Some quote
  else if decide (c = backslash) then Some backslash
  else if decide (c = "/"%char) then Some "/"%char
  else if decide (c = "n"%char) then Some "010"%char
  else if decide (c = "t"%char) then Some "009"%char
  else if decide (c = "r"%char) then Some "013"%char
  else if decide (c = "b"%char) then Some "008"%char
  else if decide (c = "f"%char) then Some "012"%char
  else None.

(** The characters of a string literal, after its opening quote. *)
Fixpoint string_body (s : string) : option (string * string) :=
  match s with
  | EmptyString => None
  | String c rest =>
      if decide (c = quote) then Some (EmptyString, rest)
      else if decide (c = backslash) then
        match rest with
        | String e rest' =>
            match unescape e, string_body rest' with
            | Some ch, Some (body, tail) => Some (String ch body, tail)
            | _, _ => None
            end
        | EmptyString => None
        end
      else if (nat_of_ascii c <? 32)%nat then None
      else
        match string_body rest with
        | Some (body, tail) => Some (String c body, tail)
        | None => None
        end
  end.

Fixpoint digits (s : string) (acc : Z) : Z * string :=
  match s with
  | String c rest =>
      if is_digit c then digits rest (10 * acc + digit_value c) else (acc, s)
  | EmptyString => (acc, EmptyString)
  end.

(** An integer without sign; a leading zero stands alone, and a
    fraction or an exponent is outside the fragment. *)
Definition natural (s : string) : option (Z * string) :=
  match s with
  | String c rest =>
      if is_digit c then
        let '(n, tail) :=
          if decide (c = "0"%char) then (0, rest) else digits s 0 in
        match tail with
        | String d _ =>
            if is_digit d || bool_decide (d = "."%char)
               || bool_decide (d = "e"%char) || bool_decide (d = "E"%char)
            then None else Some (n, tail)
        | EmptyString => Some (n, tail)
        end
      else None
  | EmptyString => None
  end.

Section Composite.

(** The reader for the values nested one level down. *)
Variable read_value : string -> option (Json.value * string).

(** The members of an object, from a key on. *)
Fixpoint members (n : nat) (s : string) (acc : list (string * Json.value))
  : option (Json.value * string) :=
  match n with
  | O => None
  | S n' =>
      match skip_ws s with
      | String q after_quote =>
          if decide (q = quote) then
            match string_body after_quote with
            | Some (key, after_key) =>
                match skip_ws after_key with
                | String colon after_colon =>
                    if decide (colon = ":"%char) then
                      match read_value after_colon with
                      | Some (v, after_value) =>
                          match skip_ws after_value with
                          | String sep tail =>
                              if decide (sep = ","%char)
                              then members n' tail (acc ++ [(key, v)])
                              else if decide (sep = "}"%char)
                              then Some (Json.object (acc ++ [(key, v)]), tail)
                              else None
                          | EmptyString => None
                          end
                      | None => None
                      end
                    else None
                | EmptyString => None
                end
            | None => None
            end
          else None
      | EmptyString => None
      end
  end.

(** The items of an array, from an item on. *)
Fixpoint items (n : nat) (s : string) (acc : list Json.value)
  : option (Json.value * string) :=
  match n with
  | O => None
  | S n' =>
      match read_value s with
      | Some (v, after_value) =>
          match skip_ws after_value with
          | String sep tail =>
              if decide (sep = ","%char) then items n' tail (acc ++ [v])
              else if decide (sep = "]"%char)
              then Some (Json.array (acc ++ [v]), tail)
              else None
          | EmptyString => None
          end
      | None => None
      end
  end.

End Composite.

Fixpoint value (fuel : nat) (s : string) : option (Json.value * string) :=
  match fuel with
  | O => None
  | S fuel' =>
      match skip_ws s with
      | EmptyString => None
      | String c rest =>
          if decide (c = "{"%char) then
            match skip_ws rest with
            | String close tail =>
                if decide (close = "}"%char) then Some (Json.object [], tail)
                else members (value fuel') (String.length rest) rest []
            | EmptyString => None
            end
          else if decide (c = "["%char) then
            match skip_ws rest with
            | String close tail =>
                if decide (close = "]"%char) then Some (Json.array [], tail)
                else items (value fuel') (String.length rest) rest []
            | EmptyString => None
            end
          else if decide (c = quote) then
            match string_body rest with
            | Some (body, tail) => Some (Json.str body, tail)
            | None => None
            end
          else if String.prefix "true" (String c rest)
          then Some (Json.bool true, Js.string_slice 4 (String c rest))
          else if String.prefix "false" (String c rest)
          then Some (Json.bool false, Js.string_slice 5 (String c rest))
          else if String.prefix "null" (String c rest)
          then Some (Json.null, Js.string_slice 4 (String c rest))
          else if decide (c = "-"%char) then
            match natural rest with
            | Some (n, tail) => Some (Json.number (- n), tail)
            | None => None
            end
          else
            match natural (String c rest) with
            | Some (n, tail) => Some (Json.number n, tail)
            | None => None
            end
      end
  end.

(** The whole text must be one value, white space aside. *)
Definition parse (text : string) : option Json.value :=
  match value (S (String.length text)) text with
  | Some (v, tail) =>
      match skip_ws tail with
      | EmptyString => Some v
      | String _ _ => None
      end
  | None => None
  end.

(** [s] between double quotes (for texts without quote or backslash). *)
Definition quoted (s : string) : string :=
  String quote s +:+ String quote EmptyString.

End JsonFragment.

(* ===================================================================== *)
(** * Sample data                                                         *)
(* ===================================================================== *)

Module Sample.

(** A message with only the mandatory fields. *)
Definition msg (i : string) (r : MessageRole) (c : string) : Message :=
  {| id := i; role := r; content := c; name := None; tool_calls := None;
     tool_call_id := None; timestamp := None |}.

(** [{ maxMessages, maxTokens }] *)
Definition limits (n : option Z) (budget : option Z) : MemoryConfig :=
  {| cfg_maxMessages := n; cfg_maxTokens := budget;
     cfg_enableSummarization := None; cfg_systemPromptLocked := None |}.

(** [{ systemPromptLocked }] *)
Definition lock (b : bool) : MemoryConfig :=
  {| cfg_maxMessages := None; cfg_maxTokens := None;
     cfg_enableSummarization := None; cfg_systemPromptLocked := Some b |}.

Definition context (msgs : list Message) : PromptEngine.PluginContext :=
  {| PromptEngine.pc_messages := msgs;
     PromptEngine.pc_systemPrompt := None;
     PromptEngine.pc_metadata :=
       {| PromptEngine.md_jsonSchema := None; PromptEngine.md_tools := None |} |}.

(** A hook with no [return] statement: it completes with [undefined]
    and leaves the context as it found it. *)
Definition silent_hook : PromptEngine.Hook :=
  fun ctx => {| PromptEngine.arg_after := ctx;
                PromptEngine.completion :=
                  PromptEngine.returned PromptEngine.nullish |}.

(** A hook that returns a new context with one more message. *)
Definition tagging_hook : PromptEngine.Hook :=
  fun ctx =>
    {| PromptEngine.arg_after := ctx;
       PromptEngine.completion :=
         PromptEngine.returned
           (PromptEngine.obj
              {| PromptEngine.pc_messages :=
                   PromptEngine.pc_messages ctx ++ [msg "tag" user "tagged"];
                 PromptEngine.pc_systemPrompt := PromptEngine.pc_systemPrompt ctx;
                 PromptEngine.pc_metadata := PromptEngine.pc_metadata ctx |}) |}.

Definition plugin (n : string) (h : PromptEngine.Hook) : PromptEngine.ChatPlugin :=
  {| PromptEngine.plugin_name := n; PromptEngine.beforeSend := Some h |}.

Definition text_chunk (text : string) : StreamChunk :=
  {| chunk_content := Some text; chunk_toolCalls := None; chunk_usage := None;
     chunk_finishReason := None; chunk_done := None |}.

(** [{ done: true, finishReason: 'stop' }] *)
Definition stop_chunk : StreamChunk :=
  {| chunk_content := None; chunk_toolCalls := None; chunk_usage := None;
     chunk_finishReason := Some fr_stop; chunk_done := Some true |}.

Definition all_callbacks : StreamingEngine.StreamHandler :=
  {| StreamingEngine.onChunk := true; StreamingEngine.onComplete := true;
     StreamingEngine.onError := true |}.

Definition reply (i : string) (now : Z) (c : string) : Message :=
  {| id := i; role := assistant; content := c; name := None;
     tool_calls := None; tool_call_id := None; timestamp := Some now |}.

(** The event line [data: {"choices":[{"delta":{"content":"<text>"}}]}]. *)
Definition delta_line (text : string) : string :=
  "data: {" +:+ JsonFragment.quoted "choices" +:+ ":[{"
    +:+ JsonFragment.quoted "delta" +:+ ":{"
    +:+ JsonFragment.quoted "content" +:+ ":" +:+ JsonFragment.quoted text
    +:+ "}}]}".

(** The event line [data: {"choices":[{"delta":{},"finish_reason":"stop"}]}]. *)
Definition finish_line : string :=
  "data: {" +:+ JsonFragment.quoted "choices" +:+ ":[{"
    +:+ JsonFragment.quoted "delta" +:+ ":{},"
    +:+ JsonFragment.quoted "finish_reason" +:+ ":"
    +:+ JsonFragment.quoted "stop" +:+ "}]}".


(** A hook that throws at once. *)
Definition failing_hook : PromptEngine.Hook :=
  fun ctx => {| PromptEngine.arg_after := ctx;
                PromptEngine.completion := PromptEngine.thrown |}.

(** A hook that pushes a message onto [ctx.messages] of the context it
    was given and has no [return] statement. *)
Definition pushing_hook : PromptEngine.Hook :=
  fun ctx =>
    {| PromptEngine.arg_after :=
         {| PromptEngine.pc_messages :=
              PromptEngine.pc_messages ctx ++ [msg "pushed" user "pushed"];
            PromptEngine.pc_systemPrompt := PromptEngine.pc_systemPrompt ctx;
            PromptEngine.pc_metadata := PromptEngine.pc_metadata ctx |};
       PromptEngine.completion := PromptEngine.returned PromptEngine.nullish |}.

(** A hook that returns a new context with one more message, labelled
    [label]. *)
Definition labelling_hook (label : string) : PromptEngine.Hook :=
  fun ctx =>
    {| PromptEngine.arg_after := ctx;
       PromptEngine.completion :=
         PromptEngine.returned
           (PromptEngine.obj
              {| PromptEngine.pc_messages :=
                   PromptEngine.pc_messages ctx ++ [msg label user label];
                 PromptEngine.pc_systemPrompt := PromptEngine.pc_systemPrompt ctx;
                 PromptEngine.pc_metadata := PromptEngine.pc_metadata ctx |}) |}.

(** [{ messages, plugins }] *)
Definition composing (msgs : list Message)
           (ps : list PromptEngine.ChatPlugin) : PromptEngine.PromptEngineConfig :=
  {| PromptEngine.systemPrompt := None;
     PromptEngine.messages := msgs;
     PromptEngine.plugins := Some ps;
     PromptEngine.jsonSchema := None;
     PromptEngine.tools := None |}.

End Sample.

(* ===================================================================== *)
(** * Properties of the context window                                    *)
(* ===================================================================== *)

Section MemoryWindowFacts.

Import MemoryWindow.

Lemma slice_from_last_n {A : Type} (m : Z) (l : list A) :
  0 <= m ->
  Js.slice_from (- m) l
  = if decide (m = 0) then l else drop (length l - Z.to_nat m) l.
Proof.
  intros Hm. unfold Js.slice_from.
  destruct (decide (m = 0)) as [-> | Hne].
  - simpl. rewrite Z.min_l by lia. reflexivity.
  - destruct (Z.ltb_spec (- m) 0) as [_ | Hge]; [| lia].
    f_equal. lia.
Qed.

Lemma slice_from_nonempty {A : Type} (m : Z) (l : list A) :
  0 <= m -> l <> [] -> Js.slice_from (- m) l <> [].
Proof.
  intros Hm Hl. rewrite slice_from_last_n by assumption.
  destruct (decide (m = 0)); [assumption |].
  intros Hnil. apply drop_nil_inv in Hnil.
  destruct l; [congruence | simpl in Hnil; lia].
Qed.

(** Keeping the last [k] of a list that already is the last [k] of an
    older history, extended by new entries, keeps the last [k] of the
    whole history. *)
Lemma last_n_app {A : Type} (k : nat) (a b : list A) :
  let kept := drop (length a - k) a in
  drop (length (kept ++ b) - k) (kept ++ b)
  = drop (length (a ++ b) - k) (a ++ b).
Proof.
  intros kept. subst kept.
  rewrite !length_app, length_drop.
  destruct (le_lt_dec (length a) k) as [Hle | Hlt].
  - replace (length a - k)%nat with 0%nat by lia.
    rewrite drop_0. f_equal. lia.
  - rewrite (drop_app a b).
    rewrite (drop_app (drop _ a) b), drop_drop, length_drop.
    f_equal; f_equal; lia.
Qed.

Lemma trim_messages (w : t) :
  1 <= maxMessages (config w) ->
  messages (trim w) = Js.slice_from (- maxMessages (config w)) (messages w).
Proof.
  intros Hm. unfold trim.
  destruct (Z.ltb_spec (maxMessages (config w)) (Z.of_nat (length (messages w))))
    as [Hlt | Hge]; [reflexivity |].
  rewrite slice_from_last_n by lia.
  destruct (decide _); [reflexivity |].
  replace (length (messages w) - Z.to_nat (maxMessages (config w)))%nat
    with 0%nat by lia.
  reflexivity.
Qed.

Lemma trim_config (w : t) : config (trim w) = config w.
Proof. unfold trim. destruct (_ <? _); reflexivity. Qed.

Lemma apply_append_config (a : Append) (w : t) :
  config (apply_append a w) = config w.
Proof.
  destruct a as [m | ms]; simpl; unfold addMessage, addMessages.
  - exact (trim_config (set_messages (messages w ++ [m]) w)).
  - exact (trim_config (set_messages (messages w ++ ms) w)).
Qed.

Lemma apply_append_messages (a : Append) (w : t) :
  1 <= maxMessages (config w) ->
  messages (apply_append a w)
  = Js.slice_from (- maxMessages (config w)) (messages w ++ appended [a]).
Proof.
  intros Hm.
  destruct a as [m | ms]; simpl; unfold addMessage, addMessages, appended; simpl;
    rewrite ?app_nil_r.
  - exact (trim_messages (set_messages (messages w ++ [m]) w) Hm).
  - exact (trim_messages (set_messages (messages w ++ ms) w) Hm).
Qed.

(** The transcript invariant: it is always the tail of the history. *)
Lemma run_appends_messages (calls : list Append) :
  forall (w : t) (history : list Message),
    1 <= maxMessages (config w) ->
    messages w = Js.slice_from (- maxMessages (config w)) history ->
    config (run_appends calls w) = config w
    /\ messages (run_appends calls w)
       = Js.slice_from (- maxMessages (config w)) (history ++ appended calls).
Proof.
  induction calls as [| a calls IH]; intros w history Hm Hinv.
  - simpl. unfold appended. simpl. rewrite app_nil_r. auto.
  - change (run_appends (a :: calls) w)
      with (run_appends calls (apply_append a w)).
    pose proof (apply_append_config a w) as Hcfg.
    destruct (IH (apply_append a w) (history ++ appended [a])) as [IHc IHm].
    + rewrite Hcfg. exact Hm.
    + rewrite Hcfg, apply_append_messages by exact Hm.
      rewrite Hinv.
      rewrite !slice_from_last_n by lia.
      destruct (decide _); [lia |].
      apply last_n_app.
    + split; [congruence |].
      rewrite IHm, Hcfg. f_equal.
      rewrite <- app_assoc. f_equal.
      unfold appended. simpl. rewrite app_nil_r. reflexivity.
Qed.

Lemma dedup_head (seen : gset string) (m : Message) (ms : list Message) :
  id m ∉ seen -> dedup seen (m :: ms) = m :: dedup ({[ id m ]} ∪ seen) ms.
Proof. intros Hn. simpl. destruct (decide _); [contradiction | reflexivity]. Qed.

Lemma dedup_nonempty (ms : list Message) : ms <> [] -> dedup ∅ ms <> [].
Proof.
  destruct ms as [| m ms]; [congruence |].
  intros _. rewrite dedup_head by set_solver. discriminate.
Qed.

Lemma candidates_nonempty (w : t) :
  0 <= maxMessages (config w) -> messages w <> [] -> candidates w <> [].
Proof.
  intros Hm Hne. unfold candidates. apply dedup_nonempty.
  intros Hnil. apply app_eq_nil in Hnil as [_ Hnil].
  exact (slice_from_nonempty _ _ Hm Hne Hnil).
Qed.

Lemma slice_from_last {A : Type} (l : list A) (x : A) :
  last l = Some x -> Js.slice_from (-1) l = [x].
Proof.
  intros Hl. apply last_Some in Hl as [l' ->].
  rewrite (slice_from_last_n 1) by lia.
  destruct (decide _); [lia |].
  rewrite length_app. simpl.
  replace (length l' + 1 - Z.to_nat 1)%nat with (length l') by lia.
  apply drop_app_length.
Qed.

Lemma trimByTokens_fallback (w : t) (msgs : list Message) (m : Message) :
  0 < maxTokens (config w) ->
  token_walk w msgs = [] ->
  last msgs = Some m ->
  trimByTokens w msgs = [m].
Proof.
  intros Hb Hwalk Hlast. unfold trimByTokens.
  destruct (Z.leb_spec (maxTokens (config w)) 0); [lia |].
  rewrite Hwalk. simpl. apply slice_from_last, Hlast.
Qed.

Lemma trimByTokens_nonempty (w : t) (msgs : list Message) :
  msgs <> [] -> trimByTokens w msgs <> [].
Proof.
  intros Hne. unfold trimByTokens.
  destruct (_ <=? _); [assumption |].
  destruct (token_walk w msgs) as [| r rs] eqn:Hwalk; simpl; [| discriminate].
  destruct (last msgs) as [m |] eqn:Hlast.
  - rewrite (slice_from_last _ _ Hlast). discriminate.
  - apply last_None in Hlast. contradiction.
Qed.

End MemoryWindowFacts.

(** C3 as stated does not hold: the claim says that [all()] returns every
    appended message, so that its length is the number of appends.  With the
    default configuration (ceiling 50) and 51 appends, [getAllMessages]
    returns 50 messages: [trim] has dropped the oldest one. *)
Lemma C3_all_drops_beyond_ceiling :
  let calls := repeat (MemoryWindow.append (Sample.msg "m" user "hi")) 51 in
  let w := MemoryWindow.run_appends calls (MemoryWindow.new MemoryWindow.empty_config) in
  length (MemoryWindow.appended calls) = 51%nat
  /\ length (MemoryWindow.getAllMessages w) = 50%nat
  /\ MemoryWindow.getAllMessages w <> MemoryWindow.appended calls.
Proof.
  vm_compute. repeat split; try reflexivity.
  intros H. apply (f_equal (@length Message)) in H. vm_compute in H. discriminate.
Qed.

(** C3, amended: for a ceiling [maxMessages >= 1] and every sequence of
    [append]/[appendMany] calls on a fresh window, [all()] is the run of
    the most recent [maxMessages] appended messages, in insertion order and
    without deduplication; its length is the smaller of the number of
    appended messages and the ceiling, and as long as the ceiling is not
    exceeded it is exactly the list of appended messages. *)
Theorem C3_all_is_recent_tail (cfg : MemoryConfig) (calls : list MemoryWindow.Append) :
  let w := MemoryWindow.run_appends calls (MemoryWindow.new cfg) in
  let n := maxMessages (MemoryWindow.config (MemoryWindow.new cfg)) in
  let history := MemoryWindow.appended calls in
  1 <= n ->
  MemoryWindow.getAllMessages w = drop (length history - Z.to_nat n) history
  /\ length (MemoryWindow.getAllMessages w) = Nat.min (length history) (Z.to_nat n)
  /\ (Z.of_nat (length history) <= n -> MemoryWindow.getAllMessages w = history).
Proof.
  intros w n history Hn.
  assert (Hall : MemoryWindow.getAllMessages w
                 = drop (length history - Z.to_nat n) history).
  { destruct (run_appends_messages calls (MemoryWindow.new cfg) []) as [_ Hm].
    - exact Hn.
    - unfold Js.slice_from. rewrite drop_nil. reflexivity.
    - unfold MemoryWindow.getAllMessages. subst w. rewrite Hm. simpl app.
      fold n. fold history. rewrite slice_from_last_n by lia.
      destruct (decide _); [lia | reflexivity]. }
  split; [exact Hall |]. split.
  - rewrite Hall, length_drop. lia.
  - intros Hle. rewrite Hall.
    replace (length history - Z.to_nat n)%nat with 0%nat by lia.
    apply drop_0.
Qed.

Lemma C3_all_is_recent_tail_witness :
  let a := Sample.msg "a" user "one" in
  let b := Sample.msg "b" assistant "two" in
  let calls := [MemoryWindow.append a; MemoryWindow.appendMany [b; a]] in
  let w := MemoryWindow.run_appends calls
             (MemoryWindow.new (Sample.limits (Some 2) None)) in
  MemoryWindow.getAllMessages w = [b; a]
  /\ length (MemoryWindow.getAllMessages w) = 2%nat.
Proof.
  intros a b calls w.
  destruct (C3_all_is_recent_tail (Sample.limits (Some 2) None) calls)
    as (Hall & Hlen & _).
  - simpl. lia.
  - split; [exact Hall | exact Hlen].
Defined.

(** C4, the failing input: with a token budget of 2, one pinned message and
    one transcript message of eight characters each, [getContext] returns
    the transcript message alone.  The newest-first walk of [trimByTokens]
    reaches the pinned message last and stops there, so the pinned message
    is absent from the sendable subset. *)
Theorem C4_pinned_dropped_by_token_budget :
  let p := Sample.msg "p" user "pinned!!" in
  let m := Sample.msg "m" user "recent!!" in
  let w := MemoryWindow.pinMessages [p]
             (MemoryWindow.addMessage m
                (MemoryWindow.new (Sample.limits None (Some 2)))) in
  p ∈ MemoryWindow.pinnedMessages w
  /\ MemoryWindow.ctx_messages (MemoryWindow.getContext w) = [m]
  /\ p ∉ MemoryWindow.ctx_messages (MemoryWindow.getContext w).
Proof.
  intros p m w. split; [| split].
  - subst w. simpl. set_solver.
  - vm_compute. reflexivity.
  - replace (MemoryWindow.ctx_messages (MemoryWindow.getContext w)) with [m]
      by (vm_compute; reflexivity).
    intros Hin. apply list_elem_of_singleton in Hin.
    apply (f_equal id) in Hin. vm_compute in Hin. discriminate.
Qed.

(** C5 as stated does not hold for every window: the constructor accepts
    a negative [maxMessages], and then [slice(-maxMessages)] drops entries
    from the front.  With [maxMessages = -1], [addMessages] of two
    messages leaves the second one in the transcript, and [getContext]
    returns an empty message list although the transcript is not empty. *)
Lemma C5_negative_ceiling_empties_context :
  let a := Sample.msg "a" user "first" in
  let b := Sample.msg "b" user "second" in
  let w := MemoryWindow.addMessages [a; b]
             (MemoryWindow.new (Sample.limits (Some (-1)) None)) in
  MemoryWindow.getAllMessages w = [b]
  /\ MemoryWindow.ctx_messages (MemoryWindow.getContext w) = [].
Proof. vm_compute. split; reflexivity. Qed.

(** C5, amended: for a window whose [maxMessages] is not negative and
    whose transcript is not empty, the message list of [getContext] is
    non-empty whatever the token budget is; and when the budget is active
    and the token walk keeps nothing, the result is exactly the most
    recent candidate. *)
Theorem C5_sendable_subset_nonempty (w : MemoryWindow.t) :
  MemoryWindow.messages w <> [] ->
  0 <= maxMessages (MemoryWindow.config w) ->
  MemoryWindow.ctx_messages (MemoryWindow.getContext w) <> []
  /\ (0 < maxTokens (MemoryWindow.config w) ->
      MemoryWindow.token_walk w (MemoryWindow.candidates w) = [] ->
      exists newest,
        last (MemoryWindow.candidates w) = Some newest
        /\ MemoryWindow.ctx_messages (MemoryWindow.getContext w) = [newest]).
Proof.
  intros Hne Hm.
  pose proof (candidates_nonempty w Hm Hne) as Hc.
  split.
  - unfold MemoryWindow.getContext. simpl.
    destruct (0 <? _); [apply trimByTokens_nonempty |]; exact Hc.
  - intros Hb Hwalk.
    destruct (last (MemoryWindow.candidates w)) as [newest |] eqn:Hlast.
    + exists newest. split; [reflexivity |].
      unfold MemoryWindow.getContext. simpl.
      destruct (Z.ltb_spec 0 (maxTokens (MemoryWindow.config w))); [| lia].
      apply trimByTokens_fallback; assumption.
    + apply last_None in Hlast. contradiction.
Qed.

Lemma C5_sendable_subset_nonempty_witness :
  let big := Sample.msg "m1" user "a message far larger than the budget" in
  let w := MemoryWindow.addMessage big
             (MemoryWindow.new (Sample.limits None (Some 1))) in
  MemoryWindow.ctx_messages (MemoryWindow.getContext w) <> []
  /\ MemoryWindow.ctx_messages (MemoryWindow.getContext w) = [big].
Proof.
  intros big w.
  destruct (C5_sendable_subset_nonempty w) as [Hne Hfall].
  - vm_compute. discriminate.
  - vm_compute. discriminate.
  - split; [exact Hne |].
    destruct Hfall as (newest & Hlast & Hctx).
    + vm_compute. reflexivity.
    + vm_compute. reflexivity.
    + rewrite Hctx. vm_compute in Hlast. injection Hlast as <-. reflexivity.
Defined.

(** C7 as stated does not hold for every pair of prompts: with the lock
    enabled (the default), a first call with the empty string followed by
    a call with ["B"] leaves ["B"] stored, not the first value. *)
Lemma C7_empty_first_prompt_is_overwritten :
  let w := MemoryWindow.new (Sample.lock true) in
  systemPromptLocked (MemoryWindow.config w) = true
  /\ MemoryWindow.systemPrompt
       (MemoryWindow.setSystemPrompt "B" (MemoryWindow.setSystemPrompt "" w))
     = Some "B"
  /\ MemoryWindow.systemPrompt
       (MemoryWindow.setSystemPrompt "B" (MemoryWindow.setSystemPrompt "" w))
     <> Some "".
Proof. vm_compute. repeat split; try reflexivity. discriminate. Qed.

(** C7, amended: on a fresh window, two calls of [setSystemPrompt] with
    the lock enabled keep the first value provided the first value is not
    the empty string; with the lock disabled the second call wins, for
    every pair of prompts. *)
Theorem C7_first_write_wins_when_locked (cfg : MemoryConfig) (p1 p2 : string) :
  let w := MemoryWindow.new cfg in
  let locked := systemPromptLocked (MemoryWindow.config w) in
  (locked = true -> p1 <> "") ->
  MemoryWindow.systemPrompt
    (MemoryWindow.setSystemPrompt p2 (MemoryWindow.setSystemPrompt p1 w))
  = Some (if locked then p1 else p2).
Proof.
  intros w locked Hp1. subst locked.
  unfold MemoryWindow.setSystemPrompt at 2. simpl MemoryWindow.systemPrompt at 2.
  simpl Js.truthy_opt_string. rewrite orb_true_r.
  unfold MemoryWindow.setSystemPrompt. simpl.
  destruct (default true (cfg_systemPromptLocked cfg)) eqn:Hlock; simpl.
  - unfold Js.truthy_string. destruct (decide (p1 = "")) as [He | _].
    + exfalso. apply Hp1; [| exact He]. exact Hlock.
    + reflexivity.
  - reflexivity.
Qed.

Lemma C7_first_write_wins_when_locked_witness :
  MemoryWindow.systemPrompt
    (MemoryWindow.setSystemPrompt "second"
       (MemoryWindow.setSystemPrompt "first" (MemoryWindow.new (Sample.lock true))))
  = Some "first"
  /\ MemoryWindow.systemPrompt
       (MemoryWindow.setSystemPrompt "second"
          (MemoryWindow.setSystemPrompt "" (MemoryWindow.new (Sample.lock false))))
     = Some "second".
Proof.
  split.
  - apply (C7_first_write_wins_when_locked (Sample.lock true) "first" "second").
    intros _. discriminate.
  - apply (C7_first_write_wins_when_locked (Sample.lock false) "" "second").
    simpl. discriminate.
Defined.

(** C10: a first [setSystemPrompt("")] stores the empty string without
    engaging the lock: whatever the configuration (lock enabled included),
    the next call overwrites the prompt; and for any window whose stored
    prompt is the empty string, [getContext] has no [systemPrompt] field. *)
Theorem C10_empty_prompt_does_not_lock (cfg : MemoryConfig) (p : string) :
  let w1 := MemoryWindow.setSystemPrompt "" (MemoryWindow.new cfg) in
  MemoryWindow.systemPrompt w1 = Some ""
  /\ MemoryWindow.systemPrompt (MemoryWindow.setSystemPrompt p w1) = Some p
  /\ MemoryWindow.ctx_systemPrompt (MemoryWindow.getContext w1) = None
  /\ forall w : MemoryWindow.t,
       MemoryWindow.ctx_systemPrompt
         (MemoryWindow.getContext (MemoryWindow.set_prompt (Some "") w)) = None
       /\ MemoryWindow.systemPrompt
            (MemoryWindow.setSystemPrompt p (MemoryWindow.set_prompt (Some "") w))
          = Some p.
Proof.
  intros w1.
  assert (Hw1 : w1 = MemoryWindow.set_prompt (Some "") (MemoryWindow.new cfg)).
  { subst w1. unfold MemoryWindow.setSystemPrompt. simpl.
    rewrite orb_true_r. reflexivity. }
  assert (Hgen : forall w : MemoryWindow.t,
     MemoryWindow.ctx_systemPrompt
       (MemoryWindow.getContext (MemoryWindow.set_prompt (Some "") w)) = None
     /\ MemoryWindow.systemPrompt
          (MemoryWindow.setSystemPrompt p (MemoryWindow.set_prompt (Some "") w))
        = Some p).
  { intros w. split; [reflexivity |].
    unfold MemoryWindow.setSystemPrompt. simpl. rewrite orb_true_r. reflexivity. }
  rewrite Hw1. split; [reflexivity |].
  destruct (Hgen (MemoryWindow.new cfg)) as [Hctx Hset].
  split; [exact Hset |]. split; [exact Hctx | exact Hgen].
Qed.

(* ===================================================================== *)
(** * Properties of the prompt composer                                   *)
(* ===================================================================== *)

Section PromptEngineFacts.

Import PromptEngine.

Lemma string_app_assoc (a b c : string) : (a +:+ b) +:+ c = a +:+ (b +:+ c).
Proof.
  induction a as [| x a IH]; [reflexivity |].
  change (String x ((a +:+ b) +:+ c) = String x (a +:+ (b +:+ c))).
  f_equal. exact IH.
Qed.

Lemma string_app_empty_r (a : string) : a +:+ "" = a.
Proof.
  induction a as [| x a IH]; [reflexivity |].
  change (String x (a +:+ "") = String x a). f_equal. exact IH.
Qed.

Lemma with_content_same (m : Message) : with_content (content m) m = m.
Proof. destruct m; reflexivity. Qed.

(** [applyPlugin] never hands back [null] or [undefined]. *)
Lemma applyPlugin_is_object (h : Hook) (c : PluginContext) :
  exists c', applyPlugin h c = obj c'.
Proof.
  unfold applyPlugin.
  destruct (completion (h c)) as [[| r] |]; simpl; eauto.
Qed.

Lemma run_hooks_resolves (ps : list ChatPlugin) :
  forall c : PluginContext, exists msgs, run_hooks ps (obj c) = resolved msgs.
Proof.
  induction ps as [| p ps IH]; intros c; simpl.
  - eauto.
  - destruct (beforeSend p) as [h |]; [| apply IH].
    destruct (applyPlugin_is_object h c) as [c' ->]. apply IH.
Qed.

Lemma compose_resolves (t_id t_stamp : Z) (config : PromptEngineConfig) :
  exists msgs, compose t_id t_stamp config = resolved msgs.
Proof.
  unfold compose.
  destruct (plugins config) as [ps |]; [| eauto].
  destruct (0 <? length ps)%nat; [apply run_hooks_resolves | eauto].
Qed.

Lemma gathered_truthy (sys : list Message) :
  sys <> [] -> Js.truthy_string (gathered sys) = true.
Proof.
  destruct sys as [| m sys]; [congruence |]. intros _.
  unfold Js.truthy_string. destruct (decide _) as [He | _]; [| reflexivity].
  exfalso. simpl in He. destruct (content m); simpl in He; discriminate.
Qed.

(** Once an entry has been emitted, the loop copies the non-system
    messages and nothing else. *)
Lemma claude_loop_after_first (msgs : list Message) :
  forall (formatted : list Message) (sc : string),
    formatted <> [] ->
    claude_loop msgs formatted sc
    = formatted ++ filter (fun m => role m <> system) msgs.
Proof.
  induction msgs as [| m msgs IH]; intros formatted sc Hne; simpl.
  - now rewrite app_nil_r.
  - destruct (decide (role m = system)) as [Hs | Hs].
    + rewrite filter_cons_False by (intros Hn; contradiction).
      now apply IH.
    + rewrite filter_cons_True by assumption.
      replace (length formatted =? 0)%nat with false
        by (destruct formatted; [congruence | reflexivity]).
      rewrite andb_false_r, IH by (destruct formatted; discriminate).
      now rewrite <- app_assoc.
Qed.

Lemma claude_loop_leading_system (sys : list Message) :
  forall (rest : list Message) (sc : string),
    Forall (fun m => role m = system) sys ->
    claude_loop (sys ++ rest) [] sc = claude_loop rest [] (sc +:+ gathered sys).
Proof.
  induction sys as [| m sys IH]; intros rest sc Hsys; simpl.
  - now rewrite string_app_empty_r.
  - apply Forall_cons in Hsys as [Hm Hsys].
    destruct (decide (role m = system)); [| contradiction].
    rewrite IH by assumption. now rewrite string_app_assoc.
Qed.

Lemma formatForClaude_shape (sys : list Message) (first : Message)
      (rest : list Message) :
  Forall (fun m => role m = system) sys ->
  role first <> system ->
  formatForClaude (sys ++ first :: rest)
  = with_content (gathered sys +:+ content first) first
      :: filter (fun m => role m <> system) rest.
Proof.
  intros Hsys Hfirst. unfold formatForClaude.
  rewrite claude_loop_leading_system by assumption.
  change ("" +:+ gathered sys) with (gathered sys).
  assert (Hloop : claude_loop (first :: rest) [] (gathered sys)
                  = with_content (gathered sys +:+ content first) first
                      :: filter (fun m => role m <> system) rest).
  { cbn [claude_loop].
    destruct (decide (role first = system)); [contradiction |].
    destruct sys as [| s0 sys'].
    - change (gathered []) with "".
      change ("" +:+ content first) with (content first).
      rewrite with_content_same.
      change (Js.truthy_string "" && (length (@nil Message) =? 0)%nat)
        with false.
      cbv iota. now rewrite claude_loop_after_first by discriminate.
    - rewrite gathered_truthy by discriminate.
      change (true && (length (@nil Message) =? 0)%nat) with true.
      cbv iota. now rewrite claude_loop_after_first by discriminate. }
  rewrite Hloop. reflexivity.
Qed.

Lemma formatForClaude_only_system (msgs : list Message) :
  Forall (fun m => role m = system) msgs -> formatForClaude msgs = msgs.
Proof.
  intros Hsys. unfold formatForClaude.
  rewrite <- (app_nil_r msgs) at 1.
  rewrite claude_loop_leading_system by assumption. reflexivity.
Qed.

End PromptEngineFacts.

(** C6 as stated does not hold on every input: when no non-system
    message exists, the transform returns its input.  Two system messages
    stay two entries with the system role; they are neither dropped nor
    joined into one standalone entry. *)
Lemma C6_all_system_input_is_returned_unchanged :
  let x := Sample.msg "s" system "X" in
  let y := Sample.msg "t" system "Y" in
  PromptEngine.formatForProvider [x; y] "claude" = [x; y]
  /\ ~ Forall (fun m => role m <> system)
        (PromptEngine.formatForProvider [x; y] "claude")
  /\ (forall entry : Message,
        PromptEngine.formatForProvider [x; y] "claude" <> [entry]).
Proof.
  vm_compute. split; [reflexivity |]. split.
  - intros H. inversion H as [| ? ? Hx _]. now apply Hx.
  - intros entry. discriminate.
Qed.

(** C6, amended: for the vendor ["claude"], when the system messages of
    the input all come before its first non-system message, the contents
    of the system messages, each followed by a blank line, are joined in
    order and put in front of the content of the first non-system message,
    and the output is the non-system messages in their order, with no
    system entry.  When the input holds no non-system message, it is
    returned unchanged.  In particular [{system,"X"}, {user,"hi"}] yields
    the single message [{user, "X\n\nhi"}]. *)
Theorem C6_system_prefix_merged_into_first (sys : list Message)
        (first : Message) (rest : list Message) :
  Forall (fun m => role m = system) sys ->
  role first <> system ->
  Forall (fun m => role m <> system) rest ->
  PromptEngine.formatForProvider (sys ++ first :: rest) "claude"
  = with_content (PromptEngine.gathered sys +:+ content first) first :: rest
  /\ Forall (fun m => role m <> system)
            (PromptEngine.formatForProvider (sys ++ first :: rest) "claude")
  /\ PromptEngine.formatForProvider sys "claude" = sys
  /\ (forall i j : string,
        PromptEngine.formatForProvider
          [Sample.msg i system "X"; Sample.msg j user "hi"] "claude"
        = [Sample.msg j user ("X" +:+ Js.nl2 +:+ "hi")]).
Proof.
  intros Hsys Hfirst Hrest.
  assert (Hkeep : filter (fun m => role m <> system) rest = rest).
  { clear -Hrest. induction Hrest as [| m rest Hm _ IH]; [reflexivity |].
    rewrite filter_cons_True by exact Hm. now rewrite IH. }
  unfold PromptEngine.formatForProvider.
  destruct (decide ("claude" = "claude")); [| congruence].
  rewrite formatForClaude_shape by assumption. rewrite Hkeep.
  split; [reflexivity |]. split; [| split].
  - apply Forall_cons. split; [exact Hfirst | exact Hrest].
  - now apply formatForClaude_only_system.
  - intros i j. reflexivity.
Qed.

Lemma C6_system_prefix_merged_into_first_witness :
  PromptEngine.formatForProvider
    ([Sample.msg "s1" system "A"; Sample.msg "s2" system "B"]
       ++ Sample.msg "u" user "hi"
       :: [Sample.msg "a" assistant "yo"; Sample.msg "v" user "more"])
    "claude"
  = [Sample.msg "u" user ("A" +:+ Js.nl2 +:+ "B" +:+ Js.nl2 +:+ "hi");
     Sample.msg "a" assistant "yo"; Sample.msg "v" user "more"].
Proof.
  destruct (C6_system_prefix_merged_into_first
              [Sample.msg "s1" system "A"; Sample.msg "s2" system "B"]
              (Sample.msg "u" user "hi")
              [Sample.msg "a" assistant "yo"; Sample.msg "v" user "more"])
    as [Heq _].
  - repeat constructor.
  - discriminate.
  - repeat constructor; discriminate.
  - rewrite Heq. vm_compute. reflexivity.
Defined.

Section HookChainFacts.

Import PromptEngine.

Lemma hooks_context_object (ps : list ChatPlugin) :
  forall c : PluginContext, exists c', hooks_context ps (obj c) = obj c'.
Proof.
  induction ps as [| p ps IH]; intros c; simpl; [eauto |].
  destruct (beforeSend p) as [h |]; [| apply IH].
  destruct (applyPlugin_is_object h c) as [c1 ->]. apply IH.
Qed.

Lemma hooks_context_app (ps qs : list ChatPlugin) :
  forall pc : JsRef PluginContext,
    hooks_context (ps ++ qs) pc = hooks_context qs (hooks_context ps pc).
Proof.
  induction ps as [| p ps IH]; intros pc; [reflexivity |].
  cbn [app hooks_context]. destruct (beforeSend p) as [h |]; [| apply IH].
  destruct pc as [| c]; [| apply IH].
  clear. induction qs as [| q qs IHq]; [reflexivity |].
  simpl. now destruct (beforeSend q).
Qed.

Lemma run_hooks_app (ps qs : list ChatPlugin) :
  forall c : PluginContext,
    run_hooks (ps ++ qs) (obj c) = run_hooks qs (hooks_context ps (obj c)).
Proof.
  induction ps as [| p ps IH]; intros c; [reflexivity |].
  cbn [app run_hooks hooks_context].
  destruct (beforeSend p) as [h |]; [| apply IH].
  destruct (applyPlugin_is_object h c) as [c1 ->]. apply IH.
Qed.

Lemma run_hooks_final (ps : list ChatPlugin) (c c' : PluginContext) :
  hooks_context ps (obj c) = obj c' ->
  run_hooks ps (obj c) = resolved (pc_messages c').
Proof.
  intros Hc. rewrite <- (app_nil_r ps), run_hooks_app, Hc. reflexivity.
Qed.

Lemma compose_final (t_id t_stamp : Z) (config : PromptEngineConfig)
      (c' : PluginContext) :
  hooks_context (default [] (plugins config))
    (obj (pluginContext t_id t_stamp config)) = obj c' ->
  compose t_id t_stamp config = resolved (pc_messages c').
Proof.
  intros Hc. unfold compose. fold (pluginContext t_id t_stamp config).
  destruct (plugins config) as [ps |]; simpl in Hc.
  - destruct ps as [| p ps].
    + simpl in *. now injection Hc as <-.
    + change (0 <? length (p :: ps))%nat with true. cbv iota.
      now apply run_hooks_final.
  - now injection Hc as <-.
Qed.

End HookChainFacts.

(** C9 as stated does not hold for every hook: the context is handed to
    the hook by reference, and a hook that pushes a message onto it and
    returns nothing has changed it.  Composition then continues with the
    context as the hook left it, not as it was before the hook: the
    pushed message is in the list that [compose] returns. *)
Lemma C9_hook_may_change_context_in_place :
  let u := Sample.msg "u" user "hi" in
  let ctx := Sample.context [u] in
  let pushing := Sample.plugin "pushing" Sample.pushing_hook in
  PromptEngine.completion (Sample.pushing_hook ctx)
  = PromptEngine.returned PromptEngine.nullish
  /\ PromptEngine.applyPlugin Sample.pushing_hook ctx <> PromptEngine.obj ctx
  /\ PromptEngine.compose 1 2 (Sample.composing [u] [pushing])
     = PromptEngine.resolved [u; Sample.msg "pushed" user "pushed"]
  /\ PromptEngine.compose 1 2 (Sample.composing [u] [pushing])
     <> PromptEngine.compose 1 2 (Sample.composing [u] []).
Proof.
  vm_compute. repeat split; try reflexivity; discriminate.
Qed.

(** C9, amended: when a [beforeSend] hook, wherever it stands in the
    chain, completes with [null] or [undefined], composition continues
    with the very context object that was handed to that hook, in the
    state in which the hook left it; for a hook that did not modify it, the
    chain runs as if the plugin were absent.  Whatever the hooks return or
    throw, the context handed on is never [null] or [undefined], and
    [compose] resolves to the messages of the context that the last hook
    leaves. *)
Theorem C9_nullish_hook_result_keeps_context
        (before rest : list PromptEngine.ChatPlugin)
        (plugin : PromptEngine.ChatPlugin) (hook : PromptEngine.Hook)
        (c c1 : PromptEngine.PluginContext) :
  PromptEngine.beforeSend plugin = Some hook ->
  PromptEngine.hooks_context before (PromptEngine.obj c) = PromptEngine.obj c1 ->
  PromptEngine.completion (hook c1) = PromptEngine.returned PromptEngine.nullish ->
  PromptEngine.applyPlugin hook c1
  = PromptEngine.obj (PromptEngine.arg_after (hook c1))
  /\ PromptEngine.hooks_context (before ++ [plugin]) (PromptEngine.obj c)
     = PromptEngine.obj (PromptEngine.arg_after (hook c1))
  /\ PromptEngine.run_hooks (before ++ plugin :: rest) (PromptEngine.obj c)
     = PromptEngine.run_hooks rest
         (PromptEngine.obj (PromptEngine.arg_after (hook c1)))
  /\ (PromptEngine.arg_after (hook c1) = c1 ->
      PromptEngine.run_hooks (before ++ plugin :: rest) (PromptEngine.obj c)
      = PromptEngine.run_hooks (before ++ rest) (PromptEngine.obj c))
  /\ (forall (t_id t_stamp : Z) (config : PromptEngine.PromptEngineConfig),
        PromptEngine.plugins config = Some (before ++ plugin :: rest) ->
        PromptEngine.pluginContext t_id t_stamp config = c ->
        PromptEngine.compose t_id t_stamp config
        = PromptEngine.run_hooks rest
            (PromptEngine.obj (PromptEngine.arg_after (hook c1))))
  /\ (forall (ps : list PromptEngine.ChatPlugin) (c0 : PromptEngine.PluginContext),
        exists c',
          PromptEngine.hooks_context ps (PromptEngine.obj c0) = PromptEngine.obj c'
          /\ PromptEngine.run_hooks ps (PromptEngine.obj c0)
             = PromptEngine.resolved (PromptEngine.pc_messages c'))
  /\ (forall (t_id t_stamp : Z) (config : PromptEngine.PromptEngineConfig),
        exists c',
          PromptEngine.hooks_context
            (default [] (PromptEngine.plugins config))
            (PromptEngine.obj (PromptEngine.pluginContext t_id t_stamp config))
          = PromptEngine.obj c'
          /\ PromptEngine.compose t_id t_stamp config
             = PromptEngine.resolved (PromptEngine.pc_messages c')).
Proof.
  intros Hhook Hbefore Hnull.
  assert (Happly : PromptEngine.applyPlugin hook c1
                   = PromptEngine.obj (PromptEngine.arg_after (hook c1))).
  { unfold PromptEngine.applyPlugin. rewrite Hnull. reflexivity. }
  assert (Hchain :
    PromptEngine.run_hooks (before ++ plugin :: rest) (PromptEngine.obj c)
    = PromptEngine.run_hooks rest
        (PromptEngine.obj (PromptEngine.arg_after (hook c1)))).
  { rewrite run_hooks_app, Hbefore. simpl. now rewrite Hhook, Happly. }
  split; [exact Happly |]. split; [| split; [exact Hchain |]].
  { rewrite hooks_context_app, Hbefore. simpl. now rewrite Hhook. }
  split; [| split; [| split]].
  - intros Hsame. rewrite Hchain, Hsame, run_hooks_app, Hbefore. reflexivity.
  - intros t_id t_stamp config Hps Hctx. rewrite <- Hchain, <- Hctx.
    unfold PromptEngine.compose.
    fold (PromptEngine.pluginContext t_id t_stamp config). rewrite Hps.
    destruct before; reflexivity.
  - intros ps c0. destruct (hooks_context_object ps c0) as [c' Hc'].
    exists c'. split; [exact Hc' | now apply run_hooks_final].
  - intros t_id t_stamp config.
    destruct (hooks_context_object
                (default [] (PromptEngine.plugins config))
                (PromptEngine.pluginContext t_id t_stamp config)) as [c' Hc'].
    exists c'. split; [exact Hc' | now apply compose_final].
Qed.

Lemma C9_nullish_hook_result_keeps_context_witness :
  let u := Sample.msg "u" user "hi" in
  let first := Sample.plugin "first" (Sample.labelling_hook "first") in
  let silent := Sample.plugin "silent" Sample.silent_hook in
  let pushing := Sample.plugin "pushing" Sample.pushing_hook in
  let last_one := Sample.plugin "last" (Sample.labelling_hook "last") in
  PromptEngine.compose 1 2 (Sample.composing [u] [first; silent; last_one])
  = PromptEngine.resolved
      [u; Sample.msg "first" user "first"; Sample.msg "last" user "last"]
  /\ PromptEngine.compose 1 2 (Sample.composing [u] [first; pushing; last_one])
     = PromptEngine.resolved
         [u; Sample.msg "first" user "first"; Sample.msg "pushed" user "pushed";
          Sample.msg "last" user "last"].
Proof.
  intros u first silent pushing last_one.
  set (c := PromptEngine.pluginContext 1 2
              (Sample.composing [u] [first; silent; last_one])).
  set (c1 := Sample.context [u; Sample.msg "first" user "first"]).
  split.
  - destruct (C9_nullish_hook_result_keeps_context
                [first] [last_one] silent Sample.silent_hook c c1
                eq_refl eq_refl eq_refl)
      as (_ & _ & _ & _ & Hcompose & _).
    rewrite (Hcompose 1 2 (Sample.composing [u] [first; silent; last_one]));
      reflexivity.
  - destruct (C9_nullish_hook_result_keeps_context
                [first] [last_one] pushing Sample.pushing_hook
                (PromptEngine.pluginContext 1 2
                   (Sample.composing [u] [first; pushing; last_one]))
                c1 eq_refl eq_refl eq_refl)
      as (_ & _ & _ & _ & Hcompose & _).
    rewrite (Hcompose 1 2 (Sample.composing [u] [first; pushing; last_one]));
      reflexivity.
Defined.

(* ===================================================================== *)
(** * Properties of the Anthropic-style adapter                           *)
(* ===================================================================== *)

Section ClaudeProviderFacts.

Import ClaudeProvider.

Lemma to_wire_role (m : Message) :
  w_role (to_wire m) = "user" \/ w_role (to_wire m) = "assistant".
Proof.
  unfold to_wire.
  destruct (bool_decide (role m = system)); simpl; [now left |].
  destruct (bool_decide (role m = assistant)); simpl; [now right | now left].
Qed.

Lemma formatMessages_no_system_role (msgs : list Message) :
  Forall (fun m => w_role m <> "system") (formatMessages msgs).
Proof.
  unfold formatMessages. apply Forall_forall. intros wm Hin.
  apply list_elem_of_In, in_map_iff in Hin as (m & <- & _).
  destruct (to_wire_role m) as [-> | ->]; discriminate.
Qed.

Lemma find_none_when_all_fail {A : Type} (f : A -> bool) (l : list A) :
  Forall (fun x => f x = false) l -> List.find f l = None.
Proof.
  induction 1 as [| x l Hx _ IH]; simpl; [reflexivity |]. now rewrite Hx.
Qed.

Lemma filter_all_when_all_pass {A : Type} (f : A -> bool) (l : list A) :
  Forall (fun x => f x = true) l -> List.filter f l = l.
Proof.
  induction 1 as [| x l Hx _ IH]; simpl; [reflexivity |].
  rewrite Hx. now f_equal.
Qed.

(** The body never carries a [system] field, and its [messages] are all
    the formatted messages. *)
Lemma request_body_shape (streaming : bool) (msgs : list Message)
      (config : ProviderConfig) :
  b_system (request_body streaming msgs config) = None
  /\ b_messages (request_body streaming msgs config) = formatMessages msgs.
Proof.
  pose proof (formatMessages_no_system_role msgs) as Hno.
  unfold request_body. simpl. split.
  - rewrite find_none_when_all_fail; [reflexivity |].
    eapply Forall_impl; [exact Hno |]. intros wm Hwm.
    apply bool_decide_eq_false. exact Hwm.
  - apply filter_all_when_all_pass.
    eapply Forall_impl; [exact Hno |]. intros wm Hwm.
    apply negb_true_iff, bool_decide_eq_false. exact Hwm.
Qed.

End ClaudeProviderFacts.

(** C1, the failing input: for the list [{system,"Be brief."}, {user,"hi"}]
    the body built by [stream] and by [chat] has no [system] field, and its
    [messages] array starts with an entry made from the system message
    (role ["user"], the same content).  This is so on every input: no body
    ever has a [system] field, and every system message is kept in
    [messages] under the role ["user"]. *)
Theorem C1_system_message_stays_in_messages :
  (forall (streaming : bool) (config : ClaudeProvider.ProviderConfig),
     let input := [Sample.msg "s" system "Be brief."; Sample.msg "u" user "hi"] in
     let body := ClaudeProvider.request_body streaming input config in
     ClaudeProvider.b_system body = None
     /\ ClaudeProvider.b_messages body
        = [ {| ClaudeProvider.w_role := "user";
               ClaudeProvider.w_content := "Be brief." |};
            {| ClaudeProvider.w_role := "user";
               ClaudeProvider.w_content := "hi" |} ])
  /\ (forall (streaming : bool) (msgs : list Message)
             (config : ClaudeProvider.ProviderConfig) (m : Message),
        let body := ClaudeProvider.request_body streaming msgs config in
        ClaudeProvider.b_system body = None
        /\ (m ∈ msgs -> role m = system ->
            {| ClaudeProvider.w_role := "user";
               ClaudeProvider.w_content := content m |}
            ∈ ClaudeProvider.b_messages body)).
Proof.
  split.
  - intros streaming config input body. subst body.
    destruct (request_body_shape streaming input config) as [Hsys Hmsgs].
    split; [exact Hsys |]. rewrite Hmsgs. reflexivity.
  - intros streaming msgs config m body. subst body.
    destruct (request_body_shape streaming msgs config) as [Hsys Hmsgs].
    split; [exact Hsys |]. intros Hin Hrole. rewrite Hmsgs.
    unfold ClaudeProvider.formatMessages.
    apply list_elem_of_In, in_map_iff. exists m. split.
    + unfold ClaudeProvider.to_wire.
      rewrite bool_decide_eq_true_2 by exact Hrole. reflexivity.
    + apply filter_In. split; [now apply list_elem_of_In |].
      unfold ClaudeProvider.keep. rewrite Hrole. reflexivity.
Qed.

(* ===================================================================== *)
(** * Properties of the stream accumulator                                *)
(* ===================================================================== *)

Section StreamingEngineFacts.

Import StreamingEngine.

Lemma apply_chunk_controller (chunk : StreamChunk) (e : t) :
  abortController (apply_chunk chunk e) = abortController e.
Proof.
  unfold apply_chunk.
  destruct (chunk_content chunk) as [text |];
    [destruct (Js.truthy_string text) |];
    destruct (chunk_toolCalls chunk); reflexivity.
Qed.

(** After the first chunk the message holds that chunk's text and tool
    calls. *)
Lemma apply_chunk_entry (chunk : StreamChunk) (msgId : string) (now : Z) :
  exists m,
    currentMessage (apply_chunk chunk (entry msgId now)) = Some m
    /\ content m = default "" (chunk_content chunk)
    /\ id m = msgId /\ role m = assistant
    /\ tool_calls m = chunk_toolCalls chunk
    /\ accumulatedContent (apply_chunk chunk (entry msgId now)) = content m.
Proof.
  unfold apply_chunk, entry.
  destruct (chunk_content chunk) as [text |]; simpl.
  - unfold Js.truthy_string. destruct (decide (text = "")) as [-> | Hne];
      destruct (chunk_toolCalls chunk); simpl; eexists; repeat split.
  - destruct (chunk_toolCalls chunk); simpl; eexists; repeat split.
Qed.

Lemma set_content_fixpoint (e : t) (m : Message) :
  currentMessage e = Some m -> accumulatedContent e = content m ->
  set_content e = e.
Proof.
  destruct e as [ac cm acc]. simpl. intros -> ->. unfold set_content. simpl.
  now rewrite with_content_same.
Qed.

End StreamingEngineFacts.

(** The streaming scenario of the specification: the chunks ["Hel"], ["lo"]
    and the terminal chunk accumulate to ["Hello"], with one completion
    call. *)
Example stream_hello :
  let c1 := Sample.text_chunk "Hel" in
  let c2 := Sample.text_chunk "lo" in
  let run := StreamingEngine.stream
               [StreamingEngine.yields c1; StreamingEngine.yields c2;
                StreamingEngine.yields Sample.stop_chunk]
               Sample.all_callbacks "m1" 7 StreamingEngine.initial in
  StreamingEngine.settled run
  = StreamingEngine.resolves (Some (Sample.reply "m1" 7 "Hello"))
  /\ StreamingEngine.calls run
     = [StreamingEngine.called_onChunk c1; StreamingEngine.called_onChunk c2;
        StreamingEngine.called_onChunk Sample.stop_chunk;
        StreamingEngine.called_onComplete (Sample.reply "m1" 7 "Hello")].
Proof. vm_compute. split; reflexivity. Qed.

(** C2 as stated does not hold: with the chunks ["Hel"], ["lo"] and a
    terminal chunk, and [cancel()] called between the first and the second
    chunk, the message holds ["Hel"] as claimed, but the promise resolves
    and the completion callback is invoked with that message.  The run is
    the same, in result, callbacks and final state, as the run on a source
    that ends normally after its first chunk: there is no outcome that
    tells a cancelled turn from a completed one. *)
Lemma C2_cancelled_turn_invokes_onComplete :
  let c1 := Sample.text_chunk "Hel" in
  let c2 := Sample.text_chunk "lo" in
  let run := StreamingEngine.stream
               [StreamingEngine.yields c1; StreamingEngine.cancel_called;
                StreamingEngine.yields c2;
                StreamingEngine.yields Sample.stop_chunk]
               Sample.all_callbacks "m1" 7 StreamingEngine.initial in
  StreamingEngine.settled run
  = StreamingEngine.resolves (Some (Sample.reply "m1" 7 "Hel"))
  /\ StreamingEngine.calls run
     = [StreamingEngine.called_onChunk c1;
        StreamingEngine.called_onComplete (Sample.reply "m1" 7 "Hel")]
  /\ run = StreamingEngine.stream [StreamingEngine.yields c1]
             Sample.all_callbacks "m1" 7 StreamingEngine.initial.
Proof. vm_compute. repeat split; reflexivity. Qed.

(** C2, amended: for every stream of at least two chunks, when [cancel()]
    is called after the first chunk has been applied and before the second
    one is consumed, the accumulator stops with a message whose content is
    exactly the first chunk's text (the empty string when that chunk
    carries no text); the second chunk and all later ones are ignored; the
    turn then settles as a normal completion does: the promise resolves
    with that message and the completion callback, when present, is
    invoked with it, exactly as for a source that ends after its first
    chunk. *)
Theorem C2_cancel_after_first_chunk
        (handler : StreamingEngine.StreamHandler) (c1 c2 : StreamChunk)
        (rest : list StreamingEngine.Event) (msgId : string) (now : Z)
        (e : StreamingEngine.t) :
  let run := StreamingEngine.stream
               (StreamingEngine.yields c1 :: StreamingEngine.cancel_called
                  :: StreamingEngine.yields c2 :: rest)
               handler msgId now e in
  exists m : Message,
    StreamingEngine.settled run = StreamingEngine.resolves (Some m)
    /\ content m = default "" (chunk_content c1)
    /\ StreamingEngine.calls run
       = (if StreamingEngine.onChunk handler
          then [StreamingEngine.called_onChunk c1] else [])
         ++ (if StreamingEngine.onComplete handler
             then [StreamingEngine.called_onComplete m] else [])
    /\ run = StreamingEngine.stream [StreamingEngine.yields c1]
               handler msgId now e.
Proof.
  intros run. subst run.
  destruct (apply_chunk_entry c1 msgId now) as (m & Hm & Hcontent & _ & _ & _ & Hacc).
  pose proof (apply_chunk_controller c1 (StreamingEngine.entry msgId now)) as Hctl.
  exists m. unfold StreamingEngine.stream.
  cbn [StreamingEngine.consume].
  change (StreamingEngine.aborted (StreamingEngine.entry msgId now)) with false.
  cbv iota.
  set (e1 := StreamingEngine.apply_chunk c1 (StreamingEngine.entry msgId now)) in *.
  destruct (StreamingEngine.terminal c1).
  - rewrite (set_content_fixpoint e1 m Hm Hacc). rewrite Hm.
    repeat split; try assumption.
    destruct (StreamingEngine.onChunk handler), (StreamingEngine.onComplete handler);
      reflexivity.
  - assert (Hab : StreamingEngine.aborted (StreamingEngine.cancel e1) = true).
    { unfold StreamingEngine.cancel, StreamingEngine.aborted.
      rewrite Hctl. reflexivity. }
    rewrite Hab. cbv iota.
    assert (Hcm : StreamingEngine.currentMessage (StreamingEngine.cancel e1)
                  = Some m).
    { unfold StreamingEngine.cancel. rewrite Hctl. exact Hm. }
    assert (Hclr : StreamingEngine.clear_controller (StreamingEngine.cancel e1)
                   = StreamingEngine.clear_controller e1).
    { unfold StreamingEngine.cancel. rewrite Hctl. reflexivity. }
    rewrite Hcm, Hclr, Hm.
    repeat split; try assumption.
    destruct (StreamingEngine.onChunk handler), (StreamingEngine.onComplete handler);
      reflexivity.
Qed.

(* ===================================================================== *)
(** * Properties of the OpenAI-compatible adapter                         *)
(* ===================================================================== *)

Section LineBuffering.

Lemma split_lf_nonempty (s : string) : Js.split_lf s <> [].
Proof.
  destruct s as [| c s]; simpl; [discriminate |].
  destruct (decide (c = Js.LF)); [discriminate |].
  destruct (Js.split_lf s); discriminate.
Qed.

Lemma removelast_cons {A : Type} (x : A) (l : list A) :
  l <> [] -> removelast (x :: l) = x :: removelast l.
Proof. destruct l; [congruence | reflexivity]. Qed.

Lemma pop_or_empty_cons (x : string) (l : list string) :
  l <> [] -> Js.pop_or_empty (x :: l) = Js.pop_or_empty l.
Proof. destruct l; [congruence | reflexivity]. Qed.

(** Text appended after [a] only extends the piece that [a] left
    unfinished: the complete lines of [a] stay as they are. *)
Lemma split_lf_app (a b : string) :
  Js.split_lf (a +:+ b)
  = removelast (Js.split_lf a)
      ++ Js.split_lf (Js.pop_or_empty (Js.split_lf a) +:+ b).
Proof.
  induction a as [| c a IH]; [reflexivity |].
  change (String c a +:+ b) with (String c (a +:+ b)).
  pose proof (split_lf_nonempty a) as Hne.
  cbn [Js.split_lf]. destruct (decide (c = Js.LF)) as [_ | Hc].
  - rewrite removelast_cons, pop_or_empty_cons by assumption.
    rewrite IH. reflexivity.
  - rewrite IH.
    destruct (Js.split_lf a) as [| piece pieces]; [congruence |].
    destruct pieces as [| piece' pieces].
    + cbn [removelast Js.extend_first Js.pop_or_empty last app].
      change (String c piece +:+ b) with (String c (piece +:+ b)).
      cbn [Js.split_lf]. destruct (decide (c = Js.LF)); [contradiction |].
      reflexivity.
    + cbn [Js.extend_first].
      rewrite !removelast_cons, !pop_or_empty_cons by discriminate.
      reflexivity.
Qed.

(** The piece held back has no line feed in it. *)
Lemma split_lf_pending (a : string) :
  Js.split_lf (Js.pop_or_empty (Js.split_lf a))
  = [Js.pop_or_empty (Js.split_lf a)].
Proof.
  induction a as [| c a IH]; [reflexivity |].
  pose proof (split_lf_nonempty a) as Hne.
  cbn [Js.split_lf]. destruct (decide (c = Js.LF)) as [_ | Hc].
  - rewrite pop_or_empty_cons by assumption. exact IH.
  - destruct (Js.split_lf a) as [| piece pieces]; [congruence |].
    destruct pieces as [| piece' pieces].
    + cbn [Js.extend_first Js.pop_or_empty last] in *.
      cbn [Js.split_lf]. destruct (decide (c = Js.LF)); [contradiction |].
      rewrite IH. reflexivity.
    + cbn [Js.extend_first].
      rewrite pop_or_empty_cons in * by discriminate. exact IH.
Qed.

Lemma complete_lines_app (a b : string) :
  OpenAIProvider.complete_lines (a +:+ b)
  = OpenAIProvider.complete_lines a
      ++ OpenAIProvider.complete_lines (Js.pop_or_empty (Js.split_lf a) +:+ b).
Proof.
  unfold OpenAIProvider.complete_lines.
  rewrite split_lf_app. apply removelast_app, split_lf_nonempty.
Qed.

Lemma prefix_slice (p s : string) :
  String.prefix p s = true -> s = p +:+ Js.string_slice (String.length p) s.
Proof.
  revert s. induction p as [| c p IH]; intros s Hp; [reflexivity |].
  destruct s as [| d s]; [discriminate |].
  simpl in Hp. destruct (ascii_dec c d) as [-> | _]; [| discriminate].
  change (String d s = String d (p +:+ Js.string_slice (String.length p) s)).
  f_equal. now apply IH.
Qed.



End LineBuffering.

Section OpenAIProviderFacts.

Import OpenAIProvider.

Variable JSON_parse : string -> option Json.value.

Lemma on_lines_app (a b : list string) :
  on_lines JSON_parse (a ++ b)
  = if snd (on_lines JSON_parse a) then on_lines JSON_parse a
    else (fst (on_lines JSON_parse a) ++ fst (on_lines JSON_parse b),
          snd (on_lines JSON_parse b)).
Proof.
  induction a as [| line a IH]; simpl.
  - now destruct (on_lines JSON_parse b).
  - destruct (on_line JSON_parse line) as [chunks | chunks]; [| reflexivity].
    rewrite IH. destruct (on_lines JSON_parse a) as [out [|]]; simpl;
      [reflexivity |].
    destruct (on_lines JSON_parse b). simpl. now rewrite app_assoc.
Qed.

(** The chunks do not depend on where the network cut the text: they are
    those of the complete lines of the whole text, up to the end
    marker. *)
Lemma read_loop_lines (reads : list string) :
  forall buffer : string,
    Js.split_lf buffer = [buffer] ->
    read_loop JSON_parse reads buffer
    = fst (on_lines JSON_parse (complete_lines (buffer +:+ joined reads))).
Proof.
  induction reads as [| value later IH]; intros buffer Hbuf.
  - simpl. rewrite string_app_empty_r.
    unfold complete_lines. rewrite Hbuf. reflexivity.
  - cbn [read_loop joined].
    rewrite <- string_app_assoc, complete_lines_app, on_lines_app.
    fold (complete_lines (buffer +:+ value)).
    destruct (on_lines JSON_parse (complete_lines (buffer +:+ value)))
      as [out [|]]; simpl; [reflexivity |].
    f_equal. apply IH, split_lf_pending.
Qed.

Lemma stream_lines (reads : list string) :
  stream JSON_parse reads
  = fst (on_lines JSON_parse (complete_lines (joined reads))).
Proof. unfold stream. now rewrite read_loop_lines. Qed.




Lemma on_line_not_end_marker (line : string) :
  line <> "data: [DONE]" -> exists chunks, on_line JSON_parse line = yielded chunks.
Proof.
  intros Hline. unfold on_line.
  destruct (String.prefix "data: " line) eqn:Hp; [| eauto].
  cbv zeta. destruct (decide (Js.string_slice 6 line = "[DONE]")) as [Hd | _].
  - exfalso. apply Hline. apply prefix_slice in Hp. rewrite Hp.
    change (String.length "data: ") with 6%nat. now rewrite Hd.
  - destruct (JSON_parse _) as [parsed |]; [| eauto].
    destruct (chunks_of parsed); eauto.
Qed.

Lemma on_lines_before_end_marker (lines : list string) :
  Forall (fun line => line <> "data: [DONE]") lines ->
  snd (on_lines JSON_parse lines) = false.
Proof.
  induction 1 as [| line lines Hline _ IH]; simpl; [reflexivity |].
  destruct (on_line_not_end_marker line Hline) as [chunks ->].
  destruct (on_lines JSON_parse lines). exact IH.
Qed.



End OpenAIProviderFacts.



(* ===================================================================== *)
(** * Further properties of the context window                            *)
(* ===================================================================== *)

Section MemoryWindowMore.

Import MemoryWindow.

Lemma slice_from_length {A : Type} (m : Z) (l : list A) :
  1 <= m -> Z.of_nat (length (Js.slice_from (- m) l)) <= m.
Proof.
  intros Hm. rewrite slice_from_last_n by lia.
  destruct (decide _); [lia |]. rewrite length_drop. lia.
Qed.

Lemma trim_zero_ceiling (w : t) : maxMessages (config w) = 0 -> trim w = w.
Proof.
  intros Hz. unfold trim. rewrite Hz.
  destruct (0 <? _); [| reflexivity].
  change (- 0) with 0. unfold Js.slice_from. simpl.
  rewrite Z.min_l by lia. simpl. rewrite drop_0. now destruct w.
Qed.

Lemma trim_keeps_rest (w : t) :
  systemPrompt (trim w) = systemPrompt w
  /\ pinnedMessages (trim w) = pinnedMessages w.
Proof. unfold trim. destruct (_ <? _); auto. Qed.

Lemma apply_append_keeps_rest (a : Append) (w : t) :
  systemPrompt (apply_append a w) = systemPrompt w
  /\ pinnedMessages (apply_append a w) = pinnedMessages w.
Proof.
  destruct a as [m | ms]; simpl; unfold addMessage, addMessages.
  - exact (trim_keeps_rest (set_messages (messages w ++ [m]) w)).
  - exact (trim_keeps_rest (set_messages (messages w ++ ms) w)).
Qed.

Lemma run_appends_keeps_rest (calls : list Append) :
  forall w : t,
    systemPrompt (run_appends calls w) = systemPrompt w
    /\ pinnedMessages (run_appends calls w) = pinnedMessages w.
Proof.
  induction calls as [| a calls IH]; intros w; [auto |].
  change (run_appends (a :: calls) w) with (run_appends calls (apply_append a w)).
  destruct (IH (apply_append a w)) as [-> ->]. apply apply_append_keeps_rest.
Qed.

(** The walk only ever puts a run of the newest messages in front of what
    it already holds, and what it has added fits the budget. *)
Lemma trim_walk_shape (budget : Z) (newest_first : list Message) :
  forall (total : Z) (result : list Message),
    exists k : nat,
      trim_walk budget newest_first total result
      = rev (take k newest_first) ++ result
      /\ (k <> 0%nat ->
          total + estimated_total (take k newest_first) <= budget).
Proof.
  induction newest_first as [| msg older IH]; intros total result.
  - exists 0%nat. split; [reflexivity | congruence].
  - cbn [trim_walk].
    destruct (Z.leb_spec (total + estimateTokens (content msg)) budget)
      as [Hfit | Hover].
    + destruct (IH (total + estimateTokens (content msg)) (msg :: result))
        as (k & Heq & Hsum).
      exists (S k). split.
      * rewrite Heq. cbn [take rev]. now rewrite <- app_assoc.
      * intros _. cbn [take estimated_total foldr].
        destruct k as [| k'].
        -- rewrite take_0. simpl. lia.
        -- specialize (Hsum ltac:(discriminate)).
           unfold estimated_total in Hsum. lia.
    + exists 0%nat. split; [reflexivity | congruence].
Qed.

Lemma estimated_total_rev (msgs : list Message) :
  estimated_total (rev msgs) = estimated_total msgs.
Proof.
  induction msgs as [| m msgs IH]; [reflexivity |].
  cbn [rev]. unfold estimated_total in *. rewrite foldr_app. cbn [foldr].
  rewrite <- IH. generalize (rev msgs). intros l.
  induction l as [| x l IHl]; cbn [foldr]; lia.
Qed.

Lemma token_walk_shape (w : t) (msgs : list Message) :
  exists k : nat,
    token_walk w msgs = drop (length msgs - k) msgs
    /\ (k <= length msgs)%nat
    /\ (token_walk w msgs <> [] ->
        prompt_tokens w + estimated_total (token_walk w msgs)
        <= maxTokens (config w)).
Proof.
  unfold token_walk. fold (prompt_tokens w).
  destruct (trim_walk_shape (maxTokens (config w)) (rev msgs)
              (prompt_tokens w) []) as (k & Heq & Hsum).
  exists (Nat.min k (length msgs)).
  assert (Hrev : rev (take k (rev msgs))
                 = drop (length msgs - Nat.min k (length msgs)) msgs).
  { rewrite firstn_rev, rev_involutive. f_equal. lia. }
  rewrite Heq, app_nil_r, Hrev. split; [reflexivity |]. split; [lia |].
  intros Hne. rewrite <- Hrev, estimated_total_rev. apply Hsum.
  intros ->. apply Hne. rewrite <- Hrev. now rewrite take_0.
Qed.

Lemma trimByTokens_shape (w : t) (msgs : list Message) :
  exists k : nat, trimByTokens w msgs = drop k msgs.
Proof.
  unfold trimByTokens.
  destruct (_ <=? _); [exists 0%nat; now rewrite drop_0 |].
  destruct (token_walk_shape w msgs) as (k & Heq & _ & _).
  destruct (0 <? length (token_walk w msgs))%nat; [eauto |].
  unfold Js.slice_from. eauto.
Qed.

Lemma dedup_ids (msgs : list Message) :
  forall seen : gset string,
    NoDup (id <$> dedup seen msgs)
    /\ (forall m, m ∈ dedup seen msgs -> (id m ∉ seen) /\ m ∈ msgs).
Proof.
  induction msgs as [| msg msgs IH]; intros seen; simpl.
  - split; [constructor | intros m Hm; inversion Hm].
  - destruct (decide (id msg ∈ seen)) as [Hin | Hnin].
    + destruct (IH seen) as [Hnd Hsub]. split; [exact Hnd |].
      intros m Hm. destruct (Hsub m Hm). split; [assumption | now right].
    + destruct (IH ({[ id msg ]} ∪ seen)) as [Hnd Hsub]. split.
      * cbn [fmap list_fmap]. apply NoDup_cons. split; [| exact Hnd].
        intros Hdup. apply list_elem_of_fmap in Hdup as (m & Hid & Hm).
        destruct (Hsub m Hm) as [Hfresh _]. apply Hfresh.
        apply elem_of_union. left. now apply elem_of_singleton.
      * intros m Hm. apply elem_of_cons in Hm as [-> | Hm].
        -- split; [assumption | now left].
        -- destruct (Hsub m Hm) as [Hfresh Hin]. split; [| now right].
           intros Hseen. apply Hfresh. apply elem_of_union. now right.
Qed.

(** A run of messages with distinct ids, none of them seen before, goes
    through the filter untouched; the rest goes through the filter with
    the ids of the run added to the seen ones. *)
Lemma dedup_distinct_run (front : list Message) :
  forall (seen : gset string) (back : list Message),
    NoDup (id <$> front) ->
    (forall m, m ∈ front -> id m ∉ seen) ->
    dedup seen (front ++ back)
    = front ++ dedup (list_to_set (id <$> front) ∪ seen) back.
Proof.
  induction front as [| msg front IH]; intros seen back Hnd Hfresh.
  - cbn [app fmap list_fmap list_to_set foldr].
    now rewrite (left_id_L (∅ : gset string) (∪)).
  - cbn [fmap list_fmap] in Hnd. apply NoDup_cons in Hnd as [Hhead Hnd].
    cbn [app dedup].
    destruct (decide (id msg ∈ seen)) as [Hin | _].
    + exfalso. apply (Hfresh msg); [now left | exact Hin].
    + rewrite (IH ({[ id msg ]} ∪ seen) back Hnd).
      * cbn [fmap list_fmap list_to_set foldr].
        replace (list_to_set (id <$> front) ∪ ({[ id msg ]} ∪ seen))
          with ({[ id msg ]} ∪ list_to_set (id <$> front) ∪ seen);
          [reflexivity |].
        rewrite (comm_L (∪) {[ id msg ]} (list_to_set (id <$> front))).
        now rewrite <- (assoc_L (∪)).
      * intros m Hm Hseen. apply elem_of_union in Hseen as [Hsame | Hseen].
        -- apply elem_of_singleton in Hsame. apply Hhead.
           rewrite <- Hsame. now apply list_elem_of_fmap_2.
        -- apply (Hfresh m); [now right | exact Hseen].
Qed.

(** The filter keeps the order of the messages it lets through. *)
Lemma dedup_sublist (msgs : list Message) :
  forall seen : gset string, dedup seen msgs `sublist_of` msgs.
Proof.
  induction msgs as [| msg msgs IH]; intros seen; simpl; [constructor |].
  destruct (decide (id msg ∈ seen)).
  - apply sublist_cons, IH.
  - apply sublist_skip, IH.
Qed.

(** No id is lost by the filter: every message is kept, or its id was
    seen before, or an earlier message with its id is kept. *)
Lemma dedup_covers (msgs : list Message) :
  forall (seen : gset string) (m : Message),
    m ∈ msgs -> id m ∈ seen \/ id m ∈ (id <$> dedup seen msgs).
Proof.
  induction msgs as [| msg msgs IH]; intros seen m Hm; [inversion Hm |].
  cbn [dedup]. apply elem_of_cons in Hm as [-> | Hm].
  - destruct (decide (id msg ∈ seen)); [now left |].
    right. cbn [fmap list_fmap]. now left.
  - destruct (decide (id msg ∈ seen)); [now apply IH |].
    destruct (IH ({[ id msg ]} ∪ seen) m Hm) as [Hseen | Hkept].
    + apply elem_of_union in Hseen as [Hsame | Hseen]; [| now left].
      apply elem_of_singleton in Hsame. right. cbn [fmap list_fmap].
      rewrite Hsame. now left.
    + right. cbn [fmap list_fmap]. now right.
Qed.

End MemoryWindowMore.

(** X1.  With a ceiling of at least one message, the transcript never
    holds more than [maxMessages] entries after [addMessage] or
    [addMessages], whatever the window held before and however many
    messages are added at once. *)
Theorem X1_transcript_within_ceiling (a : MemoryWindow.Append) (w : MemoryWindow.t) :
  1 <= maxMessages (MemoryWindow.config w) ->
  Z.of_nat (length (MemoryWindow.getAllMessages (MemoryWindow.apply_append a w)))
  <= maxMessages (MemoryWindow.config w).
Proof.
  intros Hm. unfold MemoryWindow.getAllMessages.
  rewrite apply_append_messages by exact Hm.
  now apply slice_from_length.
Qed.

Lemma X1_transcript_within_ceiling_witness :
  Z.of_nat
    (length
       (MemoryWindow.getAllMessages
          (MemoryWindow.apply_append
             (MemoryWindow.appendMany
                [Sample.msg "a" user "1"; Sample.msg "b" user "2";
                 Sample.msg "c" user "3"])
             (MemoryWindow.new (Sample.limits (Some 2) None)))))
  <= 2.
Proof.
  apply (X1_transcript_within_ceiling
           (MemoryWindow.appendMany
              [Sample.msg "a" user "1"; Sample.msg "b" user "2";
               Sample.msg "c" user "3"])
           (MemoryWindow.new (Sample.limits (Some 2) None))).
  simpl. lia.
Defined.

(** X2.  A ceiling of zero does not empty the window: [slice(-0)] is the
    whole array, so nothing is ever trimmed and the transcript keeps every
    appended message. *)
Theorem X2_zero_ceiling_keeps_everything
        (calls : list MemoryWindow.Append) (w : MemoryWindow.t) :
  maxMessages (MemoryWindow.config w) = 0 ->
  MemoryWindow.getAllMessages (MemoryWindow.run_appends calls w)
  = MemoryWindow.messages w ++ MemoryWindow.appended calls.
Proof.
  revert w. induction calls as [| a calls IH]; intros w Hz.
  - unfold MemoryWindow.appended. simpl. now rewrite app_nil_r.
  - change (MemoryWindow.run_appends (a :: calls) w)
      with (MemoryWindow.run_appends calls (MemoryWindow.apply_append a w)).
    rewrite IH by (rewrite apply_append_config; exact Hz).
    assert (Hstep : MemoryWindow.messages (MemoryWindow.apply_append a w)
                    = MemoryWindow.messages w ++ MemoryWindow.appended [a]).
    { destruct a as [m | ms]; simpl;
        unfold MemoryWindow.addMessage, MemoryWindow.addMessages,
          MemoryWindow.appended;
        rewrite trim_zero_ceiling by exact Hz; simpl;
        now rewrite ?app_nil_r. }
    rewrite Hstep, <- app_assoc. f_equal.
    unfold MemoryWindow.appended. simpl. now rewrite app_nil_r.
Qed.

Lemma X2_zero_ceiling_keeps_everything_witness :
  MemoryWindow.getAllMessages
    (MemoryWindow.run_appends
       [MemoryWindow.append (Sample.msg "a" user "1");
        MemoryWindow.append (Sample.msg "b" user "2")]
       (MemoryWindow.new (Sample.limits (Some 0) None)))
  = [Sample.msg "a" user "1"; Sample.msg "b" user "2"].
Proof.
  apply (X2_zero_ceiling_keeps_everything
           [MemoryWindow.append (Sample.msg "a" user "1");
            MemoryWindow.append (Sample.msg "b" user "2")]
           (MemoryWindow.new (Sample.limits (Some 0) None))).
  reflexivity.
Defined.

(** X3.  The messages returned by [getContext] have pairwise distinct ids,
    for every window: a message whose id was already met, pinned or not,
    is sent once. *)
Theorem X3_context_ids_distinct (w : MemoryWindow.t) :
  NoDup (id <$> MemoryWindow.ctx_messages (MemoryWindow.getContext w)).
Proof.
  assert (Hc : NoDup (id <$> MemoryWindow.candidates w)).
  { unfold MemoryWindow.candidates. apply dedup_ids. }
  unfold MemoryWindow.getContext. simpl.
  destruct (0 <? _); [| exact Hc].
  destruct (trimByTokens_shape w (MemoryWindow.candidates w)) as [k ->].
  rewrite fmap_drop. eapply sublist_NoDup; [exact Hc | apply sublist_drop].
Qed.

(** X4.  When the token budget is active and the walk keeps at least one
    message, the estimate of the stored prompt plus the estimates of the
    messages returned by [getContext] does not exceed [maxTokens]. *)
Theorem X4_context_fits_budget (w : MemoryWindow.t) :
  0 < maxTokens (MemoryWindow.config w) ->
  MemoryWindow.token_walk w (MemoryWindow.candidates w) <> [] ->
  MemoryWindow.prompt_tokens w
  + MemoryWindow.estimated_total
      (MemoryWindow.ctx_messages (MemoryWindow.getContext w))
  <= maxTokens (MemoryWindow.config w).
Proof.
  intros Hb Hne. unfold MemoryWindow.getContext. simpl.
  destruct (Z.ltb_spec 0 (maxTokens (MemoryWindow.config w))); [| lia].
  unfold MemoryWindow.trimByTokens.
  destruct (Z.leb_spec (maxTokens (MemoryWindow.config w)) 0); [lia |].
  destruct (token_walk_shape w (MemoryWindow.candidates w)) as (k & _ & _ & Hsum).
  destruct (MemoryWindow.token_walk w (MemoryWindow.candidates w)) eqn:Hwalk;
    [congruence |].
  simpl. apply Hsum. discriminate.
Qed.

Lemma X4_context_fits_budget_witness :
  let w := MemoryWindow.addMessage (Sample.msg "b" user "12345678")
             (MemoryWindow.addMessage (Sample.msg "a" user "a long first message")
                (MemoryWindow.new (Sample.limits None (Some 3)))) in
  MemoryWindow.prompt_tokens w
  + MemoryWindow.estimated_total
      (MemoryWindow.ctx_messages (MemoryWindow.getContext w))
  <= 3.
Proof.
  intros w. apply (X4_context_fits_budget w).
  - vm_compute. reflexivity.
  - vm_compute. discriminate.
Defined.

(** X5.  For every window, the messages of [getContext] are the candidate
    list with some of its oldest entries removed: token trimming never
    reorders, never skips a message in the middle and never alters a
    message. *)
Theorem X5_context_is_newest_run (w : MemoryWindow.t) :
  exists k : nat,
    MemoryWindow.ctx_messages (MemoryWindow.getContext w)
    = drop k (MemoryWindow.candidates w).
Proof.
  unfold MemoryWindow.getContext. simpl.
  destruct (0 <? _); [apply trimByTokens_shape |].
  exists 0%nat. now rewrite drop_0.
Qed.

(** X6.  With token trimming switched off ([maxTokens <= 0]) and pinned
    messages that carry distinct ids, [getContext] returns all pinned
    messages first, in their order, and then exactly the most recent
    [maxMessages] transcript entries with those removed whose id is that
    of a pinned message or of an earlier entry: what follows the pinned
    messages is taken from the transcript in transcript order, carries no
    pinned id and no id twice, and every recent entry has its id in the
    result. *)
Theorem X6_pinned_lead_without_budget (w : MemoryWindow.t) :
  maxTokens (MemoryWindow.config w) <= 0 ->
  NoDup (id <$> MemoryWindow.pinnedMessages w) ->
  let recent :=
    Js.slice_from (- maxMessages (MemoryWindow.config w)) (MemoryWindow.messages w) in
  let tail :=
    MemoryWindow.dedup (list_to_set (id <$> MemoryWindow.pinnedMessages w)) recent in
  MemoryWindow.ctx_messages (MemoryWindow.getContext w)
  = MemoryWindow.pinnedMessages w ++ tail
  /\ tail `sublist_of` MemoryWindow.messages w
  /\ (forall m, m ∈ tail -> id m ∉ (id <$> MemoryWindow.pinnedMessages w))
  /\ NoDup (id <$> tail)
  /\ (forall m, m ∈ recent ->
        id m ∈ (id <$> MemoryWindow.ctx_messages (MemoryWindow.getContext w))).
Proof.
  intros Hb Hnd recent tail.
  assert (Hctx : MemoryWindow.ctx_messages (MemoryWindow.getContext w)
                 = MemoryWindow.pinnedMessages w ++ tail).
  { unfold MemoryWindow.getContext. simpl.
    destruct (Z.ltb_spec 0 (maxTokens (MemoryWindow.config w))); [lia |].
    unfold MemoryWindow.candidates. cbv zeta. fold recent.
    rewrite dedup_distinct_run; [| exact Hnd | set_solver].
    now rewrite (right_id_L (∅ : gset string) (∪)). }
  split; [exact Hctx |].
  destruct (dedup_ids recent (list_to_set (id <$> MemoryWindow.pinnedMessages w)))
    as [Hdistinct Hfresh].
  split; [| split; [| split]].
  - etransitivity; [apply dedup_sublist |]. apply sublist_drop.
  - intros m Hm Hpinned. destruct (Hfresh m Hm) as [Hnot _]. apply Hnot.
    now apply elem_of_list_to_set.
  - exact Hdistinct.
  - intros m Hm. rewrite Hctx, fmap_app. apply elem_of_app.
    destruct (dedup_covers recent
                (list_to_set (id <$> MemoryWindow.pinnedMessages w)) m Hm)
      as [Hseen | Hkept]; [left | right; exact Hkept].
    now apply elem_of_list_to_set in Hseen.
Qed.

Lemma X6_pinned_lead_without_budget_witness :
  let p := Sample.msg "p" user "pinned!!" in
  let a := Sample.msg "a" user "oldest" in
  let b := Sample.msg "p" user "same id as the pinned one" in
  let c := Sample.msg "c" user "recent!!" in
  let w := MemoryWindow.pinMessages [p]
             (MemoryWindow.addMessages [a; b; c; c]
                (MemoryWindow.new (Sample.limits (Some 3) (Some 0)))) in
  MemoryWindow.ctx_messages (MemoryWindow.getContext w) = [p; c].
Proof.
  intros p a b c w.
  destruct (X6_pinned_lead_without_budget w) as [Hctx _].
  - simpl. lia.
  - simpl. apply NoDup_singleton.
  - rewrite Hctx. vm_compute. reflexivity.
Defined.

(** X7.  [clear] only forgets the transcript: configuration, system
    prompt and pinned messages stay, and the appends made afterwards are
    kept as on a fresh window (the most recent [maxMessages] of them). *)
Theorem X7_clear_restarts_transcript
        (calls : list MemoryWindow.Append) (w : MemoryWindow.t) :
  1 <= maxMessages (MemoryWindow.config w) ->
  let w' := MemoryWindow.run_appends calls (MemoryWindow.clear w) in
  let history := MemoryWindow.appended calls in
  MemoryWindow.getAllMessages w'
  = drop (length history - Z.to_nat (maxMessages (MemoryWindow.config w))) history
  /\ MemoryWindow.config w' = MemoryWindow.config w
  /\ MemoryWindow.systemPrompt w' = MemoryWindow.systemPrompt w
  /\ MemoryWindow.pinnedMessages w' = MemoryWindow.pinnedMessages w.
Proof.
  intros Hm w' history.
  destruct (run_appends_messages calls (MemoryWindow.clear w) []) as [Hcfg Hmsgs].
  - exact Hm.
  - unfold Js.slice_from. now rewrite drop_nil.
  - destruct (run_appends_keeps_rest calls (MemoryWindow.clear w)) as [Hp Hpin].
    repeat split; try assumption.
    unfold MemoryWindow.getAllMessages. subst w'. rewrite Hmsgs. simpl app.
    fold history. change (MemoryWindow.config (MemoryWindow.clear w))
      with (MemoryWindow.config w).
    rewrite slice_from_last_n by lia. destruct (decide _); [lia | reflexivity].
Qed.

Lemma X7_clear_restarts_transcript_witness :
  let w := MemoryWindow.setSystemPrompt "Be brief."
             (MemoryWindow.addMessage (Sample.msg "old" user "before")
                (MemoryWindow.new (Sample.limits (Some 2) None))) in
  let w' := MemoryWindow.run_appends
              [MemoryWindow.append (Sample.msg "new" user "after")]
              (MemoryWindow.clear w) in
  MemoryWindow.getAllMessages w' = [Sample.msg "new" user "after"]
  /\ MemoryWindow.systemPrompt w' = Some "Be brief.".
Proof.
  intros w w'.
  destruct (X7_clear_restarts_transcript
              [MemoryWindow.append (Sample.msg "new" user "after")] w)
    as (Hall & _ & Hp & _).
  - simpl. lia.
  - split; [exact Hall | exact Hp].
Defined.

(** X8.  [updateConfig] with a new ceiling of at least one message trims
    at once: the transcript becomes its own most recent [n] entries, and
    prompt and pinned messages are untouched. *)
Theorem X8_updateConfig_trims_at_once
        (cfg : MemoryConfig) (n : Z) (w : MemoryWindow.t) :
  cfg_maxMessages cfg = Some n ->
  1 <= n ->
  let w' := MemoryWindow.updateConfig cfg w in
  MemoryWindow.getAllMessages w'
  = drop (length (MemoryWindow.messages w) - Z.to_nat n) (MemoryWindow.messages w)
  /\ maxMessages (MemoryWindow.config w') = n
  /\ MemoryWindow.systemPrompt w' = MemoryWindow.systemPrompt w
  /\ MemoryWindow.pinnedMessages w' = MemoryWindow.pinnedMessages w.
Proof.
  intros Hcfg Hn w'. subst w'. unfold MemoryWindow.updateConfig.
  set (w1 := MemoryWindow.mk _ _ _ _).
  assert (Hc1 : maxMessages (MemoryWindow.config w1) = n)
    by (subst w1; simpl; now rewrite Hcfg).
  destruct (trim_keeps_rest w1) as [Hp Hpin].
  repeat split.
  - unfold MemoryWindow.getAllMessages. rewrite trim_messages by lia.
    rewrite Hc1, slice_from_last_n by lia.
    destruct (decide _); [lia | reflexivity].
  - now rewrite trim_config.
  - exact Hp.
  - exact Hpin.
Qed.

Lemma X8_updateConfig_trims_at_once_witness :
  let w := MemoryWindow.run_appends
             [MemoryWindow.appendMany
                [Sample.msg "a" user "1"; Sample.msg "b" user "2";
                 Sample.msg "c" user "3"]]
             (MemoryWindow.new MemoryWindow.empty_config) in
  MemoryWindow.getAllMessages
    (MemoryWindow.updateConfig (Sample.limits (Some 1) None) w)
  = [Sample.msg "c" user "3"].
Proof.
  intros w.
  destruct (X8_updateConfig_trims_at_once (Sample.limits (Some 1) None) 1 w)
    as [Hall _].
  - reflexivity.
  - lia.
  - exact Hall.
Defined.

(** X9.  The token estimate is the length divided by four, rounded up: a
    text of [n] code units is charged between [n/4] and [n/4 + 3/4]
    tokens, and only the empty text is free. *)
Theorem X9_estimateTokens_bounds (text : string) :
  let n := Z.of_nat (String.length text) in
  let tokens := MemoryWindow.estimateTokens text in
  n <= 4 * tokens <= n + 3
  /\ (tokens = 0 <-> text = "").
Proof.
  intros n tokens. subst tokens. unfold MemoryWindow.estimateTokens, Js.ceil_div.
  fold n. replace (n + 4 - 1) with (n + 3) by lia.
  pose proof (Z.div_mod (n + 3) 4 ltac:(lia)) as Hdm.
  pose proof (Z.mod_pos_bound (n + 3) 4 ltac:(lia)) as Hmod.
  split; [lia |]. split.
  - intros Hz. destruct text; [reflexivity |]. subst n. simpl String.length in *.
    lia.
  - intros ->. reflexivity.
Qed.

(** X10.  Once a non-empty prompt is stored and the lock is on, no series
    of [setSystemPrompt] calls changes the window in any way. *)
Theorem X10_locked_prompt_is_final
        (prompts : list string) (p : string) (w : MemoryWindow.t) :
  systemPromptLocked (MemoryWindow.config w) = true ->
  MemoryWindow.systemPrompt w = Some p ->
  p <> "" ->
  MemoryWindow.setSystemPrompts prompts w = w.
Proof.
  intros Hlock Hp Hne. unfold MemoryWindow.setSystemPrompts.
  induction prompts as [| q prompts IH]; [reflexivity |].
  cbn [fold_left].
  assert (Hstep : MemoryWindow.setSystemPrompt q w = w).
  { unfold MemoryWindow.setSystemPrompt. rewrite Hlock, Hp. simpl.
    unfold Js.truthy_string. destruct (decide (p = "")); [contradiction |].
    reflexivity. }
  rewrite Hstep. exact IH.
Qed.

Lemma X10_locked_prompt_is_final_witness :
  let w := MemoryWindow.setSystemPrompt "first" (MemoryWindow.new (Sample.lock true)) in
  MemoryWindow.setSystemPrompts ["second"; ""; "third"] w = w.
Proof.
  intros w. apply (X10_locked_prompt_is_final ["second"; ""; "third"] "first" w).
  - reflexivity.
  - reflexivity.
  - discriminate.
Defined.

(* ===================================================================== *)
(** * Further properties of the adapters' reading loop                    *)
(* ===================================================================== *)

Section SseLoopFacts.

Variable on_line : string -> OpenAIProvider.LineResult.

Lemma sse_on_lines_app (a b : list string) :
  SseLoop.on_lines on_line (a ++ b)
  = if snd (SseLoop.on_lines on_line a) then SseLoop.on_lines on_line a
    else (fst (SseLoop.on_lines on_line a) ++ fst (SseLoop.on_lines on_line b),
          snd (SseLoop.on_lines on_line b)).
Proof.
  induction a as [| line a IH]; simpl.
  - now destruct (SseLoop.on_lines on_line b).
  - destruct (on_line line) as [chunks | chunks]; [| reflexivity].
    rewrite IH. destruct (SseLoop.on_lines on_line a) as [out [|]]; simpl;
      [reflexivity |].
    destruct (SseLoop.on_lines on_line b). simpl. now rewrite app_assoc.
Qed.

Lemma sse_read_loop_lines (reads : list string) :
  forall buffer : string,
    Js.split_lf buffer = [buffer] ->
    SseLoop.read_loop on_line reads buffer
    = fst (SseLoop.on_lines on_line
             (OpenAIProvider.complete_lines
                (buffer +:+ OpenAIProvider.joined reads))).
Proof.
  induction reads as [| value later IH]; intros buffer Hbuf.
  - simpl. rewrite string_app_empty_r.
    unfold OpenAIProvider.complete_lines. rewrite Hbuf. reflexivity.
  - cbn [SseLoop.read_loop OpenAIProvider.joined].
    rewrite <- string_app_assoc, complete_lines_app, sse_on_lines_app.
    fold (OpenAIProvider.complete_lines (buffer +:+ value)).
    destruct (SseLoop.on_lines on_line
                (OpenAIProvider.complete_lines (buffer +:+ value)))
      as [out [|]]; simpl; [reflexivity |].
    f_equal. apply IH, split_lf_pending.
Qed.

Lemma sse_stream_lines (reads : list string) :
  SseLoop.stream on_line reads
  = fst (SseLoop.on_lines on_line
           (OpenAIProvider.complete_lines (OpenAIProvider.joined reads))).
Proof. unfold SseLoop.stream. now rewrite sse_read_loop_lines. Qed.

(** What the loop does when the handler treats the end marker as the
    adapters do. *)
Lemma sse_on_lines_end_marker (pre post : list string) :
  on_line "data: [DONE]"
  = OpenAIProvider.yielded_and_returned [OpenAIProvider.done_chunk] ->
  snd (SseLoop.on_lines on_line pre) = false ->
  fst (SseLoop.on_lines on_line (pre ++ "data: [DONE]" :: post))
  = fst (SseLoop.on_lines on_line pre) ++ [OpenAIProvider.done_chunk].
Proof.
  intros Hend Hgo. rewrite sse_on_lines_app, Hgo. cbn [fst SseLoop.on_lines].
  now rewrite Hend.
Qed.

End SseLoopFacts.

Section NoLineFeed.

Lemma split_lf_whole_app (a b : string) :
  Js.split_lf a = [a] -> Js.split_lf b = [b] ->
  Js.split_lf (a +:+ b) = [a +:+ b].
Proof.
  intros Ha Hb. induction a as [| c a IH]; [exact Hb |].
  change (String c a +:+ b) with (String c (a +:+ b)).
  pose proof (split_lf_nonempty a) as Hne.
  cbn [Js.split_lf] in *. destruct (decide (c = Js.LF)) as [_ | Hc].
  - discriminate Ha.
  - destruct (Js.split_lf a) as [| piece pieces] eqn:Hsplit; [congruence |].
    cbn [Js.extend_first] in Ha.
    assert (Hpiece : piece = a) by congruence.
    assert (Hpieces : pieces = []) by congruence.
    subst piece pieces. rewrite IH by reflexivity. reflexivity.
Qed.

Lemma complete_lines_tail (text tail : string) :
  Js.split_lf tail = [tail] ->
  OpenAIProvider.complete_lines (text +:+ tail)
  = OpenAIProvider.complete_lines text.
Proof.
  intros Htail. rewrite complete_lines_app.
  unfold OpenAIProvider.complete_lines at 2.
  rewrite split_lf_whole_app by (apply split_lf_pending || exact Htail).
  cbn [removelast]. now rewrite app_nil_r.
Qed.

Lemma joined_app (a b : list string) :
  OpenAIProvider.joined (a ++ b)
  = OpenAIProvider.joined a +:+ OpenAIProvider.joined b.
Proof.
  induction a as [| x a IH]; [reflexivity |].
  cbn [app OpenAIProvider.joined]. now rewrite IH, string_app_assoc.
Qed.

End NoLineFeed.

Section AdapterStreams.

Variable JSON_parse : string -> option Json.value.

(** The OpenAI adapter's own loop is the shared loop over its handling of
    a line. *)
Lemma openai_on_lines_shared (lines : list string) :
  OpenAIProvider.on_lines JSON_parse lines
  = SseLoop.on_lines (OpenAIProvider.on_line JSON_parse) lines.
Proof.
  induction lines as [| line lines IH]; simpl; [reflexivity |].
  now rewrite IH.
Qed.

Lemma end_marker_openai :
  OpenAIProvider.on_line JSON_parse "data: [DONE]"
  = OpenAIProvider.yielded_and_returned [OpenAIProvider.done_chunk].
Proof. reflexivity. Qed.

Lemma end_marker_claude :
  ClaudeStream.on_line JSON_parse "data: [DONE]"
  = OpenAIProvider.yielded_and_returned [OpenAIProvider.done_chunk].
Proof. reflexivity. Qed.

Lemma end_marker_moonshot :
  MoonshotProvider.on_line JSON_parse "data: [DONE]"
  = OpenAIProvider.yielded_and_returned [OpenAIProvider.done_chunk].
Proof. reflexivity. Qed.

Lemma claude_on_line_not_end_marker (line : string) :
  line <> "data: [DONE]" ->
  exists chunks, ClaudeStream.on_line JSON_parse line = OpenAIProvider.yielded chunks.
Proof.
  intros Hline. unfold ClaudeStream.on_line.
  destruct (String.prefix "data: " line) eqn:Hp; [| eauto].
  cbv zeta. destruct (decide (Js.string_slice 6 line = "[DONE]")) as [Hd | _].
  - exfalso. apply Hline. apply prefix_slice in Hp. rewrite Hp.
    change (String.length "data: ") with 6%nat. now rewrite Hd.
  - destruct (JSON_parse _) as [parsed |]; [| eauto].
    destruct (ClaudeStream.chunks_of parsed); eauto.
Qed.

Lemma moonshot_on_line_not_end_marker (line : string) :
  line <> "data: [DONE]" ->
  exists chunks,
    MoonshotProvider.on_line JSON_parse line = OpenAIProvider.yielded chunks.
Proof.
  intros Hline. unfold MoonshotProvider.on_line.
  destruct (String.prefix "data: " line) eqn:Hp; [| eauto].
  cbv zeta. destruct (decide (Js.string_slice 6 line = "[DONE]")) as [Hd | _].
  - exfalso. apply Hline. apply prefix_slice in Hp. rewrite Hp.
    change (String.length "data: ") with 6%nat. now rewrite Hd.
  - destruct (JSON_parse _) as [parsed |]; [| eauto].
    destruct (MoonshotProvider.chunks_of parsed); eauto.
Qed.

Lemma sse_before_end_marker (on_line : string -> OpenAIProvider.LineResult)
      (lines : list string) :
  (forall line, line <> "data: [DONE]" ->
                exists chunks, on_line line = OpenAIProvider.yielded chunks) ->
  Forall (fun line => line <> "data: [DONE]") lines ->
  snd (SseLoop.on_lines on_line lines) = false.
Proof.
  intros Hh. induction 1 as [| line lines Hline _ IH]; simpl; [reflexivity |].
  destruct (Hh line Hline) as [chunks ->].
  destruct (SseLoop.on_lines on_line lines). exact IH.
Qed.

End AdapterStreams.

(** X11.  The chunks an adapter yields depend only on the text received,
    not on how the network cut it into reads: two series of reads with the
    same joined text give the same chunk stream, for the OpenAI, Anthropic,
    Moonshot and local adapters and any [JSON.parse]. *)
Theorem X11_stream_ignores_read_boundaries
        (JSON_parse : string -> option Json.value) (reads1 reads2 : list string) :
  OpenAIProvider.joined reads1 = OpenAIProvider.joined reads2 ->
  OpenAIProvider.stream JSON_parse reads1 = OpenAIProvider.stream JSON_parse reads2
  /\ ClaudeStream.stream JSON_parse reads1 = ClaudeStream.stream JSON_parse reads2
  /\ MoonshotProvider.stream JSON_parse reads1
     = MoonshotProvider.stream JSON_parse reads2
  /\ LocalProvider.stream JSON_parse reads1 = LocalProvider.stream JSON_parse reads2.
Proof.
  intros Hsame. split; [| split; [| split]].
  - now rewrite !stream_lines, Hsame.
  - unfold ClaudeStream.stream. now rewrite !sse_stream_lines, Hsame.
  - unfold MoonshotProvider.stream. now rewrite !sse_stream_lines, Hsame.
  - unfold LocalProvider.stream. now rewrite !sse_stream_lines, Hsame.
Qed.

Lemma X11_stream_ignores_read_boundaries_witness :
  let whole := [Sample.delta_line "Hel" +:+ Js.nl +:+ Sample.finish_line +:+ Js.nl] in
  let cut := [Sample.delta_line "Hel"; Js.nl +:+ "data: {";
              Js.string_slice 7 Sample.finish_line +:+ Js.nl] in
  OpenAIProvider.stream JsonFragment.parse cut
  = OpenAIProvider.stream JsonFragment.parse whole
  /\ OpenAIProvider.stream JsonFragment.parse whole
     = [OpenAIProvider.content_chunk (Json.str "Hel");
        OpenAIProvider.finish_chunk (Json.str "stop") None].
Proof.
  intros whole cut.
  destruct (X11_stream_ignores_read_boundaries JsonFragment.parse cut whole)
    as [Hopenai _].
  - vm_compute. reflexivity.
  - split; [exact Hopenai | vm_compute; reflexivity].
Defined.

(** X12.  The end marker ends the stream: when the first complete line
    [data: [DONE]] comes after the lines [pre], the adapter yields the
    chunks of [pre], then [{ done: true }], and nothing of what follows,
    for the OpenAI, Anthropic and Moonshot adapters. *)
Theorem X12_end_marker_stops_stream
        (JSON_parse : string -> option Json.value)
        (reads pre post : list string) :
  OpenAIProvider.complete_lines (OpenAIProvider.joined reads)
  = pre ++ "data: [DONE]" :: post ->
  Forall (fun line => line <> "data: [DONE]") pre ->
  OpenAIProvider.stream JSON_parse reads
  = fst (OpenAIProvider.on_lines JSON_parse pre) ++ [OpenAIProvider.done_chunk]
  /\ ClaudeStream.stream JSON_parse reads
     = fst (SseLoop.on_lines (ClaudeStream.on_line JSON_parse) pre)
         ++ [OpenAIProvider.done_chunk]
  /\ MoonshotProvider.stream JSON_parse reads
     = fst (SseLoop.on_lines (MoonshotProvider.on_line JSON_parse) pre)
         ++ [OpenAIProvider.done_chunk].
Proof.
  intros Hlines Hpre. split; [| split].
  - rewrite stream_lines, Hlines, !openai_on_lines_shared.
    apply sse_on_lines_end_marker; [apply end_marker_openai |].
    rewrite <- openai_on_lines_shared.
    now apply on_lines_before_end_marker.
  - unfold ClaudeStream.stream. rewrite sse_stream_lines, Hlines.
    apply sse_on_lines_end_marker; [apply end_marker_claude |].
    apply sse_before_end_marker; [apply claude_on_line_not_end_marker | exact Hpre].
  - unfold MoonshotProvider.stream. rewrite sse_stream_lines, Hlines.
    apply sse_on_lines_end_marker; [apply end_marker_moonshot |].
    apply sse_before_end_marker;
      [apply moonshot_on_line_not_end_marker | exact Hpre].
Qed.

Lemma X12_end_marker_stops_stream_witness :
  OpenAIProvider.stream JsonFragment.parse
    [Sample.delta_line "Hel" +:+ Js.nl +:+ "data: [DONE]" +:+ Js.nl
       +:+ Sample.delta_line "late" +:+ Js.nl]
  = [OpenAIProvider.content_chunk (Json.str "Hel"); OpenAIProvider.done_chunk].
Proof.
  destruct (X12_end_marker_stops_stream JsonFragment.parse
              [Sample.delta_line "Hel" +:+ Js.nl +:+ "data: [DONE]" +:+ Js.nl
                 +:+ Sample.delta_line "late" +:+ Js.nl]
              [Sample.delta_line "Hel"] [Sample.delta_line "late"])
    as [Hopenai _].
  - vm_compute. reflexivity.
  - repeat constructor. discriminate.
  - rewrite Hopenai. vm_compute. reflexivity.
Defined.

(** X13.  Text after the last line feed is never handled: a final read
    without a line feed adds no chunk, so an event whose line is not
    terminated when the body ends is lost, for every adapter. *)
Theorem X13_unterminated_tail_is_dropped
        (JSON_parse : string -> option Json.value)
        (reads : list string) (tail : string) :
  Js.split_lf tail = [tail] ->
  OpenAIProvider.stream JSON_parse (reads ++ [tail])
  = OpenAIProvider.stream JSON_parse reads
  /\ ClaudeStream.stream JSON_parse (reads ++ [tail])
     = ClaudeStream.stream JSON_parse reads
  /\ MoonshotProvider.stream JSON_parse (reads ++ [tail])
     = MoonshotProvider.stream JSON_parse reads
  /\ LocalProvider.stream JSON_parse (reads ++ [tail])
     = LocalProvider.stream JSON_parse reads.
Proof.
  intros Htail.
  assert (Hlines : OpenAIProvider.complete_lines
                     (OpenAIProvider.joined (reads ++ [tail]))
                   = OpenAIProvider.complete_lines (OpenAIProvider.joined reads)).
  { rewrite joined_app. cbn [OpenAIProvider.joined].
    rewrite string_app_empty_r. now apply complete_lines_tail. }
  split; [| split; [| split]].
  - now rewrite !stream_lines, Hlines.
  - unfold ClaudeStream.stream. now rewrite !sse_stream_lines, Hlines.
  - unfold MoonshotProvider.stream. now rewrite !sse_stream_lines, Hlines.
  - unfold LocalProvider.stream. now rewrite !sse_stream_lines, Hlines.
Qed.

Lemma X13_unterminated_tail_is_dropped_witness :
  OpenAIProvider.stream JsonFragment.parse
    ([Sample.delta_line "Hel" +:+ Js.nl] ++ [Sample.delta_line "lo"])
  = [OpenAIProvider.content_chunk (Json.str "Hel")].
Proof.
  destruct (X13_unterminated_tail_is_dropped JsonFragment.parse
              [Sample.delta_line "Hel" +:+ Js.nl] (Sample.delta_line "lo"))
    as [Hopenai _].
  - vm_compute. reflexivity.
  - rewrite Hopenai. vm_compute. reflexivity.
Defined.

(* ===================================================================== *)
(** * How the adapters compare                                            *)
(* ===================================================================== *)

Section AdapterComparison.

Variable JSON_parse : string -> option Json.value.

Lemma moonshot_chunks_of (parsed : Json.value) :
  MoonshotProvider.chunks_of parsed
  = option_map (List.filter OpenAIProvider.no_tool_calls) (OpenAIProvider.chunks_of parsed).
Proof.
  unfold MoonshotProvider.chunks_of, OpenAIProvider.chunks_of.
  destruct parsed; try reflexivity; cbn [option_map]; f_equal;
    rewrite !List.filter_app;
    destruct (OpenAIProvider.delta_content _) as [c |];
    try destruct (Json.truthy (Some c));
    destruct (OpenAIProvider.delta_tool_calls _) as [tc |];
    try destruct (Json.truthy (Some tc));
    destruct (OpenAIProvider.finish_reason _) as [fr |];
    try destruct (Json.truthy (Some fr)); reflexivity.
Qed.

Lemma moonshot_on_line (line : string) :
  MoonshotProvider.on_line JSON_parse line
  = match OpenAIProvider.on_line JSON_parse line with
    | OpenAIProvider.yielded chunks =>
        OpenAIProvider.yielded (List.filter OpenAIProvider.no_tool_calls chunks)
    | OpenAIProvider.yielded_and_returned chunks =>
        OpenAIProvider.yielded_and_returned (List.filter OpenAIProvider.no_tool_calls chunks)
    end.
Proof.
  unfold MoonshotProvider.on_line, OpenAIProvider.on_line.
  destruct (String.prefix "data: " line); [| reflexivity].
  cbv zeta. destruct (decide (_ = "[DONE]")); [reflexivity |].
  destruct (JSON_parse _) as [parsed |]; [| reflexivity].
  rewrite moonshot_chunks_of.
  destruct (OpenAIProvider.chunks_of parsed); reflexivity.
Qed.

Lemma moonshot_on_lines (lines : list string) :
  SseLoop.on_lines (MoonshotProvider.on_line JSON_parse) lines
  = (List.filter OpenAIProvider.no_tool_calls (fst (OpenAIProvider.on_lines JSON_parse lines)),
     snd (OpenAIProvider.on_lines JSON_parse lines)).
Proof.
  induction lines as [| line lines IH]; [reflexivity |].
  cbn [SseLoop.on_lines OpenAIProvider.on_lines].
  rewrite moonshot_on_line, IH.
  destruct (OpenAIProvider.on_line JSON_parse line) as [chunks | chunks];
    [| reflexivity].
  destruct (OpenAIProvider.on_lines JSON_parse lines) as [out r].
  cbn [fst snd]. now rewrite List.filter_app.
Qed.

Lemma local_on_lines (lines : list string) :
  SseLoop.on_lines (LocalProvider.on_line JSON_parse) lines
  = SseLoop.on_lines (MoonshotProvider.on_line JSON_parse) lines.
Proof. reflexivity. Qed.

End AdapterComparison.

(** X14.  On the same received text, the Moonshot and the local adapter
    yield exactly the chunks of the OpenAI adapter without its tool-call
    chunks, in the same order: content and finish chunks are the same,
    tool-call deltas are dropped. *)
Theorem X14_compatible_adapters_drop_tool_call_chunks
        (JSON_parse : string -> option Json.value) (reads : list string) :
  MoonshotProvider.stream JSON_parse reads
  = List.filter OpenAIProvider.no_tool_calls (OpenAIProvider.stream JSON_parse reads)
  /\ LocalProvider.stream JSON_parse reads
     = MoonshotProvider.stream JSON_parse reads.
Proof.
  split.
  - unfold MoonshotProvider.stream.
    now rewrite sse_stream_lines, stream_lines, moonshot_on_lines.
  - unfold LocalProvider.stream, MoonshotProvider.stream.
    now rewrite !sse_stream_lines, local_on_lines.
Qed.

Section FormatMessagesFacts.

Lemma well_formed_content (msg : Message) :
  PromptEngine.well_formed msg = true ->
  Js.truthy_string (id msg) = true /\ Js.truthy_string (content msg) = true.
Proof.
  unfold PromptEngine.well_formed.
  destruct (Js.truthy_string (id msg)), (Js.truthy_string (content msg));
    simpl; rewrite ?orb_true_r; try discriminate; auto.
Qed.

Lemma well_formed_iff (msg : Message) :
  PromptEngine.well_formed msg = true <-> id msg <> "" /\ content msg <> "".
Proof.
  unfold PromptEngine.well_formed, Js.truthy_string.
  destruct (decide (id msg = "")) as [Hi | Hi],
           (decide (content msg = "")) as [Hc | Hc];
    destruct (role msg); simpl; split; try discriminate; try tauto;
    intros _; reflexivity.
Qed.

Lemma keep_moonshot_local (msg : Message) :
  MoonshotProvider.keep msg = true -> LocalProvider.keep msg = true.
Proof.
  unfold MoonshotProvider.keep, LocalProvider.keep.
  destruct (role msg); simpl;
    destruct (Js.truthy_string (content msg)); simpl;
    destruct (ClaudeProvider.trims_to_empty (content msg)); simpl; auto.
Qed.

Lemma keep_claude_openai (msg : Message) :
  ClaudeProvider.keep msg = true -> OpenAIProvider.keep msg = true.
Proof.
  unfold ClaudeProvider.keep, OpenAIProvider.keep.
  destruct (role msg); simpl;
    destruct (Js.truthy_string (content msg)); simpl;
    destruct (ClaudeProvider.trims_to_empty (content msg)); simpl;
    try discriminate; auto.
Qed.

Lemma filter_keeps_all {A : Type} (f : A -> bool) (l : list A) :
  Forall (fun x => f x = true) l -> List.filter f l = l.
Proof.
  induction 1 as [| x l Hx _ IH]; simpl; [reflexivity |].
  rewrite Hx. now f_equal.
Qed.

End FormatMessagesFacts.

(** X15.  The adapters differ in what they refuse to send, in a chain:
    whatever the Moonshot adapter sends, the local and Anthropic adapters
    send too (these two apply the same test), and whatever they send the
    OpenAI adapter sends.  The differences are a system message with empty
    content (dropped by Moonshot only) and an assistant message with blank
    content that carries tool calls (sent by OpenAI only).  No adapter
    sends a user or tool message with empty content. *)
Theorem X15_adapter_filters_are_nested (msg : Message) :
  (MoonshotProvider.keep msg = true -> LocalProvider.keep msg = true)
  /\ LocalProvider.keep msg = ClaudeProvider.keep msg
  /\ (ClaudeProvider.keep msg = true -> OpenAIProvider.keep msg = true)
  /\ (role msg = system ->
      LocalProvider.keep msg = true
      /\ MoonshotProvider.keep msg = Js.truthy_string (content msg))
  /\ (role msg = assistant -> ClaudeProvider.trims_to_empty (content msg) = true ->
      ClaudeProvider.keep msg = false
      /\ OpenAIProvider.keep msg
         = match tool_calls msg with
           | Some (_ :: _) => true
           | _ => false
           end)
  /\ (role msg <> system -> role msg <> assistant -> content msg = "" ->
      OpenAIProvider.keep msg = false).
Proof.
  split; [apply keep_moonshot_local |].
  split; [reflexivity |].
  split; [apply keep_claude_openai |].
  unfold MoonshotProvider.keep, LocalProvider.keep, ClaudeProvider.keep,
    OpenAIProvider.keep.
  split; [| split].
  - intros Hr. rewrite Hr. split; reflexivity.
  - intros Hr Hblank. rewrite Hr. simpl. rewrite Hblank, orb_true_r.
    split; [reflexivity |].
    destruct (tool_calls msg) as [[| tc tcs] |]; reflexivity.
  - intros Hs Ha He. destruct (role msg); try congruence; simpl;
      rewrite He; reflexivity.
Qed.

Lemma X15_adapter_filters_are_nested_witness :
  let empty_system := Sample.msg "s" system "" in
  LocalProvider.keep empty_system = true
  /\ MoonshotProvider.keep empty_system = false.
Proof.
  intros empty_system.
  destruct (X15_adapter_filters_are_nested empty_system)
    as (_ & _ & _ & Hsys & _).
  destruct Hsys as [Hlocal Hmoon]; [reflexivity |].
  split; [exact Hlocal | rewrite Hmoon; reflexivity].
Defined.

(** X16.  A message list accepted by [validateMessages] in which no
    assistant message is blank loses no message in any adapter: each
    adapter sends one entry per message, in order. *)
Theorem X16_validated_messages_are_all_sent (msgs : list Message) :
  PromptEngine.validateMessages msgs = true ->
  Forall (fun m => role m = assistant ->
                   ClaudeProvider.trims_to_empty (content m) = false) msgs ->
  OpenAIProvider.formatMessages msgs = map OpenAIProvider.to_wire msgs
  /\ ClaudeProvider.formatMessages msgs = map ClaudeProvider.to_wire msgs
  /\ MoonshotProvider.formatMessages msgs = map MoonshotProvider.to_wire msgs
  /\ LocalProvider.formatMessages msgs = map MoonshotProvider.to_wire msgs.
Proof.
  intros Hvalid Hblank.
  assert (Hall : Forall (fun m => MoonshotProvider.keep m = true) msgs).
  { unfold PromptEngine.validateMessages in Hvalid.
    destruct (length msgs =? 0)%nat; [discriminate |].
    rewrite forallb_forall in Hvalid.
    apply Forall_forall. intros m Hm.
    pose proof (Hvalid m (proj1 (list_elem_of_In _ _) Hm)) as Hwf.
    apply well_formed_content in Hwf as [_ Hc].
    rewrite Forall_forall in Hblank. specialize (Hblank m Hm).
    unfold MoonshotProvider.keep. rewrite Hc. simpl.
    destruct (bool_decide (role m = assistant)) eqn:Hr; simpl; [| reflexivity].
    apply bool_decide_eq_true in Hr. now rewrite (Hblank Hr). }
  assert (Hlocal : Forall (fun m => LocalProvider.keep m = true) msgs).
  { eapply Forall_impl; [exact Hall |]. intros m.
    apply keep_moonshot_local. }
  assert (Hclaude : Forall (fun m => ClaudeProvider.keep m = true) msgs).
  { eapply Forall_impl; [exact Hlocal |]. intros m Hm.
    unfold LocalProvider.keep in Hm. exact Hm. }
  assert (Hopenai : Forall (fun m => OpenAIProvider.keep m = true) msgs).
  { eapply Forall_impl; [exact Hclaude |]. intros m.
    apply keep_claude_openai. }
  unfold OpenAIProvider.formatMessages, ClaudeProvider.formatMessages,
    MoonshotProvider.formatMessages, LocalProvider.formatMessages.
  now rewrite !filter_keeps_all by assumption.
Qed.

Lemma X16_validated_messages_are_all_sent_witness :
  let msgs := [Sample.msg "s" system "Be brief."; Sample.msg "u" user "hi";
               Sample.msg "a" assistant "hello"] in
  length (OpenAIProvider.formatMessages msgs) = 3%nat
  /\ length (ClaudeProvider.formatMessages msgs) = 3%nat.
Proof.
  intros msgs.
  destruct (X16_validated_messages_are_all_sent msgs) as (Ho & Hc & _).
  - reflexivity.
  - repeat constructor; intros; try discriminate; reflexivity.
  - rewrite Ho, Hc. split; reflexivity.
Defined.

(* ===================================================================== *)
(** * Further properties of the prompt composer                           *)
(* ===================================================================== *)

Section PromptEngineMore.

Import PromptEngine.

Lemma run_hooks_without_hooks (ps : list ChatPlugin) (c : PluginContext) :
  Forall (fun p => beforeSend p = None) ps ->
  run_hooks ps (obj c) = resolved (pc_messages c).
Proof.
  induction 1 as [| p ps Hp _ IH]; simpl; [reflexivity |]. now rewrite Hp.
Qed.

Lemma leading_system_split (msgs : list Message) :
  Forall (fun m => role m = system) msgs
  \/ exists sys first rest,
       msgs = sys ++ first :: rest
       /\ Forall (fun m => role m = system) sys
       /\ role first <> system.
Proof.
  induction msgs as [| m msgs IH]; [left; constructor |].
  destruct (decide (role m = system)) as [Hs | Hs].
  - destruct IH as [Hall | (sys & first & rest & -> & Hsys & Hfirst)].
    + left. now constructor.
    + right. exists (m :: sys), first, rest. repeat split; auto.
  - right. exists [], m, msgs. repeat split; auto.
Qed.

Lemma filter_non_system_fixed (msgs : list Message) :
  Forall (fun m => role m <> system) msgs ->
  filter (fun m => role m <> system) msgs = msgs.
Proof.
  induction 1 as [| m msgs Hm _ IH]; [reflexivity |].
  rewrite filter_cons_True by exact Hm. now rewrite IH.
Qed.

End PromptEngineMore.

(** X17.  Without [beforeSend] hooks (no plugin list, an empty one, or
    plugins that have no such hook), [compose] returns the window's
    messages unchanged and in order, preceded by one synthesized system
    message when a non-empty prompt is given; an absent or empty prompt
    adds nothing. *)
Theorem X17_compose_without_hooks
        (t_id t_stamp : Z) (config : PromptEngine.PromptEngineConfig) :
  match PromptEngine.plugins config with
  | Some ps => Forall (fun p => PromptEngine.beforeSend p = None) ps
  | None => True
  end ->
  PromptEngine.compose t_id t_stamp config
  = PromptEngine.resolved
      (match PromptEngine.systemPrompt config with
       | Some p =>
           if decide (p = "") then PromptEngine.messages config
           else PromptEngine.system_message t_id t_stamp p
                  :: PromptEngine.messages config
       | None => PromptEngine.messages config
       end).
Proof.
  intros Hhooks. unfold PromptEngine.compose.
  assert (Hcomposed :
    (match PromptEngine.systemPrompt config with
     | Some p => if Js.truthy_string p
                 then [PromptEngine.system_message t_id t_stamp p] else []
     | None => []
     end) ++ PromptEngine.messages config
    = match PromptEngine.systemPrompt config with
      | Some p =>
          if decide (p = "") then PromptEngine.messages config
          else PromptEngine.system_message t_id t_stamp p
                 :: PromptEngine.messages config
      | None => PromptEngine.messages config
      end).
  { destruct (PromptEngine.systemPrompt config) as [p |]; [| reflexivity].
    unfold Js.truthy_string. destruct (decide (p = "")); reflexivity. }
  destruct (PromptEngine.plugins config) as [ps |]; [| now rewrite Hcomposed].
  destruct (0 <? length ps)%nat; [| now rewrite Hcomposed].
  rewrite run_hooks_without_hooks by exact Hhooks. simpl.
  now rewrite Hcomposed.
Qed.

Lemma X17_compose_without_hooks_witness :
  PromptEngine.compose 1 2
    {| PromptEngine.systemPrompt := Some "";
       PromptEngine.messages := [Sample.msg "u" user "hi"];
       PromptEngine.plugins :=
         Some [ {| PromptEngine.plugin_name := "idle";
                   PromptEngine.beforeSend := None |} ];
       PromptEngine.jsonSchema := None;
       PromptEngine.tools := None |}
  = PromptEngine.resolved [Sample.msg "u" user "hi"].
Proof.
  apply (X17_compose_without_hooks 1 2).
  simpl. repeat constructor.
Defined.

(** X18.  A [beforeSend] hook that throws (or whose promise rejects) never
    aborts composition: when it left the context as it found it, the rest
    of the chain runs as if the plugin were not registered. *)
Theorem X18_throwing_hook_is_skipped
        (plugin : PromptEngine.ChatPlugin) (hook : PromptEngine.Hook)
        (rest : list PromptEngine.ChatPlugin) (ctx : PromptEngine.PluginContext) :
  PromptEngine.beforeSend plugin = Some hook ->
  PromptEngine.completion (hook ctx) = PromptEngine.thrown ->
  PromptEngine.arg_after (hook ctx) = ctx ->
  PromptEngine.run_hooks (plugin :: rest) (PromptEngine.obj ctx)
  = PromptEngine.run_hooks rest (PromptEngine.obj ctx).
Proof.
  intros Hhook Hthrown Hsame. simpl. rewrite Hhook.
  unfold PromptEngine.applyPlugin. now rewrite Hthrown, Hsame.
Qed.

(** X19.  Hooks run in registration order and each one receives what the
    previous ones produced: running a chain [ps ++ qs] is running [qs] on
    the context that the loop holds after [ps]; a hook that returns a
    context hands exactly that context to the rest of the chain; a plugin
    without a hook is passed over; and at the end of the chain the
    messages of the context then held are returned.  So two hooks that
    each add a message yield the two messages in the order of the
    plugins, and in the other order when the plugins are swapped. *)
Theorem X19_hooks_are_threaded_in_order
        (ps qs : list PromptEngine.ChatPlugin) (c : PromptEngine.PluginContext) :
  PromptEngine.run_hooks (ps ++ qs) (PromptEngine.obj c)
  = PromptEngine.run_hooks qs (PromptEngine.hooks_context ps (PromptEngine.obj c))
  /\ (forall (plugin : PromptEngine.ChatPlugin) (hook : PromptEngine.Hook)
             (rest : list PromptEngine.ChatPlugin)
             (c0 r : PromptEngine.PluginContext),
        PromptEngine.beforeSend plugin = Some hook ->
        PromptEngine.completion (hook c0)
        = PromptEngine.returned (PromptEngine.obj r) ->
        PromptEngine.hooks_context [plugin] (PromptEngine.obj c0)
        = PromptEngine.obj r
        /\ PromptEngine.run_hooks (plugin :: rest) (PromptEngine.obj c0)
           = PromptEngine.run_hooks rest (PromptEngine.obj r))
  /\ (forall (plugin : PromptEngine.ChatPlugin)
             (rest : list PromptEngine.ChatPlugin)
             (pc : PromptEngine.JsRef PromptEngine.PluginContext),
        PromptEngine.beforeSend plugin = None ->
        PromptEngine.hooks_context [plugin] pc = pc
        /\ PromptEngine.run_hooks (plugin :: rest) pc
           = PromptEngine.run_hooks rest pc)
  /\ PromptEngine.run_hooks [] (PromptEngine.obj c)
     = PromptEngine.resolved (PromptEngine.pc_messages c)
  /\ (forall (u : Message) (l1 l2 : string),
        let first := Sample.plugin "first" (Sample.labelling_hook l1) in
        let second := Sample.plugin "second" (Sample.labelling_hook l2) in
        PromptEngine.run_hooks [first; second]
          (PromptEngine.obj (Sample.context [u]))
        = PromptEngine.resolved [u; Sample.msg l1 user l1; Sample.msg l2 user l2]
        /\ PromptEngine.run_hooks [second; first]
             (PromptEngine.obj (Sample.context [u]))
           = PromptEngine.resolved
               [u; Sample.msg l2 user l2; Sample.msg l1 user l1]).
Proof.
  split; [apply run_hooks_app |]. split; [| split; [| split]].
  - intros plugin hook rest c0 r Hhook Hret. simpl. rewrite Hhook.
    unfold PromptEngine.applyPlugin. rewrite Hret. split; reflexivity.
  - intros plugin rest pc Hhook. simpl. rewrite Hhook. split; reflexivity.
  - reflexivity.
  - intros u l1 l2. split; reflexivity.
Qed.

Lemma X19_hooks_are_threaded_in_order_witness :
  let u := Sample.msg "u" user "hi" in
  let first := Sample.plugin "first" (Sample.labelling_hook "a") in
  let second := Sample.plugin "second" (Sample.labelling_hook "b") in
  PromptEngine.run_hooks ([first] ++ [second])
    (PromptEngine.obj (Sample.context [u]))
  = PromptEngine.resolved [u; Sample.msg "a" user "a"; Sample.msg "b" user "b"].
Proof.
  intros u first second.
  destruct (X19_hooks_are_threaded_in_order [first] [second] (Sample.context [u]))
    as (Happ & Hstep & _ & Hend & _).
  rewrite Happ.
  destruct (Hstep first (Sample.labelling_hook "a") []
              (Sample.context [u])
              (Sample.context [u; Sample.msg "a" user "a"])
              eq_refl eq_refl) as [-> _].
  destruct (Hstep second (Sample.labelling_hook "b") []
              (Sample.context [u; Sample.msg "a" user "a"])
              (Sample.context [u; Sample.msg "a" user "a"; Sample.msg "b" user "b"])
              eq_refl eq_refl) as [_ ->].
  reflexivity.
Defined.

(** X20.  The transform for the vendor ["claude"] is idempotent: applying
    it to its own output changes nothing. *)
Theorem X20_formatForProvider_claude_idempotent (msgs : list Message) :
  PromptEngine.formatForProvider
    (PromptEngine.formatForProvider msgs "claude") "claude"
  = PromptEngine.formatForProvider msgs "claude".
Proof.
  unfold PromptEngine.formatForProvider.
  destruct (decide ("claude" = "claude")); [| congruence].
  destruct (leading_system_split msgs)
    as [Hall | (sys & first & rest & -> & Hsys & Hfirst)].
  - rewrite (formatForClaude_only_system msgs Hall).
    apply (formatForClaude_only_system msgs Hall).
  - rewrite formatForClaude_shape by assumption.
    set (first' := with_content _ first).
    assert (Hrole : role first' <> system) by exact Hfirst.
    pose proof (formatForClaude_shape [] first'
                  (filter (fun m => role m <> system) rest)
                  ltac:(constructor) Hrole) as Hagain.
    change ([] ++ first' :: filter (fun m => role m <> system) rest)
      with (first' :: filter (fun m => role m <> system) rest) in Hagain.
    rewrite Hagain.
    change (PromptEngine.gathered [] +:+ content first') with (content first').
    rewrite with_content_same. f_equal.
    apply filter_non_system_fixed, Forall_forall.
    intros m Hm. apply list_elem_of_filter in Hm. tauto.
Qed.

Lemma X18_throwing_hook_is_skipped_witness :
  let ctx := Sample.context [Sample.msg "u" user "hi"] in
  PromptEngine.run_hooks
    [Sample.plugin "failing" Sample.failing_hook;
     Sample.plugin "tagging" Sample.tagging_hook]
    (PromptEngine.obj ctx)
  = PromptEngine.resolved
      [Sample.msg "u" user "hi"; Sample.msg "tag" user "tagged"].
Proof.
  intros ctx.
  rewrite (X18_throwing_hook_is_skipped
             (Sample.plugin "failing" Sample.failing_hook) Sample.failing_hook
             [Sample.plugin "tagging" Sample.tagging_hook] ctx);
    reflexivity.
Defined.

(* ===================================================================== *)
(** * Further properties of the stream accumulator                        *)
(* ===================================================================== *)

Section StreamingEngineMore.

Import StreamingEngine.

Variable handler : StreamHandler.

Lemma apply_chunk_running (chunk : StreamChunk) (m : Message) :
  apply_chunk chunk (running m) = running (absorb chunk m).
Proof.
  unfold apply_chunk, running, absorb, chunk_text.
  destruct (chunk_content chunk) as [text |]; simpl.
  - unfold Js.truthy_string. destruct (decide (text = "")) as [-> | _].
    + rewrite string_app_empty_r.
      destruct (chunk_toolCalls chunk); destruct m; reflexivity.
    + destruct (chunk_toolCalls chunk); reflexivity.
  - rewrite string_app_empty_r.
    destruct (chunk_toolCalls chunk); destruct m; reflexivity.
Qed.

Lemma set_content_running (m : Message) : set_content (running m) = running m.
Proof. unfold set_content, running. simpl. now rewrite with_content_same. Qed.

Lemma consumed_all (chunks : list StreamChunk) :
  Forall (fun c => terminal c = false) chunks -> consumed chunks = chunks.
Proof.
  induction 1 as [| c chunks Hc _ IH]; simpl; [reflexivity |].
  now rewrite Hc, IH.
Qed.

(** The loop on a run of chunks followed by other events: it stops at the
    first terminal chunk, else goes on with the events that follow. *)
Lemma consume_chunks (chunks : list StreamChunk) :
  forall (tail : list Event) (m : Message) (calls0 : list Call),
    consume handler (map yields chunks ++ tail) (running m) calls0
    = if existsb terminal chunks
      then (fell_through, running (absorb_all (consumed chunks) m),
            calls0 ++ onChunk_calls handler (consumed chunks))
      else consume handler tail (running (absorb_all chunks m))
             (calls0 ++ onChunk_calls handler chunks).
Proof.
  unfold onChunk_calls.
  induction chunks as [| c chunks IH]; intros tail m calls0.
  - simpl. destruct (onChunk handler); now rewrite app_nil_r.
  - cbn [map app consume existsb consumed].
    change (aborted (running m)) with false. cbv iota.
    rewrite apply_chunk_running.
    destruct (terminal c) eqn:Hc; cbn [orb].
    + rewrite set_content_running. cbn [absorb_all fold_left map].
      destruct (onChunk handler); [reflexivity | now rewrite app_nil_r].
    + rewrite IH. cbn [absorb_all fold_left map].
      destruct (existsb terminal chunks); destruct (onChunk handler);
        rewrite <- ?app_assoc, ?app_nil_r; reflexivity.
Qed.

Lemma absorb_all_fields (chunks : list StreamChunk) :
  forall m : Message,
    absorb_all chunks m
    = {| id := id m; role := role m;
         content := content m +:+ texts chunks; name := name m;
         tool_calls := latest_tool_calls chunks (tool_calls m);
         tool_call_id := tool_call_id m; timestamp := timestamp m |}.
Proof.
  induction chunks as [| c chunks IH]; intros m.
  - simpl. rewrite string_app_empty_r. now destruct m.
  - cbn [absorb_all fold_left texts latest_tool_calls].
    fold (absorb_all chunks (absorb c m)). rewrite IH. simpl.
    now rewrite string_app_assoc.
Qed.

Lemma existsb_terminal_consumed (chunks : list StreamChunk) :
  existsb terminal chunks = false -> consumed chunks = chunks.
Proof.
  intros He. apply consumed_all, Forall_forall. intros c Hc.
  destruct (terminal c) eqn:Ht; [| reflexivity].
  assert (existsb terminal chunks = true); [| congruence].
  apply existsb_exists. exists c. split; [now apply list_elem_of_In | exact Ht].
Qed.

Lemma stream_of_chunks (chunks : list StreamChunk) (tail : list Event)
      (msgId : string) (now : Z) (e : t) :
  (existsb terminal chunks = true \/ tail = []) ->
  let m := absorb_all (consumed chunks) (blank msgId now) in
  stream (map yields chunks ++ tail) handler msgId now e
  = {| settled := resolves (Some m);
       calls := onChunk_calls handler (consumed chunks)
                ++ (if onComplete handler then [called_onComplete m] else []);
       final := idle_with m |}.
Proof.
  intros Hend m. unfold stream.
  change (entry msgId now) with (running (blank msgId now)).
  rewrite consume_chunks.
  destruct (existsb terminal chunks) eqn:Hex.
  - cbn [currentMessage running app]. fold m.
    destruct (onComplete handler); [reflexivity | now rewrite app_nil_r].
  - destruct Hend as [Habs | ->]; [discriminate |].
    subst m. rewrite (existsb_terminal_consumed chunks Hex).
    cbn [consume currentMessage running app].
    destruct (onComplete handler); [reflexivity | now rewrite app_nil_r].
Qed.

End StreamingEngineMore.

(** X21.  For every series of chunks that the source yields without
    interruption, [stream] resolves with the assistant message whose
    content is the texts of the chunks up to and including the first
    terminal one, joined in order, and whose tool calls are those of the
    last such chunk that carries some; [onChunk] is invoked once for each
    of these chunks, in order, then [onComplete] once with the message. *)
Theorem X21_stream_accumulates
        (handler : StreamingEngine.StreamHandler) (chunks : list StreamChunk)
        (msgId : string) (now : Z) (e : StreamingEngine.t) :
  let run := StreamingEngine.stream (map StreamingEngine.yields chunks)
               handler msgId now e in
  let taken := StreamingEngine.consumed chunks in
  exists m : Message,
    StreamingEngine.settled run = StreamingEngine.resolves (Some m)
    /\ m = {| id := msgId; role := assistant;
              content := StreamingEngine.texts taken; name := None;
              tool_calls := StreamingEngine.latest_tool_calls taken None;
              tool_call_id := None; timestamp := Some now |}
    /\ StreamingEngine.calls run
       = (if StreamingEngine.onChunk handler
          then map StreamingEngine.called_onChunk taken else [])
         ++ (if StreamingEngine.onComplete handler
             then [StreamingEngine.called_onComplete m] else [])
    /\ StreamingEngine.isStreaming (StreamingEngine.final run) = false.
Proof.
  intros run taken. subst run.
  rewrite <- (app_nil_r (map StreamingEngine.yields chunks)).
  rewrite (stream_of_chunks handler chunks [] msgId now e) by (now right).
  fold taken. eexists. split; [reflexivity |].
  split; [apply absorb_all_fields |]. split; reflexivity.
Qed.

Section StreamingEngineEvents.

Import StreamingEngine.

Variable handler : StreamHandler.

Lemma consume_stops_at_terminal (pre post : list Event) (last_chunk : StreamChunk) :
  terminal last_chunk = true ->
  forall (e : t) (calls0 : list Call),
    consume handler (pre ++ yields last_chunk :: post) e calls0
    = consume handler (pre ++ [yields last_chunk]) e calls0.
Proof.
  intros Hterm. induction pre as [| ev pre IH]; intros e calls0.
  - cbn [app consume]. now rewrite Hterm.
  - cbn [app consume]. destruct ev as [chunk | |].
    + destruct (aborted e); [reflexivity |].
      destruct (terminal chunk); [reflexivity | apply IH].
    + reflexivity.
    + apply IH.
Qed.

Lemma existsb_terminal_false (chunks : list StreamChunk) :
  Forall (fun c => terminal c = false) chunks -> existsb terminal chunks = false.
Proof.
  induction 1 as [| c chunks Hc _ IH]; simpl; [reflexivity |].
  now rewrite Hc, IH.
Qed.

End StreamingEngineEvents.

(** X22.  Whatever happened before (chunks, cancel requests), once a
    terminal chunk is consumed nothing that follows it matters: the run is
    the same as if the source had ended with that chunk. *)
Theorem X22_nothing_after_terminal_chunk
        (handler : StreamingEngine.StreamHandler)
        (pre post : list StreamingEngine.Event) (last_chunk : StreamChunk)
        (msgId : string) (now : Z) (e : StreamingEngine.t) :
  StreamingEngine.terminal last_chunk = true ->
  StreamingEngine.stream (pre ++ StreamingEngine.yields last_chunk :: post)
    handler msgId now e
  = StreamingEngine.stream (pre ++ [StreamingEngine.yields last_chunk])
      handler msgId now e.
Proof.
  intros Hterm. unfold StreamingEngine.stream.
  now rewrite (consume_stops_at_terminal handler pre post last_chunk Hterm).
Qed.

Lemma X22_nothing_after_terminal_chunk_witness :
  StreamingEngine.settled
    (StreamingEngine.stream
       ([StreamingEngine.yields (Sample.text_chunk "Hel")]
          ++ StreamingEngine.yields Sample.stop_chunk
          :: [StreamingEngine.yields (Sample.text_chunk "late");
              StreamingEngine.source_throws])
       Sample.all_callbacks "m1" 7 StreamingEngine.initial)
  = StreamingEngine.resolves (Some (Sample.reply "m1" 7 "Hel")).
Proof.
  rewrite (X22_nothing_after_terminal_chunk Sample.all_callbacks
             [StreamingEngine.yields (Sample.text_chunk "Hel")]
             [StreamingEngine.yields (Sample.text_chunk "late");
              StreamingEngine.source_throws]
             Sample.stop_chunk "m1" 7 StreamingEngine.initial);
    reflexivity.
Defined.

(** X23.  When the source throws after some non-terminal chunks, [stream]
    rejects; [onChunk] has been invoked for each chunk received, [onError]
    is invoked once, [onComplete] is not invoked, and the engine is left
    not streaming. *)
Theorem X23_source_error_rejects
        (handler : StreamingEngine.StreamHandler) (chunks : list StreamChunk)
        (rest : list StreamingEngine.Event)
        (msgId : string) (now : Z) (e : StreamingEngine.t) :
  Forall (fun c => StreamingEngine.terminal c = false) chunks ->
  let run := StreamingEngine.stream
               (map StreamingEngine.yields chunks
                  ++ StreamingEngine.source_throws :: rest)
               handler msgId now e in
  StreamingEngine.settled run = StreamingEngine.rejects
  /\ StreamingEngine.calls run
     = (if StreamingEngine.onChunk handler
        then map StreamingEngine.called_onChunk chunks else [])
       ++ (if StreamingEngine.onError handler
           then [StreamingEngine.called_onError] else [])
  /\ (forall m, StreamingEngine.called_onComplete m ∉ StreamingEngine.calls run)
  /\ StreamingEngine.isStreaming (StreamingEngine.final run) = false.
Proof.
  intros Hnt run. subst run. unfold StreamingEngine.stream.
  change (StreamingEngine.entry msgId now)
    with (StreamingEngine.running (StreamingEngine.blank msgId now)).
  rewrite consume_chunks, (existsb_terminal_false chunks Hnt).
  cbn [StreamingEngine.consume StreamingEngine.settled StreamingEngine.calls
       StreamingEngine.final app].
  unfold StreamingEngine.onChunk_calls.
  assert (Hcalls :
    (if StreamingEngine.onError handler
     then (if StreamingEngine.onChunk handler
           then map StreamingEngine.called_onChunk chunks else [])
          ++ [StreamingEngine.called_onError]
     else if StreamingEngine.onChunk handler
          then map StreamingEngine.called_onChunk chunks else [])
    = (if StreamingEngine.onChunk handler
       then map StreamingEngine.called_onChunk chunks else [])
      ++ (if StreamingEngine.onError handler
          then [StreamingEngine.called_onError] else [])).
  { destruct (StreamingEngine.onError handler); [reflexivity |].
    now rewrite app_nil_r. }
  rewrite Hcalls. split; [reflexivity |]. split; [reflexivity |].
  split; [| reflexivity].
  intros m Hin. apply elem_of_app in Hin as [Hin | Hin].
  - destruct (StreamingEngine.onChunk handler); [| inversion Hin].
    apply list_elem_of_In, in_map_iff in Hin as (c & Hc & _). discriminate.
  - destruct (StreamingEngine.onError handler); [| inversion Hin].
    apply list_elem_of_singleton in Hin. discriminate.
Qed.

Lemma X23_source_error_rejects_witness :
  let run := StreamingEngine.stream
               (map StreamingEngine.yields [Sample.text_chunk "Hel"]
                  ++ StreamingEngine.source_throws :: [])
               Sample.all_callbacks "m1" 7 StreamingEngine.initial in
  StreamingEngine.settled run = StreamingEngine.rejects
  /\ StreamingEngine.calls run
     = [StreamingEngine.called_onChunk (Sample.text_chunk "Hel");
        StreamingEngine.called_onError].
Proof.
  intros run.
  destruct (X23_source_error_rejects Sample.all_callbacks
              [Sample.text_chunk "Hel"] [] "m1" 7 StreamingEngine.initial)
    as (Hs & Hc & _).
  - repeat constructor.
  - split; [exact Hs | exact Hc].
Defined.

(** X24.  Cancelling after any number of non-terminal chunks gives the
    run of a source that ends after those chunks: the message holds their
    texts, later chunks are ignored and the turn completes normally.  This
    holds whether a further chunk arrives after the cancel request or the
    source ends first. *)
Theorem X24_cancel_truncates_stream
        (handler : StreamingEngine.StreamHandler) (chunks : list StreamChunk)
        (next : StreamChunk) (rest : list StreamingEngine.Event)
        (msgId : string) (now : Z) (e : StreamingEngine.t) :
  Forall (fun c => StreamingEngine.terminal c = false) chunks ->
  StreamingEngine.stream
    (map StreamingEngine.yields chunks
       ++ StreamingEngine.cancel_called :: StreamingEngine.yields next :: rest)
    handler msgId now e
  = StreamingEngine.stream (map StreamingEngine.yields chunks) handler msgId now e
  /\ StreamingEngine.stream
       (map StreamingEngine.yields chunks ++ [StreamingEngine.cancel_called])
       handler msgId now e
     = StreamingEngine.stream (map StreamingEngine.yields chunks)
         handler msgId now e.
Proof.
  intros Hnt.
  rewrite <- (app_nil_r (map StreamingEngine.yields chunks)) at 2 4.
  unfold StreamingEngine.stream.
  change (StreamingEngine.entry msgId now)
    with (StreamingEngine.running (StreamingEngine.blank msgId now)).
  rewrite !consume_chunks, (existsb_terminal_false chunks Hnt).
  split; reflexivity.
Qed.

Lemma X24_cancel_truncates_stream_witness :
  StreamingEngine.settled
    (StreamingEngine.stream
       (map StreamingEngine.yields [Sample.text_chunk "Hel"; Sample.text_chunk "lo"]
          ++ StreamingEngine.cancel_called
          :: StreamingEngine.yields (Sample.text_chunk " there") :: [])
       Sample.all_callbacks "m1" 7 StreamingEngine.initial)
  = StreamingEngine.resolves (Some (Sample.reply "m1" 7 "Hello")).
Proof.
  destruct (X24_cancel_truncates_stream Sample.all_callbacks
              [Sample.text_chunk "Hel"; Sample.text_chunk "lo"]
              (Sample.text_chunk " there") [] "m1" 7 StreamingEngine.initial)
    as [Hcut _].
  - repeat constructor.
  - rewrite Hcut. reflexivity.
Defined.

(* ===================================================================== *)
(** * Properties of the registries                                        *)
(* ===================================================================== *)

Section JsMapFacts.

Context {V : Type}.

Implicit Types (m : JsMap.t V) (v : V).

Lemma jsmap_get_set_eq key v m : JsMap.get key (JsMap.set key v m) = Some v.
Proof.
  induction m as [| [k old] m IH]; simpl.
  - destruct (decide (key = key)); [reflexivity | congruence].
  - destruct (decide (k = key)) as [-> | Hne]; simpl.
    + destruct (decide (key = key)); [reflexivity | congruence].
    + destruct (decide (k = key)); [contradiction | exact IH].
Qed.

Lemma jsmap_get_set_ne key other v m :
  other <> key -> JsMap.get other (JsMap.set key v m) = JsMap.get other m.
Proof.
  intros Hne. induction m as [| [k old] m IH]; simpl.
  - destruct (decide (key = other)); [congruence | reflexivity].
  - destruct (decide (k = key)) as [-> | Hk]; simpl.
    + destruct (decide (key = other)); [congruence | reflexivity].
    + destruct (decide (k = other)); [reflexivity | exact IH].
Qed.

Lemma jsmap_get_keys key m : JsMap.get key m = None <-> key ∉ JsMap.keys m.
Proof.
  unfold JsMap.keys. induction m as [| [k v] m IH]; simpl.
  - split; [intros _ Hin; inversion Hin | reflexivity].
  - destruct (decide (k = key)) as [-> | Hne].
    + split; [discriminate | intros Hn; exfalso; apply Hn; now left].
    + rewrite IH. split.
      * intros Hn Hin. apply elem_of_cons in Hin as [-> | Hin]; [congruence | auto].
      * intros Hn Hin. apply Hn. now right.
Qed.

Lemma jsmap_keys_set key v m :
  JsMap.keys (JsMap.set key v m)
  = if decide (key ∈ JsMap.keys m) then JsMap.keys m else JsMap.keys m ++ [key].
Proof.
  unfold JsMap.keys. induction m as [| [k old] m IH]; simpl.
  - destruct (decide (key ∈ [])) as [Hin | _]; [inversion Hin | reflexivity].
  - destruct (decide (k = key)) as [-> | Hne]; simpl.
    + destruct (decide (key ∈ key :: map fst m)) as [_ | Hn]; [reflexivity |].
      exfalso. apply Hn. now left.
    + rewrite IH. destruct (decide (key ∈ map fst m)) as [Hin | Hn].
      * destruct (decide (key ∈ k :: map fst m)) as [_ | Hn']; [reflexivity |].
        exfalso. apply Hn'. now right.
      * destruct (decide (key ∈ k :: map fst m)) as [Hin' | _]; [| reflexivity].
        apply elem_of_cons in Hin' as [-> | Hin']; [congruence | contradiction].
Qed.

Lemma jsmap_keys_set_NoDup key v m :
  NoDup (JsMap.keys m) -> NoDup (JsMap.keys (JsMap.set key v m)).
Proof.
  intros Hnd. rewrite jsmap_keys_set.
  destruct (decide (key ∈ JsMap.keys m)) as [_ | Hn]; [exact Hnd |].
  apply NoDup_app. split; [exact Hnd |]. split; [| apply NoDup_singleton].
  intros x Hx Hin. apply list_elem_of_singleton in Hin. congruence.
Qed.

Lemma jsmap_delete_keys key m :
  NoDup (JsMap.keys m) ->
  NoDup (JsMap.keys (JsMap.delete key m))
  /\ (key ∉ JsMap.keys (JsMap.delete key m))
  /\ forall other, other <> key ->
       JsMap.get other (JsMap.delete key m) = JsMap.get other m.
Proof.
  unfold JsMap.keys. induction m as [| [k v] m IH]; simpl; intros Hnd.
  - repeat split; [constructor | intros Hin; inversion Hin].
  - apply NoDup_cons in Hnd as [Hk Hnd].
    destruct (decide (k = key)) as [-> | Hne].
    + repeat split; [exact Hnd | exact Hk |].
      intros other Ho. destruct (decide (key = other)); [congruence | reflexivity].
    + destruct (IH Hnd) as (Hnd' & Hgone & Hother). simpl. repeat split.
      * apply NoDup_cons. split; [| exact Hnd'].
        intros Hin. apply Hk. clear -Hin.
        induction m as [| [k' v'] m IHm]; simpl in *; [inversion Hin |].
        destruct (decide (k' = key)); [now right |].
        simpl in Hin. apply elem_of_cons in Hin as [-> | Hin]; [now left |].
        right. now apply IHm.
      * intros Hin. apply elem_of_cons in Hin as [-> | Hin]; [congruence | auto].
      * intros other Ho. destruct (decide (k = other)); [reflexivity | auto].
Qed.

End JsMapFacts.

Section ProviderHubFacts.

Variable Adapter : Type.
Variable name : Adapter -> string.

Lemma hub_ok_register (p : Adapter) (hub : ProviderHub.t Adapter) :
  ProviderHub.well_keyed Adapter name hub ->
  ProviderHub.well_keyed Adapter name (ProviderHub.register Adapter name p hub).
Proof.
  intros [Hnd Hnames]. split; [now apply jsmap_keys_set_NoDup |].
  unfold ProviderHub.register. clear Hnd.
  induction Hnames as [| [k v] hub Hkv Hrest IH]; simpl.
  - repeat constructor.
  - destruct (decide (k = name p)); constructor; auto.
Qed.

Lemma hub_ok_new_from (ps : list Adapter) :
  forall hub, ProviderHub.well_keyed Adapter name hub ->
    ProviderHub.well_keyed Adapter name
      (fold_left (fun h p => ProviderHub.register Adapter name p h) ps hub).
Proof.
  induction ps as [| p ps IH]; intros hub Hok; [exact Hok |].
  simpl. apply IH, hub_ok_register, Hok.
Qed.

Lemma keys_new_from (ps : list Adapter) :
  forall (hub : ProviderHub.t Adapter) (n : string),
    n ∈ JsMap.keys
          (fold_left (fun h p => ProviderHub.register Adapter name p h) ps hub)
    <-> n ∈ JsMap.keys hub \/ exists p, p ∈ ps /\ name p = n.
Proof.
  induction ps as [| p ps IH]; intros hub n; simpl.
  - split; [now left | intros [H | (p & Hp & _)]; [exact H | inversion Hp]].
  - rewrite IH. unfold ProviderHub.register. rewrite jsmap_keys_set.
    destruct (decide (name p ∈ JsMap.keys hub)) as [Hin | Hn].
    + split.
      * intros [H | (q & Hq & Hnq)]; [now left |].
        right. exists q. split; [now right | exact Hnq].
      * intros [H | (q & Hq & Hnq)]; [now left |].
        apply elem_of_cons in Hq as [-> | Hq]; [left; now rewrite <- Hnq |].
        right. eauto.
    + rewrite elem_of_app, list_elem_of_singleton. split.
      * intros [[H | ->] | (q & Hq & Hnq)].
        -- now left.
        -- right. exists p. split; [now left | reflexivity].
        -- right. exists q. split; [now right | exact Hnq].
      * intros [H | (q & Hq & Hnq)]; [left; now left |].
        apply elem_of_cons in Hq as [-> | Hq]; [left; now right |].
        right. eauto.
Qed.

Lemma hub_get_name (hub : ProviderHub.t Adapter) (n : string) (q : Adapter) :
  ProviderHub.well_keyed Adapter name hub -> JsMap.get n hub = Some q -> name q = n.
Proof.
  intros [_ Hnames]. induction Hnames as [| [k v] hub Hkv _ IH]; simpl;
    [discriminate |].
  destruct (decide (k = n)) as [<- | _]; [| exact IH].
  intros [= <-]. exact Hkv.
Qed.

End ProviderHubFacts.

(** X25.  Registering an adapter makes [getProvider] return it under its
    name and leaves every other name as it was; a name that was already
    registered keeps its place in [listProviders], a new one goes to the
    end; and an unknown name gives the error that lists the registered
    names. *)
Theorem X25_register_then_getProvider
        (Adapter : Type) (name : Adapter -> string)
        (p : Adapter) (hub : ProviderHub.t Adapter) (n : string) :
  let hub' := ProviderHub.register Adapter name p hub in
  ProviderHub.getProvider Adapter (name p) hub' = inl p
  /\ (n <> name p -> JsMap.get n hub' = JsMap.get n hub)
  /\ ProviderHub.listProviders Adapter hub'
     = (if decide (name p ∈ ProviderHub.listProviders Adapter hub)
        then ProviderHub.listProviders Adapter hub
        else ProviderHub.listProviders Adapter hub ++ [name p])
  /\ (n ∉ ProviderHub.listProviders Adapter hub ->
      ProviderHub.getProvider Adapter n hub
      = inr ("Provider " +:+ String "034" n +:+ String "034" " not found. Available: "
               +:+ Js.join ", " (ProviderHub.listProviders Adapter hub))).
Proof.
  intros hub'. subst hub'. unfold ProviderHub.getProvider, ProviderHub.register.
  rewrite jsmap_get_set_eq. split; [reflexivity |].
  split; [intros Hne; now apply jsmap_get_set_ne |].
  split; [apply jsmap_keys_set |].
  intros Hn. apply jsmap_get_keys in Hn. now rewrite Hn.
Qed.

(** X26.  In a hub built by the constructor from any list of adapters,
    [listProviders] holds each adapter name once, [getProvider] succeeds
    exactly for these names, and the adapter it returns carries the name
    it was asked for. *)
Theorem X26_hub_names_are_unique
        (Adapter : Type) (name : Adapter -> string) (defaults : list Adapter) :
  let hub := ProviderHub.new Adapter name defaults in
  NoDup (ProviderHub.listProviders Adapter hub)
  /\ (forall n, n ∈ ProviderHub.listProviders Adapter hub
                <-> exists p, p ∈ defaults /\ name p = n)
  /\ (forall p, p ∈ defaults ->
        exists q, ProviderHub.getProvider Adapter (name p) hub = inl q
                  /\ name q = name p)
  /\ (forall n, (forall p, p ∈ defaults -> name p <> n) ->
        exists message, ProviderHub.getProvider Adapter n hub = inr message).
Proof.
  intros hub.
  assert (Hok : ProviderHub.well_keyed Adapter name hub).
  { apply hub_ok_new_from. split; [constructor | constructor]. }
  assert (Hkeys : forall n, n ∈ ProviderHub.listProviders Adapter hub
                            <-> exists p, p ∈ defaults /\ name p = n).
  { intros n. unfold ProviderHub.listProviders. subst hub.
    unfold ProviderHub.new. rewrite keys_new_from. split.
    - intros [Hin | Hex]; [inversion Hin | exact Hex].
    - intros Hex. now right. }
  split; [apply Hok |]. split; [exact Hkeys |]. split.
  - intros p Hp. unfold ProviderHub.getProvider.
    destruct (JsMap.get (name p) hub) as [q |] eqn:Hget.
    + exists q. split; [reflexivity |]. exact (hub_get_name _ _ _ _ _ Hok Hget).
    + exfalso. apply jsmap_get_keys in Hget. apply Hget, Hkeys. eauto.
  - intros n Hnone. unfold ProviderHub.getProvider.
    destruct (JsMap.get n hub) as [q |] eqn:Hget; [| eauto].
    exfalso.
    assert (Hin : n ∈ ProviderHub.listProviders Adapter hub).
    { destruct (decide (n ∈ ProviderHub.listProviders Adapter hub)) as [H | H];
        [exact H |].
      apply jsmap_get_keys in H. unfold ProviderHub.t in *. congruence. }
    apply Hkeys in Hin as (p & Hp & Hnp). exact (Hnone p Hp Hnp).
Qed.

(** X27.  [PluginManager.executeBeforeSend] has no fallback: when a hook
    returns [null] or [undefined], that value is what the next hook
    receives and, if no later hook replaces it, what the manager returns.
    A hook that throws is skipped and leaves the result as it was. *)
Theorem X27_manager_hands_nullish_on
        (plugin : PluginManager.ChatPlugin) (hook : PluginManager.Hook)
        (rest : list PluginManager.ChatPlugin)
        (result : PromptEngine.JsRef PromptEngine.PluginContext) :
  PluginManager.beforeSend plugin = Some hook ->
  (PluginManager.completion (hook result)
   = PromptEngine.returned PromptEngine.nullish ->
   PluginManager.run_beforeSend (plugin :: rest) result
   = PluginManager.run_beforeSend rest PromptEngine.nullish
   /\ (Forall (fun p => PluginManager.beforeSend p = None) rest ->
       PluginManager.run_beforeSend (plugin :: rest) result
       = PromptEngine.nullish))
  /\ (PluginManager.completion (hook result) = PromptEngine.thrown ->
      PluginManager.run_beforeSend (plugin :: rest) result
      = PluginManager.run_beforeSend rest (PluginManager.arg_after (hook result))).
Proof.
  intros Hhook. split.
  - intros Hnull.
    assert (Hstep : PluginManager.run_beforeSend (plugin :: rest) result
                    = PluginManager.run_beforeSend rest PromptEngine.nullish).
    { simpl. now rewrite Hhook, Hnull. }
    split; [exact Hstep |].
    intros Hnone. rewrite Hstep. clear Hstep.
    induction Hnone as [| p ps Hp _ IH]; simpl; [reflexivity |].
    now rewrite Hp.
  - intros Hthrown. simpl. now rewrite Hhook, Hthrown.
Qed.

(** X28.  In a plugin manager whose names are distinct, [unregister]
    removes the plugin of that name and no other, and [register] makes
    [get] return the plugin, replacing an earlier one of the same name;
    both keep the names distinct. *)
Theorem X28_manager_registry
        (plugin : PluginManager.ChatPlugin) (n other : string)
        (pm : PluginManager.t) :
  NoDup (JsMap.keys pm) ->
  PluginManager.get n (PluginManager.unregister n pm) = None
  /\ (other <> n ->
      PluginManager.get other (PluginManager.unregister n pm)
      = PluginManager.get other pm)
  /\ PluginManager.get (PluginManager.plugin_name plugin)
       (PluginManager.register plugin pm) = Some plugin
  /\ NoDup (JsMap.keys (PluginManager.unregister n pm))
  /\ NoDup (JsMap.keys (PluginManager.register plugin pm))
  /\ length (PluginManager.getAll (PluginManager.register plugin pm))
     = (if decide (PluginManager.plugin_name plugin ∈ JsMap.keys pm)
        then length (PluginManager.getAll pm)
        else S (length (PluginManager.getAll pm))).
Proof.
  intros Hnd.
  unfold PluginManager.get, PluginManager.unregister, PluginManager.register,
    PluginManager.getAll.
  destruct (jsmap_delete_keys n pm Hnd) as (Hnd' & Hgone & Hother).
  split; [now apply jsmap_get_keys |].
  split; [intros Hne; now apply Hother |].
  split; [apply jsmap_get_set_eq |].
  split; [exact Hnd' |].
  split; [now apply jsmap_keys_set_NoDup |].
  pose proof (jsmap_keys_set (PluginManager.plugin_name plugin) plugin pm) as Hk.
  apply (f_equal (@length string)) in Hk.
  unfold JsMap.values, JsMap.keys in *. rewrite !length_map in *.
  rewrite Hk. destruct (decide _); [now rewrite length_map |].
  rewrite length_app, length_map. simpl. lia.
Qed.

Example default_hub_lists_builtins :
  ProviderHub.listProviders string
    (ProviderHub.new string (fun n => n) ["openai"; "claude"; "moonshot"; "local"])
  = ["openai"; "claude"; "moonshot"; "local"]
  /\ ProviderHub.getProvider string "gemini"
       (ProviderHub.new string (fun n => n) ["openai"; "claude"; "moonshot"; "local"])
     = inr ("Provider " +:+ String "034" "gemini" +:+ String "034"
              " not found. Available: openai, claude, moonshot, local").
Proof. split; reflexivity. Qed.

Lemma X27_manager_hands_nullish_on_witness :
  let silent : PluginManager.Hook :=
    fun r => {| PluginManager.arg_after := r;
                PluginManager.completion :=
                  PromptEngine.returned PromptEngine.nullish |} in
  let plugin := {| PluginManager.plugin_name := "silent";
                   PluginManager.beforeSend := Some silent |} in
  PluginManager.executeBeforeSend
    (Sample.context [Sample.msg "u" user "hi"])
    (PluginManager.register plugin JsMap.empty)
  = PromptEngine.nullish.
Proof.
  intros silent plugin.
  destruct (X27_manager_hands_nullish_on plugin silent []
              (PromptEngine.obj (Sample.context [Sample.msg "u" user "hi"])))
    as [Hnull _].
  - reflexivity.
  - destruct Hnull as [_ Hlast]; [reflexivity |].
    apply Hlast. constructor.
Defined.

Lemma X28_manager_registry_witness :
  let a := {| PluginManager.plugin_name := "a"; PluginManager.beforeSend := None |} in
  let pm := PluginManager.register a JsMap.empty in
  PluginManager.get "a" (PluginManager.unregister "a" pm) = None
  /\ length (PluginManager.getAll (PluginManager.register a pm)) = 1%nat.
Proof.
  intros a pm.
  destruct (X28_manager_registry a "a" "b" pm) as (Hgone & _ & _ & _ & _ & Hlen).
  - vm_compute. apply NoDup_singleton.
  - split; [exact Hgone |]. rewrite Hlen. reflexivity.
Defined.

(* ===================================================================== *)
(** * Properties of the orchestrator                                      *)
(* ===================================================================== *)

Section OrchestratorFacts.

Import MemoryWindow.

Lemma slice_from_snoc {A : Type} (n : Z) (l : list A) (x : A) :
  1 <= n ->
  exists k : nat, Js.slice_from (- n) (l ++ [x]) = drop k l ++ [x].
Proof.
  intros Hn. rewrite slice_from_last_n by lia.
  destruct (decide _); [lia |].
  exists (length (l ++ [x]) - Z.to_nat n)%nat.
  rewrite drop_app_le; [reflexivity |]. rewrite length_app. simpl. lia.
Qed.

Lemma dedup_snoc (l : list Message) (x : Message) :
  forall seen : gset string,
    id x ∉ seen -> id x ∉ (id <$> l) ->
    dedup seen (l ++ [x]) = dedup seen l ++ [x].
Proof.
  induction l as [| m l IH]; intros seen Hseen Hl; simpl.
  - destruct (decide (id x ∈ seen)); [contradiction | reflexivity].
  - cbn [fmap list_fmap] in Hl. apply not_elem_of_cons in Hl as [Hne Hl].
    destruct (decide (id m ∈ seen)).
    + now apply IH.
    + cbn [app]. f_equal. apply IH; [| exact Hl].
      intros Hin. apply elem_of_union in Hin as [Hin | Hin]; [| contradiction].
      apply elem_of_singleton in Hin. congruence.
Qed.

Lemma last_drop_nonempty {A : Type} (k : nat) (l : list A) :
  drop k l <> [] -> last (drop k l) = last l.
Proof.
  revert l. induction k as [| k IH]; intros l Hne; [now rewrite drop_0 |].
  destruct l as [| x l]; [reflexivity |]. simpl in *.
  rewrite (IH l Hne). destruct l as [| y l]; [| reflexivity].
  exfalso. apply Hne. now rewrite drop_nil.
Qed.

Lemma trimByTokens_last (w : t) (msgs : list Message) :
  msgs <> [] -> last (trimByTokens w msgs) = last msgs.
Proof.
  intros Hne. pose proof (trimByTokens_nonempty w msgs Hne) as Hres.
  destruct (trimByTokens_shape w msgs) as [k Hk]. rewrite Hk in *.
  now apply last_drop_nonempty.
Qed.

Lemma not_in_drop_ids (k : nat) (l : list Message) (i : string) :
  i ∉ (id <$> l) -> i ∉ (id <$> drop k l).
Proof.
  intros Hn Hin. apply Hn. rewrite fmap_drop in Hin.
  eapply elem_of_sublist; [exact Hin | apply sublist_drop].
Qed.

(** After [addMessage] of a message with a fresh id, the context ends
    with that message. *)
Lemma context_ends_with_new_message (w : t) (um : Message) :
  1 <= maxMessages (config w) ->
  id um ∉ (id <$> pinnedMessages w) ->
  id um ∉ (id <$> messages w) ->
  last (messages (addMessage um w)) = Some um
  /\ last (ctx_messages (getContext (addMessage um w))) = Some um.
Proof.
  intros Hn Hpin Hold.
  pose proof (apply_append_messages (append um) w Hn) as Hmsgs.
  cbn [apply_append] in Hmsgs.
  change (appended [append um]) with [um] in Hmsgs.
  destruct (slice_from_snoc (maxMessages (config w)) (messages w) um Hn)
    as [k Hk].
  rewrite Hk in Hmsgs.
  split; [rewrite Hmsgs; apply last_snoc |].
  assert (Hcfg : config (addMessage um w) = config w)
    by exact (apply_append_config (append um) w).
  assert (Hpinned : pinnedMessages (addMessage um w) = pinnedMessages w)
    by exact (proj2 (apply_append_keeps_rest (append um) w)).
  assert (Hcand : exists front, candidates (addMessage um w) = front ++ [um]).
  { unfold candidates. rewrite Hcfg, Hpinned, Hmsgs.
    destruct (slice_from_snoc (maxMessages (config w)) (drop k (messages w)) um Hn)
      as [k' ->].
    rewrite drop_drop, app_assoc.
    eexists. apply dedup_snoc; [set_solver |].
    rewrite fmap_app. intros Hin. apply elem_of_app in Hin as [Hin | Hin].
    - contradiction.
    - revert Hin. now apply not_in_drop_ids. }
  destruct Hcand as [front Hcand].
  unfold getContext. cbn [ctx_messages].
  destruct (0 <? _).
  - rewrite trimByTokens_last; rewrite Hcand;
      [apply last_snoc | destruct front; discriminate].
  - rewrite Hcand. apply last_snoc.
Qed.

Lemma setSystemPrompt_locked_noop (q p : string) (w : t) :
  systemPromptLocked (config w) = true ->
  systemPrompt w = Some p ->
  p <> "" ->
  setSystemPrompt q w = w.
Proof.
  intros Hlock Hp Hne. unfold setSystemPrompt. rewrite Hlock, Hp. simpl.
  unfold Js.truthy_string. destruct (decide (p = "")); [contradiction |].
  reflexivity.
Qed.

End OrchestratorFacts.

(** X29.  The message the user has just typed always reaches the
    provider, as the last message of the request, whatever the token
    budget, the pinned messages and the system prompt are: this holds for
    a ceiling of at least one message, plugins without [beforeSend] hook,
    a vendor other than ["claude"] and a message id not yet used in the
    window.  The message is also the last entry of the history. *)
Theorem X29_user_message_reaches_provider
        (text msgId : string) (now t_id t_stamp : Z)
        (o : ConversationOrchestrator.t) :
  let w := ConversationOrchestrator.memoryWindow o in
  let userMessage :=
    {| id := msgId; role := user; content := text; name := None;
       tool_calls := None; tool_call_id := None; timestamp := Some now |} in
  1 <= maxMessages (MemoryWindow.config w) ->
  Forall (fun p => PromptEngine.beforeSend p = None)
         (ConversationOrchestrator.current_plugins o) ->
  ConversationOrchestrator.provider (ConversationOrchestrator.config o) <> "claude" ->
  msgId ∉ (id <$> MemoryWindow.pinnedMessages w) ->
  msgId ∉ (id <$> MemoryWindow.messages w) ->
  exists msgs,
    snd (ConversationOrchestrator.sendMessage_request text msgId now t_id t_stamp o)
    = PromptEngine.resolved msgs
    /\ last msgs = Some userMessage
    /\ last (ConversationOrchestrator.getHistory
               (fst (ConversationOrchestrator.sendMessage_request
                       text msgId now t_id t_stamp o)))
       = Some userMessage.
Proof.
  intros w userMessage Hn Hhooks Hvendor Hpin Hold.
  destruct (context_ends_with_new_message w userMessage Hn Hpin Hold)
    as [Hhist Hctx].
  unfold ConversationOrchestrator.sendMessage_request. cbn [fst snd].
  fold userMessage. fold w.
  set (context := MemoryWindow.getContext (MemoryWindow.addMessage userMessage w)) in *.
  unfold PromptEngine.compose.
  cbn [PromptEngine.plugins PromptEngine.systemPrompt PromptEngine.messages
       PromptEngine.jsonSchema PromptEngine.tools].
  set (composed := _ ++ MemoryWindow.ctx_messages context).
  assert (Hlast : last composed = Some userMessage).
  { subst composed. rewrite last_app, Hctx. reflexivity. }
  assert (Hresolved :
    (if (0 <? length (ConversationOrchestrator.current_plugins o))%nat
     then PromptEngine.run_hooks (ConversationOrchestrator.current_plugins o)
            (PromptEngine.obj
               {| PromptEngine.pc_messages := composed;
                  PromptEngine.pc_systemPrompt := MemoryWindow.ctx_systemPrompt context;
                  PromptEngine.pc_metadata :=
                    {| PromptEngine.md_jsonSchema := None;
                       PromptEngine.md_tools := None |} |})
     else PromptEngine.resolved composed)
    = PromptEngine.resolved composed).
  { destruct (0 <? _)%nat; [| reflexivity].
    now rewrite run_hooks_without_hooks. }
  rewrite Hresolved.
  exists composed. unfold PromptEngine.formatForProvider.
  destruct (decide (_ = "claude")); [contradiction |].
  split; [reflexivity |]. split; [exact Hlast | exact Hhist].
Qed.

Lemma X29_user_message_reaches_provider_witness :
  let o := ConversationOrchestrator.new
             {| ConversationOrchestrator.provider := "openai";
                ConversationOrchestrator.memory :=
                  Some (ConversationOrchestrator.memory_config
                          (Sample.limits None (Some 1)));
                ConversationOrchestrator.plugins := None;
                ConversationOrchestrator.systemPrompt := Some "Be brief." |} in
  exists msgs,
    snd (ConversationOrchestrator.sendMessage_request
           "a question far larger than the budget" "msg-1" 5 6 7 o)
    = PromptEngine.resolved msgs
    /\ last msgs
       = Some {| id := "msg-1"; role := user;
                 content := "a question far larger than the budget";
                 name := None; tool_calls := None; tool_call_id := None;
                 timestamp := Some 5 |}.
Proof.
  intros o.
  destruct (X29_user_message_reaches_provider
              "a question far larger than the budget" "msg-1" 5 6 7 o)
    as (msgs & Hres & Hlast & _).
  - simpl. lia.
  - constructor.
  - discriminate.
  - simpl. apply not_elem_of_nil.
  - simpl. apply not_elem_of_nil.
  - exists msgs. split; [exact Hres | exact Hlast].
Defined.

(** X30.  With the lock enabled (the default), an orchestrator built with
    a non-empty system prompt ignores [updateSystemPrompt]: the call
    leaves the orchestrator exactly as it was. *)
Theorem X30_updateSystemPrompt_is_ignored_when_locked
        (cfg : ConversationOrchestrator.OrchestratorConfig) (p q : string) :
  let o := ConversationOrchestrator.new cfg in
  systemPromptLocked
    (MemoryWindow.config (ConversationOrchestrator.memoryWindow o)) = true ->
  ConversationOrchestrator.systemPrompt cfg = Some p ->
  p <> "" ->
  ConversationOrchestrator.updateSystemPrompt q o = o
  /\ MemoryWindow.ctx_systemPrompt
       (MemoryWindow.getContext (ConversationOrchestrator.memoryWindow o))
     = Some p.
Proof.
  intros o Hlock Hp Hne.
  assert (Htruthy : Js.truthy_string p = true).
  { unfold Js.truthy_string. destruct (decide (p = "")); [contradiction | reflexivity]. }
  assert (Hprompt : MemoryWindow.systemPrompt
                      (ConversationOrchestrator.memoryWindow o) = Some p).
  { subst o. unfold ConversationOrchestrator.new.
    cbn [ConversationOrchestrator.memoryWindow]. rewrite Hp, Htruthy.
    unfold MemoryWindow.setSystemPrompt. simpl. now rewrite orb_true_r. }
  split.
  - unfold ConversationOrchestrator.updateSystemPrompt.
    pose proof (setSystemPrompt_locked_noop q p
                  (ConversationOrchestrator.memoryWindow o) Hlock Hprompt Hne)
      as Hstep.
    rewrite Hstep. now destruct o.
  - unfold MemoryWindow.getContext. cbn [MemoryWindow.ctx_systemPrompt].
    rewrite Hprompt. simpl. now rewrite Htruthy.
Qed.

Lemma X30_updateSystemPrompt_is_ignored_when_locked_witness :
  let o := ConversationOrchestrator.new
             {| ConversationOrchestrator.provider := "openai";
                ConversationOrchestrator.memory :=
                  Some (ConversationOrchestrator.memory_count 10);
                ConversationOrchestrator.plugins := None;
                ConversationOrchestrator.systemPrompt := Some "Be brief." |} in
  ConversationOrchestrator.updateSystemPrompt "Be verbose." o = o.
Proof.
  intros o.
  destruct (X30_updateSystemPrompt_is_ignored_when_locked
              {| ConversationOrchestrator.provider := "openai";
                 ConversationOrchestrator.memory :=
                   Some (ConversationOrchestrator.memory_count 10);
                 ConversationOrchestrator.plugins := None;
                 ConversationOrchestrator.systemPrompt := Some "Be brief." |}
              "Be brief." "Be verbose.") as [Hsame _].
  - reflexivity.
  - reflexivity.
  - discriminate.
  - exact Hsame.
Defined.
